(** * nightfeed (rss_site_bridge): extraction, filter rules and refresh scheduling

    A shallow embedding of [rss_site_bridge/app.py]: the entry extractor with
    its link-expansion fallback, the boolean filter-rule engine, and the
    per-profile refresh bookkeeping kept in the SQLite store.

    Conventions of the embedding.
    - Python [str] is [string].  Text is taken to be ASCII: [casefold] lowers
      [A-Z] only, and the white-space class is the ASCII part of
      [str.isspace] (which is also what [\s] matches in [re]).
    - A Python function that may raise returns [result A]; the exception
      carries its class and its message ([str(exc)]).
    - The DOM ([bs4]), [urllib.parse] and the page fetcher are capabilities
      the code consumes; they are interfaces here, with small reference
      instances at the end of the definitions to run examples on.
    - Timestamps are stored as ISO-8601 text; a stored timestamp is
      [option Z]: [None] is the empty string, [Some t] the text of the
      instant [t] (microseconds since the epoch, UTC). *)

From Stdlib Require Import String Ascii List ZArith NArith Lia Bool Arith.
From Stdlib Require Import DecimalString Sorted Permutation.
From Stdlib Require DecimalPos DecimalZ FinFun.
Import ListNotations.
Open Scope string_scope.

(** ** Python string primitives *)

Module PyStr.

Definition ord (c : ascii) : nat := nat_of_ascii c.

Definition in_range (lo hi : nat) (c : ascii) : bool :=
  (lo <=? ord c)%nat && (ord c <=? hi)%nat.

(** [str.isspace] on ASCII: TAB, LF, VT, FF, CR, FS, GS, RS, US and space. *)
Definition isspace (c : ascii) : bool :=
  in_range 9 13 c || in_range 28 32 c.

Definition isupper (c : ascii) : bool := in_range 65 90 c.
Definition islower (c : ascii) : bool := in_range 97 122 c.
Definition isdigit (c : ascii) : bool := in_range 48 57 c.

(** [\w] of [re] on ASCII text. *)
Definition is_word_char (c : ascii) : bool :=
  isupper c || islower c || isdigit c || Ascii.eqb c "_".

Definition lower_char (c : ascii) : ascii :=
  if isupper c then ascii_of_nat (ord c + 32) else c.

Definition upper_char (c : ascii) : ascii :=
  if islower c then ascii_of_nat (ord c - 32) else c.

Fixpoint map_chars (f : ascii -> ascii) (s : string) : string :=
  match s with
  | EmptyString => EmptyString
  | String c r => String (f c) (map_chars f r)
  end.

(** [s.casefold()] *)
Definition casefold (s : string) : string := map_chars lower_char s.

(** [s.upper()] *)
Definition upper (s : string) : string := map_chars upper_char s.

Definition is_empty (s : string) : bool :=
  match s with EmptyString => true | _ => false end.

(** Python truthiness of a [str]. *)
Definition truthy (s : string) : bool := negb (is_empty s).

Fixpoint lstrip (s : string) : string :=
  match s with
  | EmptyString => EmptyString
  | String c r => if isspace c then lstrip r else s
  end.

Fixpoint rstrip (s : string) : string :=
  match s with
  | EmptyString => EmptyString
  | String c r =>
      let r' := rstrip r in
      if is_empty r' && isspace c then EmptyString else String c r'
  end.

(** [s.strip()] *)
Definition strip (s : string) : string := rstrip (lstrip s).

(** [s.startswith(p)] *)
Fixpoint startswith (p s : string) : bool :=
  match p, s with
  | EmptyString, _ => true
  | String a p', String b s' => Ascii.eqb a b && startswith p' s'
  | String _ _, EmptyString => false
  end.

(** [needle in hay] *)
Fixpoint contains (needle hay : string) : bool :=
  startswith needle hay ||
  match hay with
  | EmptyString => false
  | String _ r => contains needle r
  end.

(** [c in s] for a single character. *)
Fixpoint has_char (c : ascii) (s : string) : bool :=
  match s with
  | EmptyString => false
  | String a r => Ascii.eqb a c || has_char c r
  end.

Fixpoint last_char (s : string) : option ascii :=
  match s with
  | EmptyString => None
  | String c EmptyString => Some c
  | String _ r => last_char r
  end.

(** [s.endswith(c)] for a single character. *)
Definition endswith_char (c : ascii) (s : string) : bool :=
  match last_char s with
  | Some a => Ascii.eqb a c
  | None => false
  end.

(** Line boundaries of [str.splitlines] on ASCII text. *)
Definition is_linebreak (c : ascii) : bool :=
  in_range 10 13 c || in_range 28 30 c.

Definition CR : ascii := ascii_of_nat 13.
Definition LF : ascii := ascii_of_nat 10.

(** [s.splitlines()]; [after_cr] is set right after a carriage return, whose
    following line feed belongs to the same line boundary. *)
Fixpoint splitlines_from (after_cr : bool) (s : string) : list string :=
  match s with
  | EmptyString => []
  | String c r =>
      if after_cr && Ascii.eqb c LF then splitlines_from false r
      else if is_linebreak c then
        EmptyString :: splitlines_from (Ascii.eqb c CR) r
      else
        match splitlines_from false r with
        | [] => [String c EmptyString]
        | l :: ls => String c l :: ls
        end
  end.

Definition splitlines (s : string) : list string := splitlines_from false s.

(** [s.split()] (split on runs of white space). *)
Fixpoint split_ws (s : string) : list string :=
  match s with
  | EmptyString => []
  | String c r =>
      if isspace c then split_ws r
      else
        match r with
        | EmptyString => [String c EmptyString]
        | String c' _ =>
            if isspace c' then String c EmptyString :: split_ws r
            else
              match split_ws r with
              | [] => [String c EmptyString]
              | w :: ws => String c w :: ws
              end
        end
  end.

(** [sep.join(parts)] *)
Fixpoint join (sep : string) (parts : list string) : string :=
  match parts with
  | [] => EmptyString
  | [p] => p
  | p :: ps => p ++ sep ++ join sep ps
  end.

(** [str(n)] for a natural number. *)
Definition str_of_nat (n : nat) : string :=
  NilEmpty.string_of_uint (Nat.to_uint n).

End PyStr.

Import PyStr.

(** ** Exceptions *)

(** The two exception classes the code raises and catches.  The
    capabilities are total functions or return a [result] of these classes:
    an exception of another class out of a library (a selector the engine
    cannot parse, say) is outside the embedding. *)
Inductive exn : Type :=
| ValueError (msg : string)
| RuntimeError (msg : string).

(** [str(exc)] *)
Definition exn_message (e : exn) : string :=
  match e with ValueError m => m | RuntimeError m => m end.

Definition is_ValueError (e : exn) : bool :=
  match e with ValueError _ => true | RuntimeError _ => false end.

Inductive result (A : Type) : Type :=
| Ok (a : A)
| Raise (e : exn).
Arguments Ok {A} a.
Arguments Raise {A} e.

Definition bind {A B : Type} (r : result A) (k : A -> result B) : result B :=
  match r with
  | Ok a => k a
  | Raise e => Raise e
  end.

Declare Scope py_scope.
Delimit Scope py_scope with py.
Notation "x <- c1 ;; c2" := (bind c1 (fun x => c2))
  (at level 61, c1 at next level, right associativity) : py_scope.
Notation "' pat <- c1 ;; c2" := (bind c1 (fun x => match x with pat => c2 end))
  (at level 61, pat pattern, c1 at next level, right associativity) : py_scope.
Open Scope py_scope.

Definition is_ok {A : Type} (r : result A) : bool :=
  match r with Ok _ => true | Raise _ => false end.

(** Runs [f] over a list, left to right, stopping at the first exception:
    the list comprehension [[f(x) for x in xs]]. *)
Fixpoint map_result {A B : Type} (f : A -> result B) (xs : list A) : result (list B) :=
  match xs with
  | [] => Ok []
  | x :: rest =>
      y <- f x ;;
      ys <- map_result f rest ;;
      Ok (y :: ys)
  end.

(** ** Filter expression engine *)

Module Filter.

(** The tuples [("TERM", s)], [("AND", l, r)] and [("OR", l, r)]. *)
Inductive tree : Type :=
| TERM (term : string)
| AND (left right : tree)
| OR (left right : tree).

Inductive token_type : Type := T_LPAREN | T_RPAREN | T_TERM | T_AND | T_OR.

Definition token : Type := (token_type * string)%type.

Definition token_type_eqb (a b : token_type) : bool :=
  match a, b with
  | T_LPAREN, T_LPAREN | T_RPAREN, T_RPAREN | T_TERM, T_TERM
  | T_AND, T_AND | T_OR, T_OR => true
  | _, _ => false
  end.

(** [expected_type.lower()] in the message of [consume]. *)
Definition token_type_lower (t : token_type) : string :=
  match t with
  | T_LPAREN => "lparen"
  | T_RPAREN => "rparen"
  | T_TERM => "term"
  | T_AND => "and"
  | T_OR => "or"
  end.

(** *** Regular-expression pieces

    A position in the subject is the pair of the character before it
    ([None] at the start) and the text from it on. *)

Definition word_opt (c : option ascii) : bool :=
  match c with Some a => is_word_char a | None => false end.

Definition head_char (s : string) : option ascii :=
  match s with EmptyString => None | String c _ => Some c end.

(** [\b] between [prev] and the head of [s]. *)
Definition word_boundary (prev : option ascii) (s : string) : bool :=
  xorb (word_opt prev) (word_opt (head_char s)).

(** [\bAND\b|\bOR\b] with [re.IGNORECASE] at a position: the matched text,
    upper-cased as the tokenizer does, and the rest of the subject. *)
Definition match_keyword (prev : option ascii) (s : string)
  : option (token_type * string * ascii * string) :=
  match s with
  | String a (String n (String d rest)) =>
      if Ascii.eqb (lower_char a) "a" && Ascii.eqb (lower_char n) "n"
         && Ascii.eqb (lower_char d) "d"
         && word_boundary prev s && word_boundary (Some d) rest
      then Some (T_AND, "AND", d, rest)
      else
        if Ascii.eqb (lower_char a) "o" && Ascii.eqb (lower_char n) "r"
           && word_boundary prev s && word_boundary (Some n) (String d rest)
        then Some (T_OR, "OR", n, String d rest)
        else None
  | String o (String r rest) =>
      if Ascii.eqb (lower_char o) "o" && Ascii.eqb (lower_char r) "r"
         && word_boundary prev s && word_boundary (Some r) rest
      then Some (T_OR, "OR", r, rest)
      else None
  | _ => None
  end.

Definition is_paren (c : ascii) : bool := Ascii.eqb c "(" || Ascii.eqb c ")".

(** [re.search(r"\b(?:AND|OR)\b|[()]", s, re.IGNORECASE)] found something,
    scanning from the position [(prev, s)]. *)
Fixpoint has_operator_from (prev : option ascii) (s : string) : bool :=
  match s with
  | EmptyString => false
  | String c r =>
      match match_keyword prev s with
      | Some _ => true
      | None => is_paren c || has_operator_from (Some c) r
      end
  end.

Definition has_operator (s : string) : bool := has_operator_from None s.

(** [[^q]*q] from just after an opening quote [q]: the text up to the next
    [q] and what follows it. *)
Fixpoint until_quote (q : ascii) (s : string) : option (string * string) :=
  match s with
  | EmptyString => None
  | String c r =>
      if Ascii.eqb c q then Some (EmptyString, r)
      else match until_quote q r with
           | Some (body, rest) => Some (String c body, rest)
           | None => None
           end
  end.

(** [[^()\s]+], greedy: the run, its last character and the rest. *)
Fixpoint bare_run (last : ascii) (s : string) : string * ascii * string :=
  match s with
  | EmptyString => (EmptyString, last, EmptyString)
  | String c r =>
      if is_paren c || isspace c then (EmptyString, last, s)
      else let '(run, l, rest) := bare_run c r in (String c run, l, rest)
  end.

(** [\s*], greedy, keeping track of the character before the position. *)
Fixpoint skip_spaces (prev : option ascii) (s : string) : option ascii * string :=
  match s with
  | EmptyString => (prev, EmptyString)
  | String c r => if isspace c then skip_spaces (Some c) r else (prev, s)
  end.

Definition QUOTE2 : ascii := ascii_of_nat 34.
Definition QUOTE1 : ascii := ascii_of_nat 39.

(** One [token_pattern.match(expression, position)]: the token appended and
    the position of [match.end()], or [None] when the pattern does not match. *)
Definition match_token (prev : option ascii) (s : string)
  : option (token * option ascii * string) :=
  let '(prev1, s1) := skip_spaces prev s in
  match s1 with
  | EmptyString => None
  | String c r =>
      if Ascii.eqb c "(" then Some ((T_LPAREN, "("), Some c, r)
      else if Ascii.eqb c ")" then Some ((T_RPAREN, ")"), Some c, r)
      else
        match (if Ascii.eqb c QUOTE2 || Ascii.eqb c QUOTE1
               then until_quote c r else None) with
        | Some (body, rest) => Some ((T_TERM, body), Some c, rest)
        | None =>
            match match_keyword prev1 s1 with
            | Some (ty, text, l, rest) => Some ((ty, text), Some l, rest)
            | None =>
                let '(run, l, rest) := bare_run c s1 in
                Some ((T_TERM, run), Some l, rest)
            end
        end
  end.

Definition OutOfFuel : exn := RuntimeError "out of fuel".

(** The [while position < len(expression)] loop of
    [tokenize_filter_expression]; every round consumes at least one
    character, so [fuel] = length of the text is enough. *)
Fixpoint tokenize_loop (fuel : nat) (prev : option ascii) (s : string)
  : result (list token) :=
  match s with
  | EmptyString => Ok []
  | String _ _ =>
      match fuel with
      | O => Raise OutOfFuel
      | S fuel' =>
          match match_token prev s with
          | None => Raise (ValueError "Invalid filter expression.")
          | Some (tok, prev', rest) =>
              toks <- tokenize_loop fuel' prev' rest ;;
              Ok (tok :: toks)
          end
      end
  end.

Definition tokenize_filter_expression (expression : string) : result (list token) :=
  tokenize_loop (String.length expression) None expression.

(** [consume(expected_type)] at the current position. *)
Definition consume (expected_type : option token_type) (tokens : list token)
  : result (token * list token) :=
  match tokens with
  | [] => Raise (ValueError "Incomplete filter expression.")
  | tok :: rest =>
      match expected_type with
      | Some ty =>
          if token_type_eqb (fst tok) ty then Ok (tok, rest)
          else Raise (ValueError ("Expected " ++ token_type_lower ty
                                  ++ " in filter expression."))
      | None => Ok (tok, rest)
      end
  end.

Definition current_is (ty : token_type) (tokens : list token) : bool :=
  match tokens with
  | tok :: _ => token_type_eqb (fst tok) ty
  | [] => false
  end.

(** The recursive-descent parser.  The closures of the source share the
    token list and a position; here each function takes the tokens from the
    position on and returns those left.  [or_loop] and [and_loop] are the two
    [while] loops. *)
Fixpoint parse_or_expression (fuel : nat) (tokens : list token)
  : result (tree * list token) :=
  match fuel with
  | O => Raise OutOfFuel
  | S f =>
      '(node, rest) <- parse_and_expression f tokens ;;
      or_loop f node rest
  end
with or_loop (fuel : nat) (node : tree) (tokens : list token)
  : result (tree * list token) :=
  if current_is T_OR tokens then
    match fuel with
    | O => Raise OutOfFuel
    | S f =>
        '(_, rest) <- consume (Some T_OR) tokens ;;
        '(rhs, rest') <- parse_and_expression f rest ;;
        or_loop f (OR node rhs) rest'
    end
  else Ok (node, tokens)
with parse_and_expression (fuel : nat) (tokens : list token)
  : result (tree * list token) :=
  match fuel with
  | O => Raise OutOfFuel
  | S f =>
      '(node, rest) <- parse_primary f tokens ;;
      and_loop f node rest
  end
with and_loop (fuel : nat) (node : tree) (tokens : list token)
  : result (tree * list token) :=
  if current_is T_AND tokens then
    match fuel with
    | O => Raise OutOfFuel
    | S f =>
        '(_, rest) <- consume (Some T_AND) tokens ;;
        '(rhs, rest') <- parse_primary f rest ;;
        and_loop f (AND node rhs) rest'
    end
  else Ok (node, tokens)
with parse_primary (fuel : nat) (tokens : list token)
  : result (tree * list token) :=
  match fuel with
  | O => Raise OutOfFuel
  | S f =>
      match tokens with
      | [] => Raise (ValueError "Incomplete filter expression.")
      | (T_TERM, _) :: _ =>
          '(tok, rest) <- consume (Some T_TERM) tokens ;;
          Ok (TERM (snd tok), rest)
      | (T_LPAREN, _) :: _ =>
          '(_, rest) <- consume (Some T_LPAREN) tokens ;;
          '(node, rest') <- parse_or_expression f rest ;;
          '(_, rest'') <- consume (Some T_RPAREN) rest' ;;
          Ok (node, rest'')
      | _ => Raise (ValueError "Expected a filter term or parenthesized group.")
      end
  end.

(** Fuel that lets the parser run to its end on [tokens]. *)
Definition parser_fuel (tokens : list token) : nat := 3 * List.length tokens + 3.

Definition parse_filter_expression (expression : string) : result tree :=
  let normalized_expression := strip expression in
  if is_empty normalized_expression
  then Raise (ValueError "Filter expressions cannot be empty.")
  else if negb (has_operator normalized_expression)
  then Ok (TERM normalized_expression)
  else
    tokens <- tokenize_filter_expression normalized_expression ;;
    '(tree, rest) <- parse_or_expression (parser_fuel tokens) tokens ;;
    match rest with
    | [] => Ok tree
    | _ :: _ => Raise (ValueError "Unexpected token in filter expression.")
    end.

Definition parse_filter_rule_lines (filter_rules : string) : list string :=
  map strip (filter (fun line => truthy (strip line)) (splitlines filter_rules)).

Definition parse_filter_rules (filter_rules : string) : result (list tree) :=
  map_result parse_filter_expression (parse_filter_rule_lines filter_rules).

End Filter.

Import Filter.

(** ** [fnmatch.fnmatchcase]

    The pattern language of the standard library's [fnmatch.translate]:
    [*], [?], [[seq]], [[!seq]] and literal characters; the compiled regular
    expression must match the whole name. *)

Module Fnmatch.

Inductive class_item : Type :=
| CChar (c : ascii)
| CRange (lo hi : ascii).

Inductive glob_item : Type :=
| GStar
| GAny
| GLit (c : ascii)
| GClass (negated : bool) (items : list class_item).

(** The text of a bracket expression, read from just after its [[]: the
    characters up to the closing []] (a []] that comes first, or first after
    [!], is an ordinary member) and the pattern after it. *)
Fixpoint class_text (first : bool) (s : string) : option (string * string) :=
  match s with
  | EmptyString => None
  | String c r =>
      if Ascii.eqb c "]" && negb first then Some (EmptyString, r)
      else match class_text false r with
           | Some (stuff, rest) => Some (String c stuff, rest)
           | None => None
           end
  end.

Definition class_body (s : string) : option (bool * string * string) :=
  match s with
  | String "!" r =>
      match class_text true r with
      | Some (stuff, rest) => Some (true, stuff, rest)
      | None => None
      end
  | _ =>
      match class_text true s with
      | Some (stuff, rest) => Some (false, stuff, rest)
      | None => None
      end
  end.

(** Members of a bracket expression: [lo-hi] is a range when a character
    follows the hyphen, any other character stands for itself. *)
Fixpoint class_items (stuff : string) : list class_item :=
  match stuff with
  | EmptyString => []
  | String lo r =>
      match r with
      | String "-" (String hi r') => CRange lo hi :: class_items r'
      | _ => CChar lo :: class_items r
      end
  end.

(** [fnmatch.translate], as a list of pattern items. *)
Fixpoint translate (fuel : nat) (pat : string) : list glob_item :=
  match fuel with
  | O => []
  | S f =>
      match pat with
      | EmptyString => []
      | String c r =>
          if Ascii.eqb c "*" then GStar :: translate f r
          else if Ascii.eqb c "?" then GAny :: translate f r
          else if Ascii.eqb c "[" then
            match class_body r with
            | Some (negated, stuff, rest) =>
                GClass negated (class_items stuff)
                  :: translate f rest
            | None => GLit c :: translate f r
            end
          else GLit c :: translate f r
      end
  end.

Definition class_item_matches (c : ascii) (it : class_item) : bool :=
  match it with
  | CChar a => Ascii.eqb a c
  | CRange lo hi => in_range (ord lo) (ord hi) c
  end.

Definition item_matches (it : glob_item) (c : ascii) : bool :=
  match it with
  | GStar => true
  | GAny => true
  | GLit a => Ascii.eqb a c
  | GClass negated items => xorb negated (existsb (class_item_matches c) items)
  end.

(** Whole-string match of a translated pattern. *)
Fixpoint glob_match (items : list glob_item) : string -> bool :=
  match items with
  | [] => fun s => is_empty s
  | GStar :: rest =>
      fix star (s : string) : bool :=
        glob_match rest s ||
        match s with
        | EmptyString => false
        | String _ s' => star s'
        end
  | it :: rest =>
      fun s =>
        match s with
        | EmptyString => false
        | String c s' => item_matches it c && glob_match rest s'
        end
  end.

Definition fnmatchcase (name pat : string) : bool :=
  glob_match (translate (String.length pat) pat) name.

End Fnmatch.

Import Fnmatch.

(** ** Entries and rule evaluation *)

Record FeedEntry : Type := {
  title : string;
  link : string;
  summary : string;
  published_at : Z
}.

Definition STAR : string := "*".

Definition entry_matches_filter_term (entry : FeedEntry) (term : string) : bool :=
  let title := casefold (title entry) in
  let normalized_term := casefold term in
  if has_char "*" normalized_term || has_char "?" normalized_term then
    let pattern := normalized_term in
    let pattern := if negb (startswith STAR pattern) then STAR ++ pattern else pattern in
    let pattern := if negb (endswith_char "*" pattern) then pattern ++ STAR else pattern in
    fnmatchcase title pattern
  else contains normalized_term title.

Fixpoint evaluate_filter_expression (tree : Filter.tree) (entry : FeedEntry) : bool :=
  match tree with
  | TERM term => entry_matches_filter_term entry term
  | AND l r => evaluate_filter_expression l entry && evaluate_filter_expression r entry
  | OR l r => evaluate_filter_expression l entry || evaluate_filter_expression r entry
  end.

Definition entry_matches_any_filter_rule (entry : FeedEntry) (parsed_rules : list Filter.tree) : bool :=
  existsb (fun rule => evaluate_filter_expression rule entry) parsed_rules.

Definition nonempty {A : Type} (l : list A) : bool :=
  match l with [] => false | _ :: _ => true end.

(** The test both passes make inline and [apply_entry_filters] makes again. *)
Definition entry_passes_filters (include_rules exclude_rules : list Filter.tree)
    (entry : FeedEntry) : bool :=
  (negb (nonempty include_rules) || entry_matches_any_filter_rule entry include_rules)
  && (negb (nonempty exclude_rules) || negb (entry_matches_any_filter_rule entry exclude_rules)).

Definition apply_entry_filters (entries : list FeedEntry)
    (include_rules exclude_rules : list Filter.tree) : list FeedEntry :=
  if negb (nonempty include_rules) && negb (nonempty exclude_rules) then entries
  else filter (entry_passes_filters include_rules exclude_rules) entries.


(** Python's [xs[:stop]]. *)
Definition slice_to {A : Type} (stop : Z) (xs : list A) : list A :=
  if (stop <? 0)%Z
  then firstn (List.length xs - Z.to_nat (- stop)) xs
  else firstn (Z.to_nat stop) xs.

(** ** Configuration *)

Record FeedRequest : Type := {
  feed_title : string;
  source_url : string;
  item_selector : string;
  title_selector : string;
  link_selector : string;
  summary_selector : string;
  max_items : Z;
  refresh_interval_minutes : Z;
  fetch_mode : string;
  filter_rules : string;
  exclude_filter_rules : string
}.

(** ** Capabilities the extractor consumes *)

(** What the code uses of a [bs4] node.  [get_text n] is
    [n.get_text(" ", strip=True)] (for a bare string, the stripped string);
    [get_href n] is [n.get("href")]; [node_eqb] is [==] (what [list.index]
    compares with) and [node_is] is [is]. *)
Class Dom (Node : Type) : Type := {
  select : Node -> string -> list Node;
  select_one : Node -> string -> option Node;
  get_text : Node -> string;
  get_href : Node -> option string;
  parent : Node -> option Node;
  contents : Node -> list Node;
  tag_name : Node -> option string;
  node_eqb : Node -> Node -> bool;
  node_is : Node -> Node -> bool
}.

(** What the code uses of [urllib.parse]: [urljoin], and the [scheme] and
    [netloc] of [urlparse]. *)
Class UrlLib : Type := {
  urljoin : string -> string -> string;
  url_scheme : string -> string;
  url_netloc : string -> string
}.

(** The outside world of one extraction: the two page-retrieval backends
    (what [fetch_html_http] and [fetch_html_browser] return or raise for a
    URL) and the HTML parser. *)
Class World (Node : Type) : Type := {
  fetch_html_http : string -> result string;
  fetch_html_browser : string -> result string;
  BeautifulSoup : string -> Node
}.

(** ** Observable events *)

(** What a run lets the outside see: a pair handed to the progress sink, and
    a call of the page fetcher, which goes to the network for the URL. *)
Inductive event : Type :=
| Progress (title detail : string)
| FetchPage (fetch_mode source_url : string).

Definition is_fetch (ev : event) : bool :=
  match ev with FetchPage _ _ => true | Progress _ _ => false end.

(** A computation that reports events and then returns or raises. *)
Definition io (A : Type) : Type := (list event * result A)%type.

Definition io_ret {A : Type} (a : A) : io A := ([], Ok a).
Definition io_raise {A : Type} (e : exn) : io A := ([], Raise e).
Definition io_lift {A : Type} (r : result A) : io A := ([], r).
Definition io_emit (ev : event) : io unit := ([ev], Ok tt).

Definition io_bind {A B : Type} (m : io A) (k : A -> io B) : io B :=
  match snd m with
  | Ok a => let r := k a in ((fst m ++ fst r)%list, snd r)
  | Raise e => (fst m, Raise e)
  end.

Declare Scope io_scope.
Delimit Scope io_scope with io.
Notation "x <~ c1 ;; c2" := (io_bind c1 (fun x => c2))
  (at level 61, c1 at next level, right associativity) : io_scope.
Notation "c1 ;;; c2" := (io_bind c1 (fun _ => c2))
  (at level 61, right associativity) : io_scope.
Open Scope io_scope.

Definition events {A : Type} (m : io A) : list event := fst m.
Definition outcome {A : Type} (m : io A) : result A := snd m.

(** [emit_progress(progress, title, detail)]: the sink, when there is one,
    sees the pair; the model always records it. *)
Definition emit_progress (title detail : string) : io unit :=
  io_emit (Progress title detail).

Definition io_when (b : bool) (m : io unit) : io unit :=
  if b then m else io_ret tt.

(** ** Entry extractor *)

Section Extractor.

Context {Node : Type} {dom : Dom Node} {urls : UrlLib} {world : World Node}.

Definition is_scope_selector (selector : string) : bool :=
  let normalized_selector := strip selector in
  String.eqb normalized_selector ":scope" || String.eqb normalized_selector "self".

Definition select_node_with_scope (node : Node) (selector : string) : option Node :=
  if is_scope_selector selector then Some node else select_one node selector.

Definition select_nodes_with_scope (node : Node) (selector : string) : list Node :=
  if is_scope_selector selector then [node] else select node selector.

Definition is_http_scheme (scheme : string) : bool :=
  String.eqb scheme "http" || String.eqb scheme "https".

Definition normalize_topic_link (source_url href : string) : result string :=
  let joined := urljoin source_url href in
  if negb (is_http_scheme (url_scheme joined))
  then Raise (ValueError "Topic links must resolve to http or https URLs.")
  else if negb (String.eqb (url_netloc joined) (url_netloc source_url))
  then Raise (ValueError "Off-site topic links are blocked by default.")
  else Ok joined.

(** [a or b] on an optional string and a string. *)
Definition or_text (title_text : option string) (fallback : string) : string :=
  match title_text with
  | Some t => if truthy t then t else fallback
  | None => fallback
  end.

Definition build_entry_from_nodes (container_node : Node)
    (title_node link_node : option Node) (title_text : option string)
    (config : FeedRequest) (now : Z) : result (option FeedEntry) :=
  match title_node, link_node with
  | Some title_node, Some link_node =>
      match get_href link_node with
      | None => Ok None
      | Some href =>
          if negb (truthy href) then Ok None
          else
            absolute_link <- normalize_topic_link (source_url config) href ;;
            let title := or_text title_text (get_text title_node) in
            if negb (truthy title) then Ok None
            else
              let summary :=
                if truthy (summary_selector config) then
                  match select_node_with_scope container_node (summary_selector config) with
                  | Some summary_node => get_text summary_node
                  | None => EmptyString
                  end
                else EmptyString in
              Ok (Some {| title := title; link := absolute_link;
                          summary := summary; published_at := now |})
      end
  | _, _ => Ok None
  end.

(** [index == 1 or index % 25 == 0 or index == total] *)
Definition progress_due (index total : nat) : bool :=
  (index =? 1)%nat || (index mod 25 =? 0)%nat || (index =? total)%nat.

Definition reached_max (entries : list FeedEntry) (config : FeedRequest) : bool :=
  (max_items config <=? Z.of_nat (List.length entries))%Z.

(** The [for index, node in enumerate(nodes, start=1)] loop of
    [extract_entries_from_item_nodes], from the node numbered [index] on and
    with [entries] collected so far. *)
Fixpoint item_nodes_loop (config : FeedRequest) (now : Z)
    (parsed_filter_rules parsed_exclude_filter_rules : list Filter.tree)
    (total index : nat) (nodes : list Node) (entries : list FeedEntry)
  : io (list FeedEntry) :=
  match nodes with
  | [] => io_ret entries
  | node :: rest =>
      let continue := item_nodes_loop config now parsed_filter_rules
                        parsed_exclude_filter_rules total (S index) rest in
      io_when (progress_due index total)
        (emit_progress "Extracting entries"
           ("Processed " ++ str_of_nat index ++ " of " ++ str_of_nat total
            ++ " matched nodes.")) ;;;
      entry <~ io_lift (build_entry_from_nodes node
                          (select_node_with_scope node (title_selector config))
                          (select_node_with_scope node (link_selector config))
                          None config now) ;;
      match entry with
      | None => continue entries
      | Some entry =>
          if nonempty parsed_filter_rules
             && negb (entry_matches_any_filter_rule entry parsed_filter_rules)
          then continue entries
          else if nonempty parsed_exclude_filter_rules
                  && entry_matches_any_filter_rule entry parsed_exclude_filter_rules
          then continue entries
          else
            let entries := (entries ++ [entry])%list in
            if reached_max entries config then io_ret entries
            else continue entries
      end
  end.

Definition extract_entries_from_item_nodes (nodes : list Node) (config : FeedRequest)
    (now : Z) (parsed_filter_rules parsed_exclude_filter_rules : list Filter.tree)
  : io (list FeedEntry) :=
  item_nodes_loop config now parsed_filter_rules parsed_exclude_filter_rules
    (List.length nodes) 1 nodes [].

Definition should_use_container_link_fallback (nodes : list Node)
    (entries : list FeedEntry) (config : FeedRequest) : bool :=
  if (1 <? List.length entries)%nat then false
  else existsb (fun node =>
         (1 <? List.length (select_nodes_with_scope node (link_selector config)))%nat)
       nodes.

Definition resolve_repeated_link_title_node (link_node : Node) (config : FeedRequest)
  : Node :=
  let normalized_title_selector := strip (title_selector config) in
  let normalized_link_selector := strip (link_selector config) in
  if is_scope_selector (title_selector config) then link_node
  else if String.eqb normalized_title_selector normalized_link_selector then link_node
  else match select_node_with_scope link_node (title_selector config) with
       | Some title_node => title_node
       | None => link_node
       end.

Definition is_tag (tag : string) (node : Node) : bool :=
  match tag_name node with
  | Some n => String.eqb n tag
  | None => false
  end.

(** [siblings.index(link_node)]: the siblings before the first one equal to
    the link, and those after it. *)
Fixpoint split_at_node (link_node : Node) (siblings : list Node)
  : option (list Node * list Node) :=
  match siblings with
  | [] => None
  | s :: rest =>
      if node_eqb s link_node then Some ([], rest)
      else match split_at_node link_node rest with
           | Some (before, after) => Some (s :: before, after)
           | None => None
           end
  end.

(** The non-empty texts of the siblings walked from the link outwards, up to
    the first [br] or [a]. *)
Fixpoint sibling_texts (siblings : list Node) : list string :=
  match siblings with
  | [] => []
  | s :: rest =>
      if is_tag "br" s || is_tag "a" s then []
      else
        let text := get_text s in
        if truthy text then text :: sibling_texts rest else sibling_texts rest
  end.

Definition or_str (a b : string) : string := if truthy a then a else b.

Definition extract_inline_title_text (container_node link_node : Node) : string :=
  match parent link_node with
  | None => get_text link_node
  | Some parent =>
      let anchor_text := get_text link_node in
      let siblings := contents parent in
      match split_at_node link_node siblings with
      | None => anchor_text
      | Some (before, after) =>
          let title_parts :=
            (rev (sibling_texts (rev before))
             ++ (if truthy anchor_text then [anchor_text] else [])
             ++ sibling_texts after)%list in
          or_str (join " " (split_ws (join " " title_parts))) anchor_text
      end
  end.

Definition extract_repeated_link_title_text (container_node link_node title_node : Node)
    (config : FeedRequest) : option string :=
  let normalized_title_selector := strip (title_selector config) in
  let normalized_link_selector := strip (link_selector config) in
  if negb (String.eqb normalized_title_selector normalized_link_selector
           || is_scope_selector (title_selector config))
  then None
  else
    let own_text :=
      if negb (node_is title_node link_node) then get_text title_node
      else EmptyString in
    if truthy own_text then Some own_text
    else
      let contextual_title := extract_inline_title_text container_node link_node in
      if truthy contextual_title then Some contextual_title else None.

(** The two nested [for] loops of [extract_entries_from_link_collections]
    run over every link node of every item node in order; [pairs] is that
    sequence from the current link on, [processed_links] the links handled
    before it. *)
Fixpoint link_nodes_loop (config : FeedRequest) (now : Z)
    (parsed_filter_rules parsed_exclude_filter_rules : list Filter.tree)
    (total_links processed_links : nat) (pairs : list (Node * Node))
    (entries : list FeedEntry) (seen_links : list string)
  : io (list FeedEntry) :=
  match pairs with
  | [] => io_ret entries
  | (node, link_node) :: rest =>
      let processed_links := S processed_links in
      let continue := link_nodes_loop config now parsed_filter_rules
                        parsed_exclude_filter_rules total_links processed_links rest in
      let title_node := resolve_repeated_link_title_node link_node config in
      let title_text := extract_repeated_link_title_text node link_node title_node config in
      entry <~ io_lift (build_entry_from_nodes node (Some title_node) (Some link_node)
                          title_text config now) ;;
      match entry with
      | None => continue entries seen_links
      | Some entry =>
          if existsb (String.eqb (link entry)) seen_links then continue entries seen_links
          else if nonempty parsed_filter_rules
                  && negb (entry_matches_any_filter_rule entry parsed_filter_rules)
          then continue entries seen_links
          else if nonempty parsed_exclude_filter_rules
                  && entry_matches_any_filter_rule entry parsed_exclude_filter_rules
          then continue entries seen_links
          else
            let seen_links := link entry :: seen_links in
            let entries := (entries ++ [entry])%list in
            io_when (progress_due processed_links total_links)
              (emit_progress "Expanding repeated links"
                 ("Processed " ++ str_of_nat processed_links ++ " of "
                  ++ str_of_nat total_links ++ " linked topics.")) ;;;
            if reached_max entries config then io_ret entries
            else continue entries seen_links
      end
  end.

(** [zip(nodes, link_groups)] with every group spread out. *)
Definition link_pairs (nodes : list Node) (config : FeedRequest) : list (Node * Node) :=
  flat_map (fun node =>
              map (fun link_node => (node, link_node))
                  (select_nodes_with_scope node (link_selector config)))
           nodes.

Definition extract_entries_from_link_collections (nodes : list Node)
    (config : FeedRequest) (now : Z)
    (parsed_filter_rules parsed_exclude_filter_rules : list Filter.tree)
  : io (list FeedEntry) :=
  let pairs := link_pairs nodes config in
  link_nodes_loop config now parsed_filter_rules parsed_exclude_filter_rules
    (List.length pairs) 0 pairs [] [].

Definition fetch_html (source_url fetch_mode : string) : io string :=
  io_emit (FetchPage fetch_mode source_url) ;;;
  io_lift (if String.eqb fetch_mode "browser"
           then fetch_html_browser source_url
           else fetch_html_http source_url).

(** [extract_feed_entries(config)]; [now] is the clock reading taken for
    the entries' [published_at].  The guard around the import of [bs4], an
    install requirement of the package, is left out. *)
Definition extract_feed_entries (config : FeedRequest) (now : Z) : io (list FeedEntry) :=
  emit_progress "Accessing website" "Opening the source page." ;;;
  html <~ fetch_html (source_url config) (fetch_mode config) ;;
  emit_progress "Analyzing document" "Parsing the returned HTML." ;;;
  let soup := BeautifulSoup html in
  emit_progress "Matching selectors" "Locating item nodes from the page." ;;;
  let nodes := select soup (item_selector config) in
  if negb (nonempty nodes)
  then io_raise (ValueError "No topic nodes matched the item selector.")
  else
    emit_progress "Matching selectors"
      ("Matched " ++ str_of_nat (List.length nodes) ++ " item nodes.") ;;;
    parsed_filter_rules <~ io_lift (parse_filter_rules (filter_rules config)) ;;
    parsed_exclude_filter_rules <~
      io_lift (parse_filter_rules (exclude_filter_rules config)) ;;
    emit_progress "Extracting entries" "Reading titles and links from matched nodes." ;;;
    entries <~ extract_entries_from_item_nodes nodes config now
                 parsed_filter_rules parsed_exclude_filter_rules ;;
    entries <~
      (if should_use_container_link_fallback nodes entries config then
         emit_progress "Expanding repeated links"
           "Detected grouped links inside a container. Expanding them." ;;;
         container_entries <~ extract_entries_from_link_collections nodes config now
                                parsed_filter_rules parsed_exclude_filter_rules ;;
         io_ret (if (List.length entries <? List.length container_entries)%nat
                 then container_entries else entries)
       else io_ret entries) ;;
    if negb (nonempty entries)
    then io_raise (ValueError "Matched nodes did not contain usable titles and links.")
    else
      emit_progress "Applying filters" "Evaluating filter rules against extracted titles." ;;;
      let filtered_entries :=
        slice_to (max_items config)
          (apply_entry_filters entries parsed_filter_rules parsed_exclude_filter_rules) in
      emit_progress "Preparing preview" "Formatting extracted titles and links." ;;;
      io_ret filtered_entries.

End Extractor.

(** ** Request values *)

(** [s.rstrip(chars)] and its mirror image, for the characters [p] holds of. *)
Fixpoint rstrip_where (p : ascii -> bool) (s : string) : string :=
  match s with
  | EmptyString => EmptyString
  | String c r =>
      let r' := rstrip_where p r in
      if is_empty r' && p c then EmptyString else String c r'
  end.

Fixpoint lstrip_where (p : ascii -> bool) (s : string) : string :=
  match s with
  | EmptyString => EmptyString
  | String c r => if p c then lstrip_where p r else s
  end.

(** The white space [int] skips around an ASCII literal: TAB, LF, VT, FF,
    CR and space. *)
Definition is_int_space (c : ascii) : bool := in_range 9 13 c || Ascii.eqb c " ".

(** The digits of a literal, single underscores allowed between them: the
    value and the number of digits. *)
Fixpoint int_digits (value : Z) (digits : nat) (after_digit : bool) (s : string)
  : option (Z * nat) :=
  match s with
  | EmptyString => if after_digit then Some (value, digits) else None
  | String c r =>
      if isdigit c
      then int_digits (10 * value + Z.of_nat (ord c - 48)) (S digits) true r
      else if Ascii.eqb c "_" && after_digit then int_digits value digits false r
      else None
  end.

(** The longest literal [int] converts by default. *)
Definition int_max_str_digits : nat := 4300.

(** [int(raw)] for a string: [None] stands for its [ValueError]. *)
Definition py_int (raw : string) : option Z :=
  let literal := rstrip_where is_int_space (lstrip_where is_int_space raw) in
  let '(negative, body) :=
    match literal with
    | String "-" r => (true, r)
    | String "+" r => (false, r)
    | _ => (false, literal)
    end in
  match int_digits 0 0 false body with
  | Some (value, digits) =>
      if (int_max_str_digits <? digits)%nat then None
      else Some (if negative then (- value)%Z else value)
  | None => None
  end.

Definition parse_max_items (raw : string) : result Z :=
  match py_int raw with
  | None => Raise (ValueError "Max items must be a number.")
  | Some value =>
      if (value <? 1)%Z || (100 <? value)%Z
      then Raise (ValueError "Max items must be between 1 and 100.")
      else Ok value
  end.

Definition parse_refresh_interval (raw : string) : result Z :=
  match py_int raw with
  | None => Raise (ValueError "Refresh interval must be a number of minutes.")
  | Some value =>
      if (value <? 0)%Z || (1440 <? value)%Z
      then Raise (ValueError "Refresh interval must be between 0 and 1440 minutes.")
      else Ok value
  end.

Definition require_text (value label : string) : result string :=
  let value := strip value in
  if negb (truthy value) then Raise (ValueError (label ++ " is required."))
  else Ok value.

Definition normalize_filter_rules (raw : string) : string :=
  let lines := map strip (splitlines raw) in
  join (String LF EmptyString) (filter truthy lines).

(** [values.get(key, default)] on the submitted pairs: the first value of
    the key. *)
Definition get (values : list (string * string)) (key default : string) : string :=
  match find (fun item => String.eqb (fst item) key) values with
  | Some item => snd item
  | None => default
  end.

Section RequestValues.

Context {urls : UrlLib}.

Definition normalize_source_url (source_url : string) : result string :=
  let source_url := strip source_url in
  if negb (is_http_scheme (url_scheme source_url)) || negb (truthy (url_netloc source_url))
  then Raise (ValueError "Source URL must be a full http or https URL.")
  else Ok source_url.

Definition parse_request_values (values : list (string * string)) : result FeedRequest :=
  source_url <- normalize_source_url (get values "source_url" EmptyString) ;;
  let fetch_mode := or_str (strip (get values "fetch_mode" "http")) "http" in
  if negb (String.eqb fetch_mode "http" || String.eqb fetch_mode "browser")
  then Raise (ValueError "Fetch mode must be http or browser.")
  else
    feed_title <- require_text (get values "feed_title" EmptyString) "Feed title" ;;
    item_selector <- require_text (get values "item_selector" EmptyString) "Item selector" ;;
    title_selector <-
      require_text (get values "title_selector" EmptyString) "Title selector" ;;
    link_selector <- require_text (get values "link_selector" EmptyString) "Link selector" ;;
    let summary_selector := strip (get values "summary_selector" EmptyString) in
    let filter_rules := normalize_filter_rules (get values "filter_rules" EmptyString) in
    let exclude_filter_rules :=
      normalize_filter_rules (get values "exclude_filter_rules" EmptyString) in
    max_items <- parse_max_items (get values "max_items" "25") ;;
    refresh_interval_minutes <-
      parse_refresh_interval (get values "refresh_interval_minutes" "60") ;;
    Ok {| feed_title := feed_title;
          source_url := source_url;
          item_selector := item_selector;
          title_selector := title_selector;
          link_selector := link_selector;
          summary_selector := summary_selector;
          max_items := max_items;
          refresh_interval_minutes := refresh_interval_minutes;
          fetch_mode := fetch_mode;
          filter_rules := filter_rules;
          exclude_filter_rules := exclude_filter_rules |}.

End RequestValues.

Definition build_feed_url (root_url token public_base_url : string) : string :=
  let base_url := or_str (strip public_base_url) root_url in
  let normalized_base := rstrip_where (Ascii.eqb "/") base_url ++ "/" in
  normalized_base ++ "feeds/" ++ token ++ ".xml".

(** ** Profile store *)

Definition timestamp : Type := option Z.

(** [utcnow_text()] at the instant [now]. *)
Definition utcnow_text (now : Z) : timestamp := Some now.

(** [timedelta(minutes=n)] in microseconds. *)
Definition minutes (n : Z) : Z := (n * 60000000)%Z.

Module Profile.

Record StoredProfile : Type := {
  id : Z;
  feed_token : string;
  feed_title : string;
  source_url : string;
  item_selector : string;
  title_selector : string;
  link_selector : string;
  summary_selector : string;
  filter_rules : string;
  exclude_filter_rules : string;
  max_items : Z;
  refresh_interval_minutes : Z;
  fetch_mode : string;
  active : bool;
  last_status : string;
  last_error : string;
  last_refreshed_at : timestamp;
  refresh_anchor_at : timestamp;
  created_at : timestamp;
  updated_at : timestamp;
  item_count : nat
}.

End Profile.

Import Profile(StoredProfile).

Definition to_feed_request (self : StoredProfile) : FeedRequest :=
  {| feed_title := Profile.feed_title self;
     source_url := Profile.source_url self;
     item_selector := Profile.item_selector self;
     title_selector := Profile.title_selector self;
     link_selector := Profile.link_selector self;
     summary_selector := Profile.summary_selector self;
     filter_rules := Profile.filter_rules self;
     exclude_filter_rules := Profile.exclude_filter_rules self;
     max_items := Profile.max_items self;
     refresh_interval_minutes := Profile.refresh_interval_minutes self;
     fetch_mode := Profile.fetch_mode self |}.

(** A row of the table [feed_items]. *)
Record FeedItemRow : Type := {
  item_id : Z;
  profile_id : Z;
  item_title : string;
  item_link : string;
  item_summary : string;
  discovered_at : Z
}.

(** The database: the rows of [profiles] (their [item_count] is not a
    column and is filled in on load), the rows of [feed_items], and the two
    AUTOINCREMENT counters. *)
Record Database : Type := {
  profiles : list StoredProfile;
  feed_items : list FeedItemRow;
  next_profile_id : Z;
  next_item_id : Z
}.

Definition items_of (db : Database) (profile_id' : Z) : list FeedItemRow :=
  filter (fun r => (profile_id r =? profile_id')%Z) (feed_items db).

(** [profile_from_row] on the row joined with [COUNT(fi.id)]. *)
Definition profile_from_row (db : Database) (row : StoredProfile) : StoredProfile :=
  {| Profile.id := Profile.id row;
     Profile.feed_token := Profile.feed_token row;
     Profile.feed_title := Profile.feed_title row;
     Profile.source_url := Profile.source_url row;
     Profile.item_selector := Profile.item_selector row;
     Profile.title_selector := Profile.title_selector row;
     Profile.link_selector := Profile.link_selector row;
     Profile.summary_selector := Profile.summary_selector row;
     Profile.filter_rules := Profile.filter_rules row;
     Profile.exclude_filter_rules := Profile.exclude_filter_rules row;
     Profile.max_items := Profile.max_items row;
     Profile.refresh_interval_minutes := Profile.refresh_interval_minutes row;
     Profile.fetch_mode := Profile.fetch_mode row;
     Profile.active := Profile.active row;
     Profile.last_status := Profile.last_status row;
     Profile.last_error := Profile.last_error row;
     Profile.last_refreshed_at := Profile.last_refreshed_at row;
     Profile.refresh_anchor_at := Profile.refresh_anchor_at row;
     Profile.created_at := Profile.created_at row;
     Profile.updated_at := Profile.updated_at row;
     Profile.item_count := List.length (items_of db (Profile.id row)) |}.

Definition get_profile_by_id (db : Database) (profile_id' : Z) : option StoredProfile :=
  option_map (profile_from_row db)
    (find (fun row => (Profile.id row =? profile_id')%Z) (profiles db)).

(** [UPDATE profiles SET ... WHERE id = ?] *)
Definition update_profiles_where_id (db : Database) (profile_id' : Z)
    (set : StoredProfile -> StoredProfile) : Database :=
  {| profiles := map (fun row => if (Profile.id row =? profile_id')%Z then set row else row)
                     (profiles db);
     feed_items := feed_items db;
     next_profile_id := next_profile_id db;
     next_item_id := next_item_id db |}.

Definition create_profile (db : Database) (config : FeedRequest) (now : Z) (token : string)
  : Database * result StoredProfile :=
  let now := utcnow_text now in
  let profile_id' := next_profile_id db in
  let row :=
    {| Profile.id := profile_id';
       Profile.feed_token := token;
       Profile.feed_title := feed_title config;
       Profile.source_url := source_url config;
       Profile.item_selector := item_selector config;
       Profile.title_selector := title_selector config;
       Profile.link_selector := link_selector config;
       Profile.summary_selector := summary_selector config;
       Profile.filter_rules := filter_rules config;
       Profile.exclude_filter_rules := exclude_filter_rules config;
       Profile.max_items := max_items config;
       Profile.refresh_interval_minutes := refresh_interval_minutes config;
       Profile.fetch_mode := fetch_mode config;
       Profile.active := true;
       Profile.last_status := "idle";
       Profile.last_error := EmptyString;
       Profile.last_refreshed_at := None;
       Profile.refresh_anchor_at := now;
       Profile.created_at := now;
       Profile.updated_at := now;
       Profile.item_count := 0 |} in
  let db' :=
    {| profiles := (profiles db ++ [row])%list;
       feed_items := feed_items db;
       next_profile_id := (profile_id' + 1)%Z;
       next_item_id := next_item_id db |} in
  (db', match get_profile_by_id db' profile_id' with
        | Some profile => Ok profile
        | None => Raise (RuntimeError "Failed to load the saved profile.")
        end).

Definition set_config (config : FeedRequest) (now : timestamp) (row : StoredProfile)
  : StoredProfile :=
  {| Profile.id := Profile.id row;
     Profile.feed_token := Profile.feed_token row;
     Profile.feed_title := feed_title config;
     Profile.source_url := source_url config;
     Profile.item_selector := item_selector config;
     Profile.title_selector := title_selector config;
     Profile.link_selector := link_selector config;
     Profile.summary_selector := summary_selector config;
     Profile.filter_rules := filter_rules config;
     Profile.exclude_filter_rules := exclude_filter_rules config;
     Profile.max_items := max_items config;
     Profile.refresh_interval_minutes := refresh_interval_minutes config;
     Profile.fetch_mode := fetch_mode config;
     Profile.active := Profile.active row;
     Profile.last_status := "idle";
     Profile.last_error := EmptyString;
     Profile.last_refreshed_at := Profile.last_refreshed_at row;
     Profile.refresh_anchor_at := Profile.refresh_anchor_at row;
     Profile.created_at := Profile.created_at row;
     Profile.updated_at := now;
     Profile.item_count := Profile.item_count row |}.

Definition update_profile (db : Database) (profile_id' : Z) (config : FeedRequest) (now : Z)
  : Database * result StoredProfile :=
  match get_profile_by_id db profile_id' with
  | None => (db, Raise (ValueError "Profile not found."))
  | Some _ =>
      let now := utcnow_text now in
      let db' := update_profiles_where_id db profile_id' (set_config config now) in
      (db', match get_profile_by_id db' profile_id' with
            | Some profile => Ok profile
            | None => Raise (RuntimeError "Failed to load the updated profile.")
            end)
  end.

(** The [SET] clause shared by enabling, disabling and the two outcomes of a
    refresh: the status columns and, where given, the active flag and the two
    due-time columns. *)
Definition set_state (active' : option bool) (status error : string)
    (refreshed anchor : option timestamp) (now : timestamp) (row : StoredProfile)
  : StoredProfile :=
  {| Profile.id := Profile.id row;
     Profile.feed_token := Profile.feed_token row;
     Profile.feed_title := Profile.feed_title row;
     Profile.source_url := Profile.source_url row;
     Profile.item_selector := Profile.item_selector row;
     Profile.title_selector := Profile.title_selector row;
     Profile.link_selector := Profile.link_selector row;
     Profile.summary_selector := Profile.summary_selector row;
     Profile.filter_rules := Profile.filter_rules row;
     Profile.exclude_filter_rules := Profile.exclude_filter_rules row;
     Profile.max_items := Profile.max_items row;
     Profile.refresh_interval_minutes := Profile.refresh_interval_minutes row;
     Profile.fetch_mode := Profile.fetch_mode row;
     Profile.active :=
       match active' with Some b => b | None => Profile.active row end;
     Profile.last_status := status;
     Profile.last_error := error;
     Profile.last_refreshed_at :=
       match refreshed with Some t => t | None => Profile.last_refreshed_at row end;
     Profile.refresh_anchor_at :=
       match anchor with Some t => t | None => Profile.refresh_anchor_at row end;
     Profile.created_at := Profile.created_at row;
     Profile.updated_at := now;
     Profile.item_count := Profile.item_count row |}.

Definition set_profile_active (db : Database) (profile_id' : Z) (active' : bool) (now : Z)
  : Database * result StoredProfile :=
  match get_profile_by_id db profile_id' with
  | None => (db, Raise (ValueError "Profile not found."))
  | Some _ =>
      let now := utcnow_text now in
      let db' :=
        if active' then
          update_profiles_where_id db profile_id'
            (set_state (Some true) "idle" EmptyString None (Some now) now)
        else
          update_profiles_where_id db profile_id'
            (set_state (Some false) "disabled" EmptyString None None now) in
      (db', match get_profile_by_id db' profile_id' with
            | Some updated => Ok updated
            | None => Raise (RuntimeError "Failed to load the updated profile.")
            end)
  end.

(** The non-empty ones among some stored timestamps. *)
Fixpoint present (values : list timestamp) : list Z :=
  match values with
  | [] => []
  | Some t :: rest => t :: present rest
  | None :: rest => present rest
  end.

(** [should_refresh(profile)] when the clock reads [now]. *)
Definition should_refresh (profile : StoredProfile) (now : Z) : bool :=
  if negb (Profile.active profile) then false
  else if (Profile.refresh_interval_minutes profile =? 0)%Z then false
  else
    let base_candidates :=
      present [Profile.last_refreshed_at profile; Profile.refresh_anchor_at profile] in
    let base_candidates :=
      if negb (nonempty base_candidates) then present [Profile.created_at profile]
      else base_candidates in
    match base_candidates with
    | [] => false
    | first :: others =>
        let due_base := fold_left Z.max others first in
        let due_at := (due_base + minutes (Profile.refresh_interval_minutes profile))%Z in
        (due_at <=? now)%Z
    end.

(** [INSERT INTO feed_items ... ON CONFLICT(profile_id, link) DO UPDATE SET
    title = excluded.title, summary = excluded.summary] *)
Definition upsert_feed_item (profile_id' : Z) (db : Database) (entry : FeedEntry)
  : Database :=
  let same_key r :=
    (profile_id r =? profile_id')%Z && String.eqb (item_link r) (link entry) in
  if existsb same_key (feed_items db) then
    {| profiles := profiles db;
       feed_items :=
         map (fun r => if same_key r
                       then {| item_id := item_id r; profile_id := profile_id r;
                               item_title := title entry; item_link := item_link r;
                               item_summary := summary entry;
                               discovered_at := discovered_at r |}
                       else r)
             (feed_items db);
       next_profile_id := next_profile_id db;
       next_item_id := next_item_id db |}
  else
    {| profiles := profiles db;
       feed_items :=
         (feed_items db ++
          [{| item_id := next_item_id db; profile_id := profile_id';
              item_title := title entry; item_link := link entry;
              item_summary := summary entry;
              discovered_at := published_at entry |}])%list;
       next_profile_id := next_profile_id db;
       next_item_id := (next_item_id db + 1)%Z |}.

Section Refresh.

Context {Node : Type} {dom : Dom Node} {urls : UrlLib} {world : World Node}.

(** [refresh_profile(db_path, profile_id)]: [now] is the clock reading of
    [utcnow_text()], [extract_now] the one taken inside the extraction. *)
Definition refresh_profile (db : Database) (profile_id' : Z) (now extract_now : Z)
  : Database * io unit :=
  match get_profile_by_id db profile_id' with
  | None => (db, io_raise (ValueError "Profile not found."))
  | Some profile =>
      if negb (Profile.active profile) then (db, io_raise (RuntimeError "Feed is disabled."))
      else
        let now := utcnow_text now in
        let run := extract_feed_entries (to_feed_request profile) extract_now in
        match outcome run with
        | Raise exc =>
            (update_profiles_where_id db profile_id'
               (set_state None "error" (exn_message exc) (Some now) (Some now) now),
             (events run, Raise (RuntimeError (exn_message exc))))
        | Ok entries =>
            let db' := fold_left (upsert_feed_item profile_id') entries db in
            (update_profiles_where_id db' profile_id'
               (set_state None "ok" EmptyString (Some now) (Some now) now),
             (events run, Ok tt))
        end
  end.

End Refresh.

(** ** Deleting, purging, listing *)

(** [DELETE FROM feed_items WHERE profile_id = ?] *)
Definition delete_feed_items_where_profile_id (db : Database) (profile_id' : Z)
  : Database :=
  {| profiles := profiles db;
     feed_items := filter (fun r => negb (profile_id r =? profile_id')%Z) (feed_items db);
     next_profile_id := next_profile_id db;
     next_item_id := next_item_id db |}.

(** [DELETE FROM profiles WHERE id = ?] *)
Definition delete_profiles_where_id (db : Database) (profile_id' : Z) : Database :=
  {| profiles := filter (fun row => negb (Profile.id row =? profile_id')%Z) (profiles db);
     feed_items := feed_items db;
     next_profile_id := next_profile_id db;
     next_item_id := next_item_id db |}.

Definition delete_profile (db : Database) (profile_id' : Z) : Database * result unit :=
  match get_profile_by_id db profile_id' with
  | None => (db, Raise (ValueError "Profile not found."))
  | Some _ =>
      let db := delete_feed_items_where_profile_id db profile_id' in
      let db := delete_profiles_where_id db profile_id' in
      (db, Ok tt)
  end.

Definition purge_feed_items (db : Database) (profile_id' : Z) (now : Z)
  : Database * result unit :=
  match get_profile_by_id db profile_id' with
  | None => (db, Raise (ValueError "Profile not found."))
  | Some _ =>
      let now := utcnow_text now in
      let db := delete_feed_items_where_profile_id db profile_id' in
      let db := update_profiles_where_id db profile_id'
                  (set_state None "idle" EmptyString None None now) in
      (db, Ok tt)
  end.

(** [fetchone()] of the rows [WHERE p.feed_token = ?]. *)
Definition get_profile_by_token (db : Database) (token : string) : option StoredProfile :=
  option_map (profile_from_row db)
    (find (fun row => String.eqb (Profile.feed_token row) token) (profiles db)).

(** [ORDER BY]: [precedes a b] says that [a] sorts strictly before [b].
    Rows that tie keep the order of the table. *)
Fixpoint insert_in_order {A : Type} (precedes : A -> A -> bool) (x : A) (rows : list A)
  : list A :=
  match rows with
  | [] => [x]
  | y :: rest =>
      if precedes y x then y :: insert_in_order precedes x rest else x :: rows
  end.

Definition order_by {A : Type} (precedes : A -> A -> bool) (rows : list A) : list A :=
  fold_right (insert_in_order precedes) [] rows.

(** The order of two stored timestamps as text: the empty string sorts
    first, and the ISO texts of two instants sort as the instants do. *)
Definition timestamp_ltb (a b : timestamp) : bool :=
  match a, b with
  | None, None => false
  | None, Some _ => true
  | Some _, None => false
  | Some x, Some y => (x <? y)%Z
  end.

(** [ORDER BY p.created_at DESC] *)
Definition created_at_desc (a b : StoredProfile) : bool :=
  timestamp_ltb (Profile.created_at b) (Profile.created_at a).

Definition list_profiles (db : Database) : list StoredProfile :=
  map (profile_from_row db) (order_by created_at_desc (profiles db)).

(** [ORDER BY discovered_at DESC, id ASC] *)
Definition discovered_at_desc_id_asc (a b : FeedItemRow) : bool :=
  (discovered_at b <? discovered_at a)%Z
  || (discovered_at a =? discovered_at b)%Z && (item_id a <? item_id b)%Z.

(** [LIMIT ?]: a negative limit is no limit. *)
Definition sql_limit {A : Type} (limit : Z) (rows : list A) : list A :=
  if (limit <? 0)%Z then rows else firstn (Z.to_nat limit) rows.

Definition entry_from_row (row : FeedItemRow) : FeedEntry :=
  {| title := item_title row;
     link := item_link row;
     summary := item_summary row;
     published_at := discovered_at row |}.

Definition list_feed_items (db : Database) (profile_id' : Z) (limit : Z) : list FeedEntry :=
  map entry_from_row
    (sql_limit limit (order_by discovered_at_desc_id_asc (items_of db profile_id'))).

Definition pick_selected_profile (profiles : list StoredProfile)
    (selected_profile_id : option Z) : option StoredProfile :=
  match profiles with
  | [] => None
  | first :: _ =>
      match selected_profile_id with
      | None => Some first
      | Some selected =>
          match find (fun profile => (Profile.id profile =? selected)%Z) profiles with
          | Some profile => Some profile
          | None => Some first
          end
      end
  end.

(** ** Clone titles *)

(** [str(n)] for an integer. *)
Definition str_of_int (n : Z) : string := NilZero.string_of_int (Z.to_int n).

(** [str(n)] under the interpreter's limit on the digits of a conversion. *)
Definition str_int (n : Z) : result string :=
  if (int_max_str_digits <? String.length (str_of_int (Z.abs n)))%nat
  then Raise (ValueError
                ("Exceeds the limit (4300 digits) for integer string conversion; "
                 ++ "use sys.set_int_max_str_digits() to increase the limit"))
  else Ok (str_of_int n).

(** [int(digits)] for a run of digits that [\d+] matched. *)
Definition int_of_digits (digits : string) : result Z :=
  match int_digits 0 0 false digits with
  | Some (value, count) =>
      if (int_max_str_digits <? count)%nat
      then Raise (ValueError
                    ("Exceeds the limit (4300 digits) for integer string conversion: "
                     ++ "value has " ++ str_of_nat count ++ " digits; "
                     ++ "use sys.set_int_max_str_digits() to increase the limit"))
      else Ok value
  | None =>
      Raise (ValueError ("invalid literal for int() with base 10: '" ++ digits ++ "'"))
  end.

(** [text] ends, whatever the case of its letters, with the lower-case
    [ending]: what is before the ending. *)
Fixpoint before_ending (ending text : string) : option string :=
  if String.eqb (casefold text) ending then Some EmptyString
  else
    match text with
    | EmptyString => None
    | String c rest => option_map (String c) (before_ending ending rest)
    end.

(** The longest run of digits [text] ends with, and what is before it. *)
Fixpoint split_trailing_digits (text : string) : string * string :=
  match text with
  | EmptyString => (EmptyString, EmptyString)
  | String c rest =>
      let '(front, digits) := split_trailing_digits rest in
      if is_empty front && isdigit c then (EmptyString, String c digits)
      else (String c front, digits)
  end.

(** The group [base] of
    [re.fullmatch(r"(?P<base>.*?)(?: copy(?: (?P<suffix>\d+))?)?", text, re.IGNORECASE)],
    or [None] when there is no match: the lazy [base] is the text without
    its ending [ copy] or [ copy N], and [.] does not match a line feed. *)
Definition copy_base (text : string) : option string :=
  let base :=
    match before_ending " copy" text with
    | Some base => base
    | None =>
        let '(front, digits) := split_trailing_digits text in
        if truthy digits then
          match before_ending " copy " front with
          | Some base => base
          | None => text
          end
        else text
    end in
  if has_char LF base then None else Some base.

(** The group [suffix] of
    [re.fullmatch(rf"{re.escape(base_title)} (?P<suffix>\d+)", text, re.IGNORECASE)],
    or [None] when there is no match. *)
Definition current_suffix (base_title text : string) : option string :=
  let '(front, digits) := split_trailing_digits text in
  if truthy digits && String.eqb (casefold front) (casefold (base_title ++ " "))
  then Some digits else None.

(** The [while True] loop of [build_clone_title].  Every round tries one
    candidate, and among more candidates than there are titles one is free:
    [fuel] is the number of titles and one. *)
Fixpoint clone_title_loop (fuel : nat) (existing_titles : list string)
    (base_title : string) (suffix : Z) : result string :=
  match fuel with
  | O => Raise OutOfFuel
  | S fuel' =>
      number <- str_int suffix ;;
      let candidate := base_title ++ " " ++ number in
      if negb (existsb (String.eqb (casefold candidate)) existing_titles)
      then Ok candidate
      else clone_title_loop fuel' existing_titles base_title (suffix + 1)
  end.

Definition build_clone_title (db : Database) (original_title : string) : result string :=
  let existing_titles :=
    map (fun profile => casefold (Profile.feed_title profile)) (list_profiles db) in
  let base_name :=
    match copy_base (strip original_title) with
    | Some base => strip base
    | None => strip original_title
    end in
  let base_title := base_name ++ " copy" in
  if negb (existsb (String.eqb (casefold base_title)) existing_titles)
  then Ok base_title
  else
    suffix <-
      match current_suffix base_title (strip original_title) with
      | Some digits => value <- int_of_digits digits ;; Ok (value + 1)%Z
      | None => Ok 1%Z
      end ;;
    clone_title_loop (S (List.length existing_titles)) existing_titles base_title suffix.

(** ** The scheduler's pass and the feed route's loader *)


Section Scheduler.

Context {Node : Type} {dom : Dom Node} {urls : UrlLib} {world : World Node}.




End Scheduler.

(** ** Reference instances of the capabilities

    A small document tree with a selector engine for the selectors [tag] and
    [.class], a URL library for plain [scheme://host/path] URLs, and a world
    that serves one page.  They stand in for [bs4], [urllib.parse] and the
    network when a property is run on a concrete page. *)

Module Reference.

Fixpoint list_eqb {A : Type} (eqb : A -> A -> bool) (xs ys : list A) : bool :=
  match xs, ys with
  | [], [] => true
  | x :: xs', y :: ys' => eqb x y && list_eqb eqb xs' ys'
  | _, _ => false
  end.

#[local] Set Warnings "-register-all".

Inductive html : Type :=
| Element (tag : string) (attrs : list (string * string)) (children : list html)
| Text (text : string).

(** A node is a position in a document: the child indices from the root. *)
Record node : Type := { document : html; path : list nat }.

Fixpoint subtree (h : html) (p : list nat) : option html :=
  match p with
  | [] => Some h
  | i :: p' =>
      match h with
      | Element _ _ kids =>
          match nth_error kids i with
          | Some k => subtree k p'
          | None => None
          end
      | Text _ => None
      end
  end.

(** The proper descendants of [h] in document order, with their paths. *)
Fixpoint descendants (h : html) : list (list nat * html) :=
  match h with
  | Text _ => []
  | Element _ _ kids =>
      (fix walk (i : nat) (ks : list html) : list (list nat * html) :=
         match ks with
         | [] => []
         | k :: ks' =>
             (([i], k) :: map (fun d => (i :: fst d, snd d)) (descendants k)
              ++ walk (S i) ks')%list
         end) 0%nat kids
  end.

(** The stripped, non-empty strings below [h], in document order. *)
Fixpoint strings (h : html) : list string :=
  match h with
  | Text t => if truthy (strip t) then [strip t] else []
  | Element _ _ kids =>
      (fix walk (ks : list html) : list string :=
         match ks with
         | [] => []
         | k :: ks' => (strings k ++ walk ks')%list
         end) kids
  end.

Fixpoint assoc (key : string) (attrs : list (string * string)) : option string :=
  match attrs with
  | [] => None
  | (k, v) :: rest => if String.eqb k key then Some v else assoc key rest
  end.

Definition has_class (cls : string) (h : html) : bool :=
  match h with
  | Element _ attrs _ =>
      match assoc "class" attrs with
      | Some v => existsb (String.eqb cls) (split_ws v)
      | None => false
      end
  | Text _ => false
  end.

(** [.class] selects by class, anything else is a type selector. *)
Definition matches_selector (selector : string) (h : html) : bool :=
  match h with
  | Text _ => false
  | Element tag _ _ =>
      match strip selector with
      | String "." cls => has_class cls h
      | tag' => String.eqb tag tag'
      end
  end.

Fixpoint html_eqb (a b : html) : bool :=
  match a, b with
  | Text s, Text t => String.eqb s t
  | Element tag attrs kids, Element tag' attrs' kids' =>
      String.eqb tag tag'
      && list_eqb
           (fun x y => String.eqb (fst x) (fst y) && String.eqb (snd x) (snd y))
           attrs attrs'
      && (fix all2 (xs ys : list html) : bool :=
            match xs, ys with
            | [], [] => true
            | x :: xs', y :: ys' => html_eqb x y && all2 xs' ys'
            | _, _ => false
            end) kids kids'
  | _, _ => false
  end.

Definition at_node (n : node) : html :=
  match subtree (document n) (path n) with
  | Some h => h
  | None => Text EmptyString
  end.

Definition child (n : node) (rel : list nat) : node :=
  {| document := document n; path := (path n ++ rel)%list |}.

Definition ref_select (n : node) (selector : string) : list node :=
  map (fun d => child n (fst d))
      (filter (fun d => matches_selector selector (snd d)) (descendants (at_node n))).

Definition ref_parent (n : node) : option node :=
  match path n with
  | [] => None
  | _ :: _ => Some {| document := document n; path := removelast (path n) |}
  end.

Definition ref_contents (n : node) : list node :=
  match at_node n with
  | Element _ _ kids => map (fun i => child n [i]) (seq 0 (List.length kids))
  | Text _ => []
  end.

#[export] Instance ref_dom : Dom node := {
  select := ref_select;
  select_one := fun n selector => hd_error (ref_select n selector);
  get_text := fun n => join " " (strings (at_node n));
  get_href := fun n =>
    match at_node n with
    | Element _ attrs _ => assoc "href" attrs
    | Text _ => None
    end;
  parent := ref_parent;
  contents := ref_contents;
  tag_name := fun n =>
    match at_node n with
    | Element tag _ _ => Some tag
    | Text _ => None
    end;
  node_eqb := fun a b => html_eqb (at_node a) (at_node b);
  node_is := fun a b => list_eqb Nat.eqb (path a) (path b)
}.

(** *** URLs of the shape [scheme://host/path] *)

Fixpoint split_on (sep : ascii) (s : string) : string * option string :=
  match s with
  | EmptyString => (EmptyString, None)
  | String c r =>
      if Ascii.eqb c sep then (EmptyString, Some r)
      else let '(a, b) := split_on sep r in (String c a, b)
  end.

Fixpoint all_chars (f : ascii -> bool) (s : string) : bool :=
  match s with
  | EmptyString => true
  | String c r => f c && all_chars f r
  end.

Definition ref_scheme_rest (u : string) : string * string :=
  match split_on ":" u with
  | (front, Some rest) =>
      if truthy front && all_chars (fun c => islower c || isupper c || isdigit c) front
      then (casefold front, rest) else (EmptyString, u)
  | (_, None) => (EmptyString, u)
  end.

Definition ref_scheme (u : string) : string := fst (ref_scheme_rest u).

Definition ref_netloc (u : string) : string :=
  match snd (ref_scheme_rest u) with
  | String "/" (String "/" r) => fst (split_on "/" r)
  | _ => EmptyString
  end.

Definition ref_urljoin (base u : string) : string :=
  if negb (truthy u) then base
  else if truthy (ref_scheme u) then u
  else if startswith "//" u then ref_scheme base ++ ":" ++ u
  else if startswith "/" u then ref_scheme base ++ "://" ++ ref_netloc base ++ u
  else ref_scheme base ++ "://" ++ ref_netloc base ++ "/" ++ u.

#[export] Instance ref_urls : UrlLib := {
  urljoin := ref_urljoin;
  url_scheme := ref_scheme;
  url_netloc := ref_netloc
}.

(** A world whose HTTP backend answers [response] and whose parser yields the
    document [page]; the browser backend is not installed. *)
Definition serving (response : result string) (page : html) : World node := {|
  fetch_html_http := fun _ => response;
  fetch_html_browser := fun _ =>
    Raise (RuntimeError
      "Browser mode requires Playwright. Install the optional browser dependency first.");
  BeautifulSoup := fun _ => {| document := page; path := [] |}
|}.

Definition a (href text : string) : html :=
  Element "a" [("href", href)] [Text text].

Definition topic (kids : list html) : html :=
  Element "article" [("class", "topic")] kids.

Definition page_of (kids : list html) : html :=
  Element "[document]" [] [Element "html" [] [Element "body" [] kids]].

Definition request (item title_sel link_sel rules : string) (max : Z) : FeedRequest :=
  {| feed_title := "Forum Feed";
     source_url := "https://example.com/forum";
     item_selector := item;
     title_selector := title_sel;
     link_selector := link_sel;
     summary_selector := EmptyString;
     max_items := max;
     refresh_interval_minutes := 60;
     fetch_mode := "http";
     filter_rules := rules;
     exclude_filter_rules := EmptyString |}.

End Reference.

(** ** Example pages *)

Module Pages.

Import Reference.

(** Three topics, one link each. *)
Definition three_topics : html :=
  page_of [topic [a "/forums/topic/1" "Package Alpha Premium"];
           topic [a "/forums/topic/2" "Package Beta Trial"];
           topic [a "/forums/topic/3" "Bundle Gamma Premium"]].

(** One paragraph holding three links. *)
Definition grouped_links : html :=
  page_of [Element "div" [("class", "banger-container")]
             [Element "p" []
                [a "/forums/topic/alpha" "Alpha Topic";
                 a "/forums/topic/beta" "Beta Topic";
                 a "/forums/topic/gamma" "Gamma Topic"]]].

(** Two topics whose links are the same. *)
Definition repeated_topic : html :=
  page_of [topic [a "/forums/topic/1" "Package Alpha Premium"];
           topic [a "/forums/topic/1" "Package Alpha Premium (bumped)"]].

(** A topic, then one whose link leaves the site. *)
Definition off_site_topic : html :=
  page_of [topic [a "/forums/topic/1" "Package Alpha Premium"];
           topic [a "https://evil.test/topic" "Elsewhere"];
           topic [a "/forums/topic/3" "Bundle Gamma Premium"]].

(** A paragraph of links, the second of which leaves the site. *)
Definition off_site_grouped : html :=
  page_of [Element "p" []
             [a "/forums/topic/alpha" "Alpha Topic";
              a "https://evil.test/topic" "Elsewhere";
              a "/forums/topic/gamma" "Gamma Topic"]].

(** The pages of the repository's extraction tests. *)
Definition filtered_topics : html :=
  page_of [topic [a "/forums/topic/1" "Product Alpha Premium Edition"];
           topic [a "/forums/topic/2" "Toolkit build-21 candidate"];
           topic [a "/forums/topic/3" "Generic baseline package"]].

Definition boolean_topics : html :=
  page_of [topic [a "/forums/topic/1" "Package Alpha Premium"];
           topic [a "/forums/topic/2" "Package Beta Trial"];
           topic [a "/forums/topic/3" "Bundle Gamma Premium"];
           topic [a "/forums/topic/4" "Bundle Delta Premium"]].

Definition excluded_topics : html :=
  page_of [topic [a "/forums/topic/1" "Package Alpha Premium"];
           topic [a "/forums/topic/2" "Package Beta Premium Preview"];
           topic [a "/forums/topic/3" "Bundle Gamma Premium Draft"]].

Definition inline_prefix : html :=
  page_of [Element "div" [("class", "banger-container")]
             [Element "p" []
                [a "/forums/topic/alpha" "Alpha Topic";
                 Element "br" [] [];
                 Text " Bundle Release Candidate - ";
                 a "/forums/topic/beta" "[Premium Tier & Stable Build]";
                 Element "br" [] [];
                 a "/forums/topic/gamma" "Gamma Topic"]]].

(** A request with include and exclude rules. *)
Definition with_rules (include exclude : string) : FeedRequest :=
  {| feed_title := "Forum Feed";
     source_url := "https://example.com/forum";
     item_selector := ".topic";
     title_selector := "a";
     link_selector := "a";
     summary_selector := EmptyString;
     max_items := 10;
     refresh_interval_minutes := 60;
     fetch_mode := "http";
     filter_rules := include;
     exclude_filter_rules := exclude |}.

Definition online (page : html) : World node := serving (Ok "<html></html>") page.

Definition offline (page : html) : World node :=
  serving (Raise (ValueError "Upstream connection error: timed out")) page.

Definition extract (w : World node) (config : FeedRequest) (now : Z) : io (list FeedEntry) :=
  @extract_feed_entries node ref_dom ref_urls w config now.

Definition in_browser_mode (config : FeedRequest) : FeedRequest :=
  {| feed_title := feed_title config;
     source_url := source_url config;
     item_selector := item_selector config;
     title_selector := title_selector config;
     link_selector := link_selector config;
     summary_selector := summary_selector config;
     max_items := max_items config;
     refresh_interval_minutes := refresh_interval_minutes config;
     fetch_mode := "browser";
     filter_rules := filter_rules config;
     exclude_filter_rules := exclude_filter_rules config |}.

Definition entry (title' link' : string) (now : Z) : FeedEntry :=
  {| title := title'; link := link'; summary := EmptyString; published_at := now |}.

(** What the extractor returns for [three_topics]. *)
Definition three_entries (now : Z) : list FeedEntry :=
  [entry "Package Alpha Premium" "https://example.com/forums/topic/1" now;
   entry "Package Beta Trial" "https://example.com/forums/topic/2" now;
   entry "Bundle Gamma Premium" "https://example.com/forums/topic/3" now].

(** The item nodes of [three_topics]. *)
Definition topic_nodes : list node :=
  @select _ ref_dom (@BeautifulSoup _ (online three_topics) "<html></html>") ".topic".

(** One paragraph holding four links, two of them to one topic. *)
Definition repeated_links : html :=
  page_of [Element "div" [("class", "banger-container")]
             [Element "p" []
                [a "/forums/topic/alpha" "Alpha Topic";
                 a "/forums/topic/alpha" "Alpha Topic, again";
                 a "/forums/topic/beta" "Beta Topic";
                 a "/forums/topic/gamma" "Gamma Topic"]]].

(** The item nodes of [repeated_links]. *)
Definition container_nodes : list node :=
  @select _ ref_dom (@BeautifulSoup _ (online repeated_links) "<html></html>")
    ".banger-container".

End Pages.

(** ** Example store *)

Module Store.

Definition empty : Database :=
  {| profiles := []; feed_items := []; next_profile_id := 1; next_item_id := 1 |}.

Definition hourly : FeedRequest := Reference.request ".topic" "a" "a" EmptyString 10.

(** One profile, created at the instant 1000 and refreshed hourly. *)
Definition one_profile : Database := fst (create_profile empty hourly 1000 "token-1").

(** That profile as [create_profile] returns it. *)
Definition created : StoredProfile :=
  {| Profile.id := 1;
     Profile.feed_token := "token-1";
     Profile.feed_title := feed_title hourly;
     Profile.source_url := source_url hourly;
     Profile.item_selector := item_selector hourly;
     Profile.title_selector := title_selector hourly;
     Profile.link_selector := link_selector hourly;
     Profile.summary_selector := summary_selector hourly;
     Profile.filter_rules := filter_rules hourly;
     Profile.exclude_filter_rules := exclude_filter_rules hourly;
     Profile.max_items := max_items hourly;
     Profile.refresh_interval_minutes := refresh_interval_minutes hourly;
     Profile.fetch_mode := fetch_mode hourly;
     Profile.active := true;
     Profile.last_status := "idle";
     Profile.last_error := EmptyString;
     Profile.last_refreshed_at := None;
     Profile.refresh_anchor_at := Some 1000%Z;
     Profile.created_at := Some 1000%Z;
     Profile.updated_at := Some 1000%Z;
     Profile.item_count := 0 |}.

(** The same store with two items kept for the profile. *)
Definition with_items : Database :=
  fold_left (upsert_feed_item 1) 
    [Pages.entry "Topic A" "https://example.com/forum/topic-a" 1000;
     Pages.entry "Topic B" "https://example.com/forum/topic-b" 1000]
    one_profile.

(** A refresh with [Pages.three_topics] as the source page. *)
Definition refresh_online (db : Database) (profile_id' now extract_now : Z)
  : Database * io unit :=
  @refresh_profile _ Reference.ref_dom Reference.ref_urls
    (Pages.online Pages.three_topics) db profile_id' now extract_now.


(** The values of a submitted form; the interval and the fetch mode are
    left to their defaults. *)
Definition submitted : list (string * string) :=
  [("feed_title", "  Forum Feed ");
   ("source_url", " https://example.com/forum");
   ("item_selector", ".topic");
   ("title_selector", "a");
   ("link_selector", "a ");
   ("filter_rules", String LF (" alpha AND premium  " ++ String LF (String LF "beta")));
   ("max_items", " 10 ")].

(** The request of the repository's tests of [build_clone_title]. *)
Definition titled (feed_title' source_url' : string) : FeedRequest :=
  {| feed_title := feed_title';
     source_url := source_url';
     item_selector := ".topic";
     title_selector := "a";
     link_selector := "a";
     summary_selector := EmptyString;
     max_items := 10;
     refresh_interval_minutes := 60;
     fetch_mode := "http";
     filter_rules := EmptyString;
     exclude_filter_rules := EmptyString |}.

(** A store with a copy, and one with a numbered copy as well. *)
Definition one_copy : Database :=
  fst (create_profile empty (titled "Forum Feed copy" "https://example.com/forum")
         1000 "token-1").

Definition two_copies : Database :=
  fst (create_profile one_copy (titled "Forum Feed copy 1" "https://example.com/forum-1")
         1001 "token-2").

End Store.

(** * Vocabulary of the properties *)

(** ** Globs *)

(** What it means for a name to match a translated pattern: [*] stands for
    any text, every other item for one character it admits. *)
Inductive GlobMatches : list glob_item -> string -> Prop :=
| GM_end : GlobMatches [] EmptyString
| GM_star (rest : list glob_item) (skipped s : string) :
    GlobMatches rest s -> GlobMatches (GStar :: rest) (skipped ++ s)
| GM_one (it : glob_item) (rest : list glob_item) (c : ascii) (s : string) :
    it <> GStar -> item_matches it c = true -> GlobMatches rest s ->
    GlobMatches (it :: rest) (String c s).

(** The term holds a wildcard. *)
Definition has_wildcard (term : string) : bool :=
  has_char "*" term || has_char "?" term.

(** A glob with [*] put in front and behind where it does not start or end
    with one. *)
Definition padded (pattern : string) : string :=
  (if startswith STAR pattern then EmptyString else STAR)
  ++ pattern
  ++ (if endswith_char "*" pattern then EmptyString else STAR).

(** ** Rules *)

(** What a parsing function may do on [n] tokens: raise a [ValueError], or
    return with fewer than [bound] tokens left. *)
Definition parses_within (bound : nat) (r : result (tree * list Filter.token)) : Prop :=
  match r with
  | Ok (_, rest) => List.length rest < bound
  | Raise e => is_ValueError e = true
  end.

(** Some line of the include or exclude rules does not parse. *)
Definition has_malformed_rule (config : FeedRequest) : Prop :=
  exists line,
    (In line (parse_filter_rule_lines (filter_rules config))
     \/ In line (parse_filter_rule_lines (exclude_filter_rules config)))
    /\ is_ok (parse_filter_expression line) = false.

(** The reading of "rejected before any network access": the call raises a
    [ValueError] and its events hold no fetch. *)
Definition rejected_before_fetch {A : Type} (run : io A) : Prop :=
  existsb is_fetch (events run) = false
  /\ exists e, outcome run = Raise e /\ is_ValueError e = true.

(** ** Extraction *)

Section ExtractionVocabulary.

Context {Node : Type} {dom : Dom Node} {urls : UrlLib} {world : World Node}.

(** What the fetch of the configured page answers. *)
Definition fetched (config : FeedRequest) : result string :=
  outcome (fetch_html (source_url config) (fetch_mode config)).

(** What [extract_feed_entries] returns once the page is in and its item
    nodes are known. *)
Definition outcome_from_nodes (nodes : list Node) (config : FeedRequest) (now : Z)
  : result (list FeedEntry) :=
  if negb (nonempty nodes)
  then Raise (ValueError "No topic nodes matched the item selector.")
  else
    parsed_filter_rules <- parse_filter_rules (filter_rules config) ;;
    parsed_exclude_filter_rules <- parse_filter_rules (exclude_filter_rules config) ;;
    entries <- outcome (extract_entries_from_item_nodes nodes config now
                          parsed_filter_rules parsed_exclude_filter_rules) ;;
    entries <-
      (if should_use_container_link_fallback nodes entries config then
         container_entries <-
           outcome (extract_entries_from_link_collections nodes config now
                      parsed_filter_rules parsed_exclude_filter_rules) ;;
         Ok (if (List.length entries <? List.length container_entries)%nat
             then container_entries else entries)
       else Ok entries) ;;
    if negb (nonempty entries)
    then Raise (ValueError "Matched nodes did not contain usable titles and links.")
    else Ok (slice_to (max_items config)
               (apply_entry_filters entries parsed_filter_rules parsed_exclude_filter_rules)).

(** The candidate the primary pass builds for an item node. *)
Definition item_candidate (config : FeedRequest) (now : Z) (node : Node)
  : result (option FeedEntry) :=
  build_entry_from_nodes node
    (select_node_with_scope node (title_selector config))
    (select_node_with_scope node (link_selector config))
    None config now.

(** The candidate the link-expansion pass builds for a link of an item node. *)
Definition link_candidate (config : FeedRequest) (now : Z) (pair : Node * Node)
  : result (option FeedEntry) :=
  let '(node, link_node) := pair in
  let title_node := resolve_repeated_link_title_node link_node config in
  build_entry_from_nodes node (Some title_node) (Some link_node)
    (extract_repeated_link_title_text node link_node title_node config) config now.

(** The href resolves, against the source URL, to a URL whose scheme is not
    http or https or whose host is not the source's. *)
Definition resolves_off_site (source_url' href : string) : bool :=
  let joined := urljoin source_url' href in
  negb (is_http_scheme (url_scheme joined))
  || negb (String.eqb (url_netloc joined) (url_netloc source_url')).

(** Some item node holds more than one node matching the link selector. *)
Definition has_grouped_links (nodes : list Node) (config : FeedRequest) : Prop :=
  exists node,
    In node nodes
    /\ (1 < List.length (select_nodes_with_scope node (link_selector config)))%nat.

End ExtractionVocabulary.

(** The link of an entry is among those already taken. *)
Definition seen (seen_links : list string) (entry : FeedEntry) : bool :=
  existsb (String.eqb (link entry)) seen_links.

(** A pass got through a stretch of candidates when it did not stop at the
    cap there. *)
Definition not_stopped (config : FeedRequest) (r : result (list FeedEntry)) : Prop :=
  match r with
  | Ok entries => reached_max entries config = false
  | Raise _ => True
  end.

(** The event that opens the link-expansion pass. *)
Definition fallback_started : event :=
  Progress "Expanding repeated links"
    "Detected grouped links inside a container. Expanding them.".

(** ** Store *)

(** The base of the due time as the specification words it: the later of
    the non-empty values among [last_refreshed_at] and [refresh_anchor_at],
    else [created_at]. *)
Definition due_base (profile : StoredProfile) : option Z :=
  match Profile.last_refreshed_at profile, Profile.refresh_anchor_at profile with
  | Some r, Some a => Some (Z.max r a)
  | Some r, None => Some r
  | None, Some a => Some a
  | None, None => Profile.created_at profile
  end.

(** The rows of a database carry ids below the next id to hand out. *)
Definition ids_below_next (db : Database) : Prop :=
  Forall (fun row => (Profile.id row < next_profile_id db)%Z) (profiles db).

(** The fields no edit and no status change writes. *)
Definition same_identity (before after : StoredProfile) : Prop :=
  Profile.id after = Profile.id before
  /\ Profile.feed_token after = Profile.feed_token before
  /\ Profile.created_at after = Profile.created_at before
  /\ Profile.item_count after = Profile.item_count before.

(** ** Store constraints *)

(** The key of [UNIQUE(profile_id, link)]. *)
Definition item_key (r : FeedItemRow) : Z * string := (profile_id r, item_link r).

(** The constraints of the schema: the two primary keys are unique and
    below their AUTOINCREMENT counters, [(profile_id, link)] is unique among
    the feed items, and every feed item refers to a stored profile. *)
Record consistent (db : Database) : Prop := {
  profile_ids_unique : NoDup (map Profile.id (profiles db));
  profile_ids_issued : ids_below_next db;
  item_ids_unique : NoDup (map item_id (feed_items db));
  item_ids_issued : Forall (fun r => (item_id r < next_item_id db)%Z) (feed_items db);
  item_keys_unique : NoDup (map item_key (feed_items db));
  items_owned :
    Forall (fun r => In (profile_id r) (map Profile.id (profiles db))) (feed_items db)
}.

(** The rows a run of inserts makes of some entries, numbered from [next]. *)
Fixpoint rows_of_entries (profile_id' next : Z) (entries : list FeedEntry)
  : list FeedItemRow :=
  match entries with
  | [] => []
  | e :: es =>
      {| item_id := next; profile_id := profile_id';
         item_title := title e; item_link := link e;
         item_summary := summary e; discovered_at := published_at e |}
      :: rows_of_entries profile_id' (next + 1) es
  end.

(** ** Entries of an extraction *)

Section EntryVocabulary.

Context {Node : Type} {dom : Dom Node} {urls : UrlLib}.

(** An entry as the extractor builds them for a source: titled, stamped
    with the clock reading, and linked to an http or https URL on the
    source's host. *)
Definition usable_entry (config : FeedRequest) (now : Z) (e : FeedEntry) : Prop :=
  truthy (title e) = true
  /\ published_at e = now
  /\ is_http_scheme (url_scheme (link e)) = true
  /\ url_netloc (link e) = url_netloc (source_url config).

(** The candidates of the item nodes that pass the rules, in the order of
    the nodes. *)
Definition accepted_candidates (config : FeedRequest) (now : Z)
    (parsed_filter_rules parsed_exclude_filter_rules : list Filter.tree)
    (nodes : list Node) : list FeedEntry :=
  flat_map (fun node =>
              match item_candidate config now node with
              | Ok (Some entry) =>
                  if entry_passes_filters parsed_filter_rules
                       parsed_exclude_filter_rules entry
                  then [entry] else []
              | _ => []
              end) nodes.

End EntryVocabulary.

(** ** Page requests *)

(** An event that is no page request. *)
Definition no_fetch (ev : event) : Prop := is_fetch ev = false.


(** ** Rule text *)

(** The text does not end in white space. *)
Definition ends_solid (s : string) : Prop :=
  forall c, last_char s = Some c -> isspace c = false.

(** [rest] is what is left of [s] after some first part. *)
Definition suffix_of (rest s : string) : Prop := exists pre, s = pre ++ rest.

(** The text holds a line boundary of [str.splitlines]. *)
Fixpoint has_linebreak (s : string) : bool :=
  match s with
  | EmptyString => false
  | String c r => is_linebreak c || has_linebreak r
  end.

(** A rule line as the store keeps it: not empty, on one line, stripped. *)
Definition rule_line (l : string) : Prop :=
  l <> EmptyString /\ has_linebreak l = false /\ strip l = l.





(** ** Request values *)

(** The values a request is submitted with again: every field under its
    key, the two numbers as decimal text. *)
Definition values_of (config : FeedRequest) : list (string * string) :=
  [("feed_title", feed_title config);
   ("source_url", source_url config);
   ("item_selector", item_selector config);
   ("title_selector", title_selector config);
   ("link_selector", link_selector config);
   ("summary_selector", summary_selector config);
   ("filter_rules", filter_rules config);
   ("exclude_filter_rules", exclude_filter_rules config);
   ("max_items", str_of_int (max_items config));
   ("refresh_interval_minutes", str_of_int (refresh_interval_minutes config));
   ("fetch_mode", fetch_mode config)].

Section RequestVocabulary.

Context {urls : UrlLib}.

(** What [parse_request_values] makes sure of. *)
Definition validated (config : FeedRequest) : Prop :=
  (is_http_scheme (url_scheme (source_url config)) = true
   /\ url_netloc (source_url config) <> EmptyString
   /\ strip (source_url config) = source_url config)
  /\ (fetch_mode config = "http" \/ fetch_mode config = "browser")
  /\ Forall (fun text => text <> EmptyString /\ strip text = text)
       [feed_title config; item_selector config; title_selector config;
        link_selector config]
  /\ strip (summary_selector config) = summary_selector config
  /\ normalize_filter_rules (filter_rules config) = filter_rules config
  /\ normalize_filter_rules (exclude_filter_rules config) = exclude_filter_rules config
  /\ (1 <= max_items config <= 100)%Z
  /\ (0 <= refresh_interval_minutes config <= 1440)%Z.

End RequestVocabulary.

(** ** Clone titles *)

(** The casefolded candidate [base_title n]. *)
Definition candidate_key (base_title : string) (n : Z) : string :=
  casefold (base_title ++ " " ++ str_of_int n).

(** The text holds digits only. *)
Fixpoint only_digits (s : string) : bool :=
  match s with
  | EmptyString => true
  | String c r => isdigit c && only_digits r
  end.

(** ** The link-expansion pass *)

(** The entries whose link is not among [seen_links] nor the link of an
    entry before them. *)
Fixpoint distinct_links (seen_links : list string) (entries : list FeedEntry)
  : list FeedEntry :=
  match entries with
  | [] => []
  | entry :: rest =>
      if seen seen_links entry then distinct_links seen_links rest
      else entry :: distinct_links (link entry :: seen_links) rest
  end.

Section LinkVocabulary.

Context {Node : Type} {dom : Dom Node} {urls : UrlLib}.

(** The candidates of the links that pass the rules, in the order of the
    links. *)
Definition accepted_link_candidates (config : FeedRequest) (now : Z)
    (parsed_filter_rules parsed_exclude_filter_rules : list Filter.tree)
    (pairs : list (Node * Node)) : list FeedEntry :=
  flat_map (fun pair =>
              match link_candidate config now pair with
              | Ok (Some entry) =>
                  if entry_passes_filters parsed_filter_rules
                       parsed_exclude_filter_rules entry
                  then [entry] else []
              | _ => []
              end) pairs.

End LinkVocabulary.

(** ** Upserted rows *)

(** The row is kept under the profile and the link of the entry, the key
    of [ON CONFLICT(profile_id, link)]. *)
Definition has_key (profile_id' : Z) (entry : FeedEntry) (r : FeedItemRow) : bool :=
  (profile_id r =? profile_id')%Z && String.eqb (item_link r) (link entry).

(** What the upsert of an entry does to one stored row. *)
Definition upsert_row (profile_id' : Z) (entry : FeedEntry) (r : FeedItemRow)
  : FeedItemRow :=
  if has_key profile_id' entry r
  then {| item_id := item_id r; profile_id := profile_id r;
          item_title := title entry; item_link := item_link r;
          item_summary := summary entry; discovered_at := discovered_at r |}
  else r.


(** A stored row after the upserts of [entries], one after the other. *)
Definition rewritten (profile_id' : Z) (entries : list FeedEntry) (r : FeedItemRow)
  : FeedItemRow :=
  fold_left (fun r e => upsert_row profile_id' e r) entries r.

(** * Properties *)

(** ** Strings *)

Lemma startswith_app (p r : string) : startswith p (p ++ r) = true.
Proof.
  induction p as [|c p IH]; simpl.
  - reflexivity.
  - now rewrite Ascii.eqb_refl, IH.
Qed.

Lemma startswith_inv (p s : string) :
  startswith p s = true -> exists r, s = p ++ r.
Proof.
  revert s; induction p as [|c p IH]; intros s H.
  - now exists s.
  - destruct s as [|d s]; [discriminate|].
    simpl in H. apply andb_true_iff in H as [Hc Hs].
    apply Ascii.eqb_eq in Hc; subst d.
    destruct (IH _ Hs) as [r ->]. now exists r.
Qed.

Lemma contains_unfold (needle hay : string) :
  contains needle hay =
  startswith needle hay ||
  match hay with EmptyString => false | String _ r => contains needle r end.
Proof. destruct hay; reflexivity. Qed.

(** [needle in hay] holds exactly when [hay] is [l + needle + r]. *)
Lemma contains_iff (needle hay : string) :
  contains needle hay = true <-> exists l r, hay = l ++ needle ++ r.
Proof.
  split.
  - induction hay as [|c hay IH]; rewrite contains_unfold; intros H;
      apply orb_true_iff in H as [H|H].
    + apply startswith_inv in H as [r ->]. now exists EmptyString, r.
    + discriminate.
    + apply startswith_inv in H as [r ->]. now exists EmptyString, r.
    + destruct (IH H) as (l & r & ->). now exists (String c l), r.
  - intros (l & r & ->). induction l as [|c l IH]; rewrite contains_unfold.
    + simpl. now rewrite startswith_app.
    + simpl. rewrite IH. apply orb_true_r.
Qed.

Lemma has_char_In (c : ascii) (s : string) :
  has_char c s = true <-> In c (list_ascii_of_string s).
Proof.
  induction s as [|a s IH]; simpl.
  - split; [discriminate | tauto].
  - rewrite orb_true_iff, IH, Ascii.eqb_eq. tauto.
Qed.

Lemma last_char_app (s : string) (c : ascii) :
  last_char (s ++ String c EmptyString) = Some c.
Proof.
  induction s as [|a s IH]; [reflexivity|].
  simpl. rewrite IH. now destruct (s ++ String c EmptyString).
Qed.

(** ** Globs *)

Lemma glob_item_eq_star (it : glob_item) : it = GStar \/ it <> GStar.
Proof. destruct it; [now left | right; discriminate ..]. Qed.

Lemma glob_match_star (rest : list glob_item) (s : string) :
  glob_match (GStar :: rest) s =
  glob_match rest s ||
  match s with
  | EmptyString => false
  | String _ s' => glob_match (GStar :: rest) s'
  end.
Proof. destruct s; reflexivity. Qed.

Lemma glob_match_one (it : glob_item) (rest : list glob_item) (s : string) :
  it <> GStar ->
  glob_match (it :: rest) s =
  match s with
  | EmptyString => false
  | String c s' => item_matches it c && glob_match rest s'
  end.
Proof. destruct it; intros H; try reflexivity. now contradiction H. Qed.

Lemma glob_match_iff (items : list glob_item) (s : string) :
  glob_match items s = true <-> GlobMatches items s.
Proof.
  revert s; induction items as [|it rest IH]; intros s.
  - simpl. split.
    + destruct s; [constructor | discriminate].
    + inversion 1. reflexivity.
  - destruct (glob_item_eq_star it) as [->|Hne].
    + split.
      * induction s as [|c s IHs]; rewrite glob_match_star; intros H;
          apply orb_true_iff in H as [H|H]; try discriminate.
        -- apply (GM_star rest EmptyString). now apply IH.
        -- apply (GM_star rest EmptyString). now apply IH.
        -- specialize (IHs H).
           inversion IHs as [|rest' sk s' Hm|it' rest' c' s' Hne]; subst.
           ++ apply (GM_star rest (String c sk)). exact Hm.
           ++ now contradiction Hne.
      * intros H. inversion H as [|rest' sk s' Hm|it' rest' c' s' Hne]; subst.
        -- clear H. induction sk as [|c sk IHsk]; cbn [append];
             rewrite glob_match_star.
           ++ apply IH in Hm. now rewrite Hm.
           ++ rewrite IHsk. apply orb_true_r.
        -- now contradiction Hne.
    + rewrite (glob_match_one it rest s Hne). split.
      * destruct s as [|c s]; [discriminate|]. intros H.
        apply andb_true_iff in H as [Hc Hs]. apply GM_one; auto. now apply IH.
      * intros H. inversion H as [|rest' sk s' Hm|it' rest' c s' _ Hc Hm]; subst.
        -- now contradiction Hne.
        -- rewrite Hc. simpl. now apply IH.
Qed.

(** [translate] reads the whole pattern: its fuel, the length of the
    pattern, is never used up. *)
Lemma class_text_length (first : bool) (s stuff rest : string) :
  class_text first s = Some (stuff, rest) -> String.length rest < String.length s.
Proof.
  revert first stuff; induction s as [|c s IH]; intros first stuff; simpl; [discriminate|].
  destruct (Ascii.eqb c "]" && negb first).
  - intros [= _ <-]. lia.
  - destruct (class_text false s) as [[st r]|] eqn:E; [|discriminate].
    intros [= _ <-]. specialize (IH _ _ E). lia.
Qed.

Lemma class_body_length (s : string) (negated : bool) (stuff rest : string) :
  class_body s = Some (negated, stuff, rest) -> String.length rest < String.length s.
Proof.
  unfold class_body.
  assert (H : forall t, match class_text true t with
                        | Some (st, r) => String.length r < String.length t
                        | None => True
                        end).
  { intros t. destruct (class_text true t) as [[st r]|] eqn:E; [|exact I].
    eapply class_text_length, E. }
  destruct s as [|c s].
  - simpl. discriminate.
  - destruct (Ascii.eqb c "!") eqn:Ec.
    + apply Ascii.eqb_eq in Ec. subst c. specialize (H s).
      destruct (class_text true s) as [[st r]|]; [|discriminate].
      intros [= _ _ <-]. simpl. lia.
    + specialize (H (String c s)).
      assert (Hsame : match String c s with
                      | String "!" r =>
                          match class_text true r with
                          | Some (stuff0, rest0) => Some (true, stuff0, rest0)
                          | None => None
                          end
                      | _ =>
                          match class_text true (String c s) with
                          | Some (stuff0, rest0) => Some (false, stuff0, rest0)
                          | None => None
                          end
                      end
                      = match class_text true (String c s) with
                        | Some (stuff0, rest0) => Some (false, stuff0, rest0)
                        | None => None
                        end).
      { destruct c as [[] [] [] [] [] [] [] []]; try reflexivity. discriminate Ec. }
      rewrite Hsame.
      destruct (class_text true (String c s)) as [[st r]|]; [|discriminate].
      intros [= _ _ <-]. exact H.
Qed.

Lemma translate_fuel (fuel fuel' : nat) (pat : string) :
  String.length pat <= fuel -> String.length pat <= fuel' ->
  translate fuel pat = translate fuel' pat.
Proof.
  revert fuel' pat; induction fuel as [|fuel IH]; intros fuel' pat H H'.
  - destruct pat; [|simpl in H; lia]. now destruct fuel'.
  - destruct pat as [|c r]; [now destruct fuel'|].
    destruct fuel' as [|fuel']; [simpl in H'; lia|].
    simpl in H, H'. cbn [translate].
    destruct (Ascii.eqb c "*"); [f_equal; apply IH; lia|].
    destruct (Ascii.eqb c "?"); [f_equal; apply IH; lia|].
    destruct (Ascii.eqb c "["); [|f_equal; apply IH; lia].
    destruct (class_body r) as [[[negated stuff] rest]|] eqn:E.
    + apply class_body_length in E. f_equal. apply IH; lia.
    + f_equal. apply IH; lia.
Qed.

(** ** Term evaluation *)

Lemma append_empty_r (s : string) : s ++ EmptyString = s.
Proof. induction s as [|c s IH]; simpl; [reflexivity | now rewrite IH]. Qed.

Lemma append_assoc (a b c : string) : (a ++ b) ++ c = a ++ b ++ c.
Proof. induction a as [|x a IH]; simpl; [reflexivity | now rewrite IH]. Qed.

Lemma last_char_cons (c : ascii) (s : string) :
  s <> EmptyString -> last_char (String c s) = last_char s.
Proof. destruct s; [congruence | reflexivity]. Qed.

Lemma endswith_char_cons (c x : ascii) (s : string) :
  s <> EmptyString -> endswith_char x (String c s) = endswith_char x s.
Proof. intros H. unfold endswith_char. now rewrite last_char_cons. Qed.

Lemma has_wildcard_nonempty (term : string) :
  has_wildcard term = true -> term <> EmptyString.
Proof. intros H ->. discriminate. Qed.

Lemma entry_matches_filter_term_glob (entry : FeedEntry) (term : string) :
  has_wildcard (casefold term) = true ->
  entry_matches_filter_term entry term =
  fnmatchcase (casefold (title entry)) (padded (casefold term)).
Proof.
  intros H. unfold entry_matches_filter_term.
  fold (has_wildcard (casefold term)). rewrite H. f_equal.
  unfold padded. pose proof (has_wildcard_nonempty _ H) as Hne.
  destruct (startswith STAR (casefold term)); cbn [negb].
  - destruct (endswith_char "*" (casefold term)); cbn [negb append].
    + now rewrite append_empty_r.
    + reflexivity.
  - change (STAR ++ casefold term) with (String "*" (casefold term)).
    rewrite (endswith_char_cons _ _ _ Hne).
    destruct (endswith_char "*" (casefold term)); cbn [negb].
    + now rewrite append_empty_r.
    + reflexivity.
Qed.

Lemma padded_starts_and_ends_with_star (pattern : string) :
  startswith STAR (padded pattern) = true /\ endswith_char "*" (padded pattern) = true.
Proof.
  unfold padded. split.
  - destruct (startswith STAR pattern) eqn:E; cbn [append].
    + apply startswith_inv in E as [r ->]. apply (startswith_app STAR).
    + reflexivity.
  - unfold endswith_char.
    destruct (last_char pattern) as [c|] eqn:E.
    + destruct (Ascii.eqb c "*") eqn:Ec.
      * rewrite append_empty_r.
        destruct (startswith STAR pattern); cbn [append].
        -- now rewrite E, Ec.
        -- change (STAR ++ pattern) with (String "*" pattern).
           rewrite last_char_cons by (intros ->; discriminate). now rewrite E, Ec.
      * rewrite <- append_assoc. unfold STAR at 3. now rewrite last_char_app.
    + rewrite <- append_assoc. unfold STAR at 3. now rewrite last_char_app.
Qed.

(** C8.  [entry_matches_filter_term] compares the case-folded term with the
    case-folded title.  A term with [*] or [?] is a glob: it is padded with
    [*] in front and behind where it does not already start or end with one,
    and the term matches exactly when the whole title matches that glob.  Any
    other term matches exactly when it occurs in the title.  Only the
    case-folded texts matter.  The rule [premium] matches the title
    "Product Alpha Premium Edition", and [build-2?*] matches
    "Toolkit build-21 candidate". *)
Theorem entry_matches_filter_term_spec (entry : FeedEntry) (term : string) :
  let folded_title := casefold (title entry) in
  let folded_term := casefold term in
  (if has_wildcard folded_term then
     let pattern := padded folded_term in
     startswith STAR pattern = true /\ endswith_char "*" pattern = true /\
     (entry_matches_filter_term entry term = true <->
      GlobMatches (translate (String.length pattern) pattern) folded_title)
   else
     entry_matches_filter_term entry term = true <->
     exists l r, folded_title = l ++ folded_term ++ r)
  /\ (forall entry' term',
        casefold (title entry') = folded_title -> casefold term' = folded_term ->
        entry_matches_filter_term entry' term' = entry_matches_filter_term entry term)
  /\ (forall e, title e = "Product Alpha Premium Edition" ->
        entry_matches_filter_term e "premium" = true)
  /\ (forall e, title e = "Toolkit build-21 candidate" ->
        entry_matches_filter_term e "build-2?*" = true).
Proof.
  cbv zeta. repeat split.
  - destruct (has_wildcard (casefold term)) eqn:H.
    + destruct (padded_starts_and_ends_with_star (casefold term)) as [Hs He].
      repeat split; auto.
      * rewrite (entry_matches_filter_term_glob _ _ H). apply glob_match_iff.
      * rewrite (entry_matches_filter_term_glob _ _ H). apply glob_match_iff.
    + unfold entry_matches_filter_term. fold (has_wildcard (casefold term)).
      rewrite H. apply contains_iff.
  - intros entry' term' Ht Hn. unfold entry_matches_filter_term.
    now rewrite Ht, Hn.
  - intros e He. unfold entry_matches_filter_term. rewrite He. reflexivity.
  - intros e He. unfold entry_matches_filter_term. rewrite He. reflexivity.
Qed.

(** ** The rule parser runs to its end

    Neither the tokenizer nor the parser runs out of fuel: whatever
    [parse_filter_expression] raises is a [ValueError] of the source. *)

Lemma skip_spaces_length (prev : option ascii) (s : string) :
  String.length (snd (skip_spaces prev s)) <= String.length s.
Proof.
  revert prev; induction s as [|c s IH]; intros prev; simpl; [lia|].
  destruct (isspace c); simpl; [specialize (IH (Some c)); lia | lia].
Qed.

Lemma skip_spaces_head (prev p : option ascii) (s r : string) (c : ascii) :
  skip_spaces prev s = (p, String c r) -> isspace c = false.
Proof.
  revert prev; induction s as [|d s IH]; intros prev; simpl; [discriminate|].
  destruct (isspace d) eqn:E.
  - apply IH.
  - intros [= _ -> _]. exact E.
Qed.

Lemma until_quote_length (q : ascii) (s body rest : string) :
  until_quote q s = Some (body, rest) -> String.length rest < String.length s.
Proof.
  revert body; induction s as [|c s IH]; intros body; simpl; [discriminate|].
  destruct (Ascii.eqb c q).
  - intros [= _ <-]. lia.
  - destruct (until_quote q s) as [[b r]|]; [|discriminate].
    intros [= _ <-]. specialize (IH b eq_refl). lia.
Qed.

Lemma match_keyword_length (prev : option ascii) (s : string)
    (ty : token_type) (text : string) (l : ascii) (rest : string) :
  match_keyword prev s = Some (ty, text, l, rest) ->
  String.length rest < String.length s.
Proof.
  unfold match_keyword.
  destruct s as [|a [|n [|d r]]]; try discriminate.
  - destruct (_ && _); [|discriminate]. intros [= _ _ _ <-]. simpl. lia.
  - destruct (_ && _).
    + intros [= _ _ _ <-]. simpl. lia.
    + destruct (_ && _); [|discriminate]. intros [= _ _ _ <-]. simpl. lia.
Qed.

Lemma bare_run_length (last : ascii) (s : string) :
  String.length (snd (bare_run last s)) <= String.length s.
Proof.
  revert last; induction s as [|c s IH]; intros last; simpl; [lia|].
  destruct (is_paren c || isspace c); simpl; [lia|].
  specialize (IH c). destruct (bare_run c s) as [[run l] rest]. simpl in *. lia.
Qed.

Lemma match_token_shorter (prev prev' : option ascii) (s rest : string) (tok : token) :
  match_token prev s = Some (tok, prev', rest) ->
  String.length rest < String.length s.
Proof.
  unfold match_token.
  pose proof (skip_spaces_length prev s) as Hlen.
  destruct (skip_spaces prev s) as [prev1 s1] eqn:Hskip. simpl in Hlen.
  destruct s1 as [|c r]; [discriminate|].
  pose proof (skip_spaces_head _ _ _ _ _ Hskip) as Hspace.
  simpl in Hlen.
  destruct (Ascii.eqb c "(") eqn:Hl; [intros [= _ _ <-]; lia|].
  destruct (Ascii.eqb c ")") eqn:Hr; [intros [= _ _ <-]; lia|].
  destruct (if Ascii.eqb c QUOTE2 || Ascii.eqb c QUOTE1 then until_quote c r else None)
    as [[body rest']|] eqn:Hq.
  - intros [= _ _ <-].
    destruct (Ascii.eqb c QUOTE2 || Ascii.eqb c QUOTE1); [|discriminate].
    apply until_quote_length in Hq. lia.
  - destruct (match_keyword prev1 (String c r)) as [[[[ty text] l] rest']|] eqn:Hk.
    + intros [= _ _ <-]. apply match_keyword_length in Hk. simpl in Hk. lia.
    + simpl. unfold is_paren. rewrite Hl, Hr, Hspace. simpl.
      pose proof (bare_run_length c r) as Hb.
      destruct (bare_run c r) as [[run l] rest']. simpl in Hb.
      intros [= _ _ <-]. lia.
Qed.

Lemma tokenize_loop_raises_ValueError (fuel : nat) (prev : option ascii) (s : string) (e : exn) :
  String.length s <= fuel ->
  tokenize_loop fuel prev s = Raise e -> is_ValueError e = true.
Proof.
  revert prev s; induction fuel as [|fuel IH]; intros prev s Hlen.
  - destruct s; simpl in *; [discriminate | lia].
  - destruct s as [|c r]; [discriminate|].
    cbn [tokenize_loop].
    destruct (match_token prev (String c r)) as [[[tok prev'] rest]|] eqn:Hm.
    + apply match_token_shorter in Hm.
      destruct (tokenize_loop fuel prev' rest) as [toks|e'] eqn:Ht; simpl.
      * discriminate.
      * intros [= <-]. apply (IH prev' rest); [simpl in *; lia | exact Ht].
    + intros [= <-]. reflexivity.
Qed.

Lemma consume_within (ty : token_type) (tokens : list Filter.token) :
  match consume (Some ty) tokens with
  | Ok (_, rest) => S (List.length rest) = List.length tokens
  | Raise e => is_ValueError e = true
  end.
Proof.
  destruct tokens as [|tok rest]; simpl; [reflexivity|].
  destruct (token_type_eqb (fst tok) ty); simpl; reflexivity.
Qed.

Lemma current_is_cons (ty : token_type) (tokens : list Filter.token) :
  current_is ty tokens = true ->
  exists tok rest, tokens = tok :: rest /\ consume (Some ty) tokens = Ok (tok, rest).
Proof.
  destruct tokens as [|tok rest]; simpl; [discriminate|].
  intros H. exists tok, rest. now rewrite H.
Qed.

Lemma parser_adequate (fuel : nat) :
  (forall tokens, 3 * List.length tokens + 1 <= fuel ->
     parses_within (List.length tokens) (parse_primary fuel tokens)) /\
  (forall tokens, 3 * List.length tokens + 2 <= fuel ->
     parses_within (List.length tokens) (parse_and_expression fuel tokens)) /\
  (forall tokens, 3 * List.length tokens + 3 <= fuel ->
     parses_within (List.length tokens) (parse_or_expression fuel tokens)) /\
  (forall node tokens, 3 * List.length tokens <= fuel ->
     parses_within (S (List.length tokens)) (and_loop fuel node tokens)) /\
  (forall node tokens, 3 * List.length tokens <= fuel ->
     parses_within (S (List.length tokens)) (or_loop fuel node tokens)).
Proof.
  induction fuel as [|f (IHp & IHa & IHo & IHal & IHol)].
  - repeat split; intros; try lia.
    + destruct tokens; simpl in *; [lia | lia].
    + destruct tokens; simpl in *; [lia | lia].
  - assert (Hp : forall tokens, 3 * List.length tokens + 1 <= S f ->
                 parses_within (List.length tokens) (parse_primary (S f) tokens)).
    { intros tokens Hf. cbn [parse_primary].
      destruct tokens as [|[ty text] rest]; [reflexivity|].
      destruct ty; try reflexivity.
      - cbn [consume fst token_type_eqb bind]. simpl in Hf.
        specialize (IHo rest ltac:(lia)).
        destruct (parse_or_expression f rest) as [[node rest']|e]; simpl in *; [|exact IHo].
        pose proof (consume_within T_RPAREN rest') as Hc.
        destruct (consume (Some T_RPAREN) rest') as [[tok rest'']|e]; simpl; [lia | exact Hc].
      - cbn [consume fst token_type_eqb bind snd]. simpl. lia. }
    assert (Hal : forall node tokens, 3 * List.length tokens <= S f ->
                  parses_within (S (List.length tokens)) (and_loop (S f) node tokens)).
    { intros node tokens Hf. cbn [and_loop].
      destruct (current_is T_AND tokens) eqn:Hcur; [|simpl; lia].
      destruct (current_is_cons _ _ Hcur) as (tok & rest & -> & ->).
      cbn [bind]. simpl in Hf.
      specialize (IHp rest ltac:(lia)).
      destruct (parse_primary f rest) as [[rhs rest']|e]; simpl in *; [|exact IHp].
      specialize (IHal (AND node rhs) rest' ltac:(lia)).
      destruct (and_loop f (AND node rhs) rest') as [[n r]|e]; simpl in *; [lia | exact IHal]. }
    assert (Ha : forall tokens, 3 * List.length tokens + 2 <= S f ->
                 parses_within (List.length tokens) (parse_and_expression (S f) tokens)).
    { intros tokens Hf. cbn [parse_and_expression].
      specialize (IHp tokens ltac:(lia)).
      destruct (parse_primary f tokens) as [[node rest]|e]; simpl in *; [|exact IHp].
      specialize (IHal node rest ltac:(lia)).
      destruct (and_loop f node rest) as [[n r]|e]; simpl in *; [lia | exact IHal]. }
    assert (Hol : forall node tokens, 3 * List.length tokens <= S f ->
                  parses_within (S (List.length tokens)) (or_loop (S f) node tokens)).
    { intros node tokens Hf. cbn [or_loop].
      destruct (current_is T_OR tokens) eqn:Hcur; [|simpl; lia].
      destruct (current_is_cons _ _ Hcur) as (tok & rest & -> & ->).
      cbn [bind]. simpl in Hf.
      specialize (IHa rest ltac:(lia)).
      destruct (parse_and_expression f rest) as [[rhs rest']|e]; simpl in *; [|exact IHa].
      specialize (IHol (OR node rhs) rest' ltac:(lia)).
      destruct (or_loop f (OR node rhs) rest') as [[n r]|e]; simpl in *; [lia | exact IHol]. }
    assert (Ho : forall tokens, 3 * List.length tokens + 3 <= S f ->
                 parses_within (List.length tokens) (parse_or_expression (S f) tokens)).
    { intros tokens Hf. cbn [parse_or_expression].
      specialize (IHa tokens ltac:(lia)).
      destruct (parse_and_expression f tokens) as [[node rest]|e]; simpl in *; [|exact IHa].
      specialize (IHol node rest ltac:(lia)).
      destruct (or_loop f node rest) as [[n r]|e]; simpl in *; [lia | exact IHol]. }
    repeat split; assumption.
Qed.

(** Every failure of [parse_filter_expression] is a [ValueError]. *)
Lemma parse_filter_expression_raises_ValueError (expression : string) (e : exn) :
  parse_filter_expression expression = Raise e -> is_ValueError e = true.
Proof.
  unfold parse_filter_expression.
  destruct (is_empty (strip expression)); [now intros [= <-]|].
  destruct (negb (has_operator (strip expression))); [discriminate|].
  destruct (tokenize_filter_expression (strip expression)) as [tokens|e'] eqn:Ht; simpl.
  - destruct (parser_adequate (parser_fuel tokens)) as (_ & _ & Ho & _).
    specialize (Ho tokens ltac:(unfold parser_fuel; lia)).
    destruct (parse_or_expression (parser_fuel tokens) tokens) as [[node rest]|e'']; simpl in *.
    + destruct rest; [discriminate | now intros [= <-]].
    + now intros [= <-].
  - intros [= <-]. unfold tokenize_filter_expression in Ht.
    apply (tokenize_loop_raises_ValueError _ _ _ _ (le_n _) Ht).
Qed.

Lemma map_result_raises {A B : Type} (f : A -> result B) (xs : list A) (e : exn) :
  map_result f xs = Raise e -> exists x, In x xs /\ f x = Raise e.
Proof.
  induction xs as [|x xs IH]; simpl; [discriminate|].
  destruct (f x) as [y|e'] eqn:Hx; simpl.
  - destruct (map_result f xs) as [ys|e'']; simpl; [discriminate|].
    intros [= <-]. destruct (IH eq_refl) as (x' & Hin & Hf). eauto.
  - intros [= <-]. eauto.
Qed.

Lemma map_result_ok {A B : Type} (f : A -> result B) (xs : list A) :
  is_ok (map_result f xs) = forallb (fun x => is_ok (f x)) xs.
Proof.
  induction xs as [|x xs IH]; simpl; [reflexivity|].
  destruct (f x); simpl; [|reflexivity].
  rewrite <- IH. now destruct (map_result f xs).
Qed.

Lemma parse_filter_rules_raises_ValueError (rules : string) (e : exn) :
  parse_filter_rules rules = Raise e -> is_ValueError e = true.
Proof.
  intros H. apply map_result_raises in H as (line & _ & H).
  now apply parse_filter_expression_raises_ValueError in H.
Qed.

(** The malformed rules the specification names: an unbalanced
    parenthesis, an empty group or a missing operand, and tokens left over. *)
Example malformed_rules :
  parse_filter_expression "(alpha OR premium"
  = Raise (ValueError "Incomplete filter expression.")
  /\ parse_filter_expression "alpha)"
     = Raise (ValueError "Unexpected token in filter expression.")
  /\ parse_filter_expression "()"
     = Raise (ValueError "Expected a filter term or parenthesized group.")
  /\ parse_filter_expression "alpha AND"
     = Raise (ValueError "Incomplete filter expression.")
  /\ parse_filter_expression "(alpha beta)"
     = Raise (ValueError "Expected rparen in filter expression.")
  /\ parse_filter_expression "(alpha) beta"
     = Raise (ValueError "Unexpected token in filter expression.")
  /\ parse_filter_expression "   "
     = Raise (ValueError "Filter expressions cannot be empty.").
Proof. repeat split. Qed.

(** [AND] binds tighter than [OR], and both associate to the left. *)
Example well_formed_rules :
  parse_filter_expression "(alpha OR beta OR gamma) AND premium"
  = Ok (AND (OR (OR (TERM "alpha") (TERM "beta")) (TERM "gamma")) (TERM "premium"))
  /\ parse_filter_expression "a or b and c"
     = Ok (OR (TERM "a") (AND (TERM "b") (TERM "c")))
  /\ parse_filter_expression "release candidate"
     = Ok (TERM "release candidate")
  /\ parse_filter_expression "android oracle"
     = Ok (TERM "android oracle").
Proof. repeat split. Qed.

(** ** Events and outcomes *)

Lemma outcome_bind {A B : Type} (m : io A) (k : A -> io B) :
  outcome (io_bind m k) =
  match outcome m with
  | Ok a => outcome (k a)
  | Raise e => Raise e
  end.
Proof. unfold outcome, io_bind. now destruct (snd m). Qed.

Lemma events_bind {A B : Type} (m : io A) (k : A -> io B) :
  events (io_bind m k) =
  match outcome m with
  | Ok a => (events m ++ events (k a))%list
  | Raise e => events m
  end.
Proof. unfold events, outcome, io_bind. now destruct (snd m). Qed.

Lemma outcome_emit_then {B : Type} (title detail : string) (k : io B) :
  outcome (emit_progress title detail ;;; k) = outcome k.
Proof. reflexivity. Qed.

Lemma events_emit_then {B : Type} (title detail : string) (k : io B) :
  events (emit_progress title detail ;;; k) = Progress title detail :: events k.
Proof. reflexivity. Qed.

Lemma outcome_when_then {B : Type} (b : bool) (m : io unit) (k : io B) :
  outcome m = Ok tt -> outcome (io_when b m ;;; k) = outcome k.
Proof.
  intros H. rewrite outcome_bind. unfold io_when.
  destruct b; [now rewrite H | reflexivity].
Qed.

Lemma outcome_lift_bind {A B : Type} (r : result A) (k : A -> io B) :
  outcome (io_bind (io_lift r) k) =
  match r with
  | Ok a => outcome (k a)
  | Raise e => Raise e
  end.
Proof. now rewrite outcome_bind. Qed.

Section ExtractorTheory.

Context {Node : Type} {dom : Dom Node} {urls : UrlLib} {world : World Node}.

Lemma extract_feed_entries_outcome (config : FeedRequest) (now : Z) :
  outcome (extract_feed_entries config now) =
  html <- fetched config ;;
  outcome_from_nodes (select (BeautifulSoup html) (item_selector config)) config now.
Proof.
  unfold extract_feed_entries, fetched.
  rewrite outcome_emit_then, outcome_bind.
  destruct (outcome (fetch_html (source_url config) (fetch_mode config))) as [html|e];
    [|reflexivity].
  cbn [bind]. rewrite !outcome_emit_then. unfold outcome_from_nodes.
  destruct (negb (nonempty (select (BeautifulSoup html) (item_selector config))));
    [reflexivity|].
  rewrite outcome_emit_then, outcome_lift_bind.
  destruct (parse_filter_rules (filter_rules config)) as [inc|e]; [|reflexivity].
  rewrite outcome_lift_bind. cbn [bind].
  destruct (parse_filter_rules (exclude_filter_rules config)) as [exc|e]; [|reflexivity].
  rewrite outcome_emit_then, outcome_bind. cbn [bind].
  destruct (outcome (extract_entries_from_item_nodes _ config now inc exc))
    as [entries|e]; [|reflexivity].
  rewrite outcome_bind. cbn [bind].
  destruct (should_use_container_link_fallback _ entries config).
  - rewrite outcome_emit_then, outcome_bind.
    destruct (outcome (extract_entries_from_link_collections _ config now inc exc))
      as [container_entries|e]; [|reflexivity].
    cbn [bind outcome io_ret snd].
    destruct (negb (nonempty _)); reflexivity.
  - cbn [bind outcome io_ret snd].
    destruct (negb (nonempty entries)); reflexivity.
Qed.

Lemma fetch_html_events (source_url' fetch_mode' : string) :
  events (fetch_html source_url' fetch_mode') = [FetchPage fetch_mode' source_url'].
Proof.
  unfold fetch_html. rewrite events_bind. reflexivity.
Qed.

(** The page is requested before anything else happens. *)
Lemma extract_feed_entries_fetches_first (config : FeedRequest) (now : Z) :
  exists later,
    events (extract_feed_entries config now) =
    Progress "Accessing website" "Opening the source page."
      :: FetchPage (fetch_mode config) (source_url config) :: later.
Proof.
  unfold extract_feed_entries. rewrite events_emit_then, events_bind.
  rewrite fetch_html_events.
  destruct (outcome (fetch_html (source_url config) (fetch_mode config)));
    cbn [app]; eauto.
Qed.

End ExtractorTheory.

(** ** The repository's extraction tests, run on the model *)

Example text_and_wildcard_filters :
  outcome (Pages.extract (Pages.online Pages.filtered_topics)
             (Pages.with_rules ("premium" ++ String LF "build-2?*") EmptyString) 0)
  = Ok [Pages.entry "Product Alpha Premium Edition" "https://example.com/forums/topic/1" 0;
        Pages.entry "Toolkit build-21 candidate" "https://example.com/forums/topic/2" 0].
Proof. vm_compute. reflexivity. Qed.

Example boolean_filter_expressions :
  outcome (Pages.extract (Pages.online Pages.boolean_topics)
             (Pages.with_rules "(alpha OR beta OR gamma) AND premium" EmptyString) 0)
  = Ok [Pages.entry "Package Alpha Premium" "https://example.com/forums/topic/1" 0;
        Pages.entry "Bundle Gamma Premium" "https://example.com/forums/topic/3" 0].
Proof. vm_compute. reflexivity. Qed.

Example exclude_filters_after_include_filters :
  outcome (Pages.extract (Pages.online Pages.excluded_topics)
             (Pages.with_rules "(alpha OR beta OR gamma) AND premium" "draft OR preview") 0)
  = Ok [Pages.entry "Package Alpha Premium" "https://example.com/forums/topic/1" 0].
Proof. vm_compute. reflexivity. Qed.

Example inline_prefix_text_for_repeated_links :
  outcome (Pages.extract (Pages.online Pages.inline_prefix)
             (Reference.request "p" "a" "a" EmptyString 10) 0)
  = Ok [Pages.entry "Alpha Topic" "https://example.com/forums/topic/alpha" 0;
        Pages.entry "Bundle Release Candidate - [Premium Tier & Stable Build]"
          "https://example.com/forums/topic/beta" 0;
        Pages.entry "Gamma Topic" "https://example.com/forums/topic/gamma" 0].
Proof. vm_compute. reflexivity. Qed.

(** ** Malformed rules *)

Lemma malformed_rule_raises (config : FeedRequest) :
  has_malformed_rule config ->
  exists e,
    is_ValueError e = true /\
    (parsed <- parse_filter_rules (filter_rules config) ;;
     parse_filter_rules (exclude_filter_rules config)) = Raise e.
Proof.
  intros (line & Hin & Hbad).
  assert (Hany : is_ok (parse_filter_rules (filter_rules config))
                 && is_ok (parse_filter_rules (exclude_filter_rules config)) = false).
  { unfold parse_filter_rules. rewrite !map_result_ok.
    apply not_true_is_false. intros H. apply andb_true_iff in H as [H1 H2].
    rewrite forallb_forall in H1, H2.
    destruct Hin as [Hin|Hin]; [apply H1 in Hin | apply H2 in Hin]; congruence. }
  destruct (parse_filter_rules (filter_rules config)) as [inc|e] eqn:Hi.
  - destruct (parse_filter_rules (exclude_filter_rules config)) as [exc|e] eqn:He;
      [discriminate|].
    exists e. split; [|reflexivity].
    now apply parse_filter_rules_raises_ValueError in He.
  - exists e. split; [|reflexivity].
    now apply parse_filter_rules_raises_ValueError in Hi.
Qed.

Section RulesAfterFetch.

Context {Node : Type} {dom : Dom Node} {urls : UrlLib} {world : World Node}.

(** C1, as the code has it.  With a malformed rule line in the include or
    exclude rules, [extract_feed_entries] never returns entries.  The page is
    requested first; when the fetch fails, its failure is what is raised;
    when it succeeds and the item selector matches, the rules are parsed
    next, before any entry is read, and the parser's [ValueError] is raised. *)
Theorem malformed_rules_rejected_after_fetch (config : FeedRequest) (now : Z) :
  has_malformed_rule config ->
  let run := extract_feed_entries config now in
  (exists e, outcome run = Raise e)
  /\ (exists later,
        events run =
        Progress "Accessing website" "Opening the source page."
          :: FetchPage (fetch_mode config) (source_url config) :: later)
  /\ (forall e, fetched config = Raise e -> outcome run = Raise e)
  /\ (forall html,
        fetched config = Ok html ->
        select (BeautifulSoup html) (item_selector config) <> [] ->
        exists e,
          outcome run = Raise e /\ is_ValueError e = true /\
          (parsed <- parse_filter_rules (filter_rules config) ;;
           parse_filter_rules (exclude_filter_rules config)) = Raise e /\
          events run =
          [Progress "Accessing website" "Opening the source page.";
           FetchPage (fetch_mode config) (source_url config);
           Progress "Analyzing document" "Parsing the returned HTML.";
           Progress "Matching selectors" "Locating item nodes from the page.";
           Progress "Matching selectors"
             ("Matched "
              ++ str_of_nat (List.length (select (BeautifulSoup html) (item_selector config)))
              ++ " item nodes.")]).
Proof.
  intros Hbad run.
  destruct (malformed_rule_raises config Hbad) as (e & Hval & Hparse).
  assert (Hfrom : forall nodes, exists e', outcome_from_nodes nodes config now = Raise e').
  { intros nodes. unfold outcome_from_nodes.
    destruct (negb (nonempty nodes)); [eauto|].
    destruct (parse_filter_rules (filter_rules config)) as [inc|e1]; [|simpl; eauto].
    cbn [bind] in *. rewrite Hparse. simpl. eauto. }
  split; [|split; [|split]].
  - subst run. rewrite extract_feed_entries_outcome.
    destruct (fetched config) as [html|e']; simpl; [apply Hfrom | eauto].
  - apply extract_feed_entries_fetches_first.
  - intros e' Hf. subst run. rewrite extract_feed_entries_outcome, Hf. reflexivity.
  - intros html Hf Hnodes. exists e.
    assert (Hne : nonempty (select (BeautifulSoup html) (item_selector config)) = true).
    { destruct (select (BeautifulSoup html) (item_selector config)); [congruence|reflexivity]. }
    split; [|split; [exact Hval|split; [exact Hparse|]]].
    + subst run. rewrite extract_feed_entries_outcome, Hf. cbn [bind].
      unfold outcome_from_nodes. rewrite Hne. cbn [negb].
      destruct (parse_filter_rules (filter_rules config)) as [inc|e1];
        cbn [bind] in *; [now rewrite Hparse | congruence].
    + subst run. unfold extract_feed_entries.
      rewrite events_emit_then, events_bind, fetch_html_events.
      unfold fetched in Hf. rewrite Hf. cbn [app].
      rewrite !events_emit_then, Hne. cbn [negb].
      rewrite events_emit_then, events_bind.
      destruct (parse_filter_rules (filter_rules config)) as [inc|e1];
        cbn [bind] in Hparse.
      * cbn [outcome io_lift snd events fst app].
        rewrite events_bind. rewrite Hparse. reflexivity.
      * reflexivity.
Qed.

End RulesAfterFetch.

(** C1, witness: the unbalanced rule on a page of three topics. *)
Lemma malformed_rules_rejected_after_fetch_witness :
  let config := Reference.request ".topic" "a" "a" "(alpha OR premium" 10 in
  has_malformed_rule config
  /\ exists e, outcome (Pages.extract (Pages.online Pages.three_topics) config 0) = Raise e.
Proof.
  assert (H : has_malformed_rule (Reference.request ".topic" "a" "a" "(alpha OR premium" 10)).
  { exists "(alpha OR premium". split; [left; simpl; auto | reflexivity]. }
  split; [exact H|].
  exact (proj1 (@malformed_rules_rejected_after_fetch _ Reference.ref_dom Reference.ref_urls
                  (Pages.online Pages.three_topics) _ 0 H)).
Defined.

(** C1 fails as stated: with the unbalanced rule [(alpha OR premium] the
    page is fetched before the rule is rejected, and when the fetch itself
    fails the rules are never looked at: over a dead connection the call
    raises the fetch's error, and in browser mode without Playwright it
    raises a [RuntimeError]. *)
Lemma malformed_rule_is_rejected_only_after_the_fetch :
  let config := Reference.request ".topic" "a" "a" "(alpha OR premium" 10 in
  has_malformed_rule config
  /\ ~ rejected_before_fetch (Pages.extract (Pages.online Pages.three_topics) config 0)
  /\ In (FetchPage "http" "https://example.com/forum")
        (events (Pages.extract (Pages.online Pages.three_topics) config 0))
  /\ outcome (Pages.extract (Pages.online Pages.three_topics) config 0)
     = Raise (ValueError "Incomplete filter expression.")
  /\ outcome (Pages.extract (Pages.offline Pages.three_topics) config 0)
     = Raise (ValueError "Upstream connection error: timed out")
  /\ outcome (Pages.extract (Pages.online Pages.three_topics)
                (Pages.in_browser_mode config) 0)
     = Raise (RuntimeError
         "Browser mode requires Playwright. Install the optional browser dependency first.").
Proof.
  cbv zeta. split; [|split; [|split; [|split; [|split]]]].
  - exists "(alpha OR premium". split; [left; simpl; auto | reflexivity].
  - intros [H _]. vm_compute in H. discriminate.
  - vm_compute. tauto.
  - vm_compute. reflexivity.
  - vm_compute. reflexivity.
  - vm_compute. reflexivity.
Qed.

(** ** Item nodes *)

Section ItemNodes.

Context {Node : Type} {dom : Dom Node} {urls : UrlLib} {world : World Node}.


End ItemNodes.



(** ** The two passes, step by step *)

Section Passes.

Context {Node : Type} {dom : Dom Node} {urls : UrlLib} {world : World Node}.

Variables (config : FeedRequest) (now : Z).
Variables (parsed_filter_rules parsed_exclude_filter_rules : list Filter.tree).

Let passes := entry_passes_filters parsed_filter_rules parsed_exclude_filter_rules.

(** The two inline tests of a pass, taken together. *)
Lemma inline_filters (entry : FeedEntry) (A : Type) (skip keep : A) :
  (if nonempty parsed_filter_rules
      && negb (entry_matches_any_filter_rule entry parsed_filter_rules)
   then skip
   else if nonempty parsed_exclude_filter_rules
           && entry_matches_any_filter_rule entry parsed_exclude_filter_rules
   then skip
   else keep)
  = if passes entry then keep else skip.
Proof.
  unfold passes, entry_passes_filters.
  destruct (nonempty parsed_filter_rules),
    (entry_matches_any_filter_rule entry parsed_filter_rules),
    (nonempty parsed_exclude_filter_rules),
    (entry_matches_any_filter_rule entry parsed_exclude_filter_rules); reflexivity.
Qed.

Lemma item_nodes_loop_step (total index : nat) (node : Node) (rest : list Node)
    (entries : list FeedEntry) :
  outcome (item_nodes_loop config now parsed_filter_rules parsed_exclude_filter_rules
             total index (node :: rest) entries) =
  match item_candidate config now node with
  | Raise e => Raise e
  | Ok None =>
      outcome (item_nodes_loop config now parsed_filter_rules
                 parsed_exclude_filter_rules total (S index) rest entries)
  | Ok (Some entry) =>
      if passes entry then
        if reached_max (entries ++ [entry])%list config
        then Ok (entries ++ [entry])%list
        else outcome (item_nodes_loop config now parsed_filter_rules
                        parsed_exclude_filter_rules total (S index) rest
                        (entries ++ [entry])%list)
      else outcome (item_nodes_loop config now parsed_filter_rules
                      parsed_exclude_filter_rules total (S index) rest entries)
  end.
Proof.
  cbn [item_nodes_loop].
  rewrite outcome_when_then by reflexivity.
  rewrite outcome_lift_bind. fold (item_candidate config now node).
  destruct (item_candidate config now node) as [[entry|]|e]; try reflexivity.
  rewrite inline_filters.
  destruct (passes entry); [|reflexivity].
  now destruct (reached_max (entries ++ [entry])%list config).
Qed.

(** The progress counters do not bear on what the primary pass returns. *)
Lemma item_nodes_loop_counters (total index total' index' : nat) (nodes : list Node)
    (entries : list FeedEntry) :
  outcome (item_nodes_loop config now parsed_filter_rules parsed_exclude_filter_rules
             total index nodes entries) =
  outcome (item_nodes_loop config now parsed_filter_rules parsed_exclude_filter_rules
             total' index' nodes entries).
Proof.
  revert index index' entries; induction nodes as [|node rest IH]; intros; [reflexivity|].
  rewrite !item_nodes_loop_step.
  destruct (item_candidate config now node) as [[entry|]|e]; try reflexivity.
  - destruct (passes entry); [|apply IH].
    destruct (reached_max _ config); [reflexivity | apply IH].
  - apply IH.
Qed.

Lemma link_nodes_loop_step (total processed : nat) (pair : Node * Node)
    (rest : list (Node * Node)) (entries : list FeedEntry) (seen_links : list string) :
  outcome (link_nodes_loop config now parsed_filter_rules parsed_exclude_filter_rules
             total processed (pair :: rest) entries seen_links) =
  match link_candidate config now pair with
  | Raise e => Raise e
  | Ok None =>
      outcome (link_nodes_loop config now parsed_filter_rules
                 parsed_exclude_filter_rules total (S processed) rest entries seen_links)
  | Ok (Some entry) =>
      if negb (seen seen_links entry) && passes entry then
        if reached_max (entries ++ [entry])%list config
        then Ok (entries ++ [entry])%list
        else outcome (link_nodes_loop config now parsed_filter_rules
                        parsed_exclude_filter_rules total (S processed) rest
                        (entries ++ [entry])%list (link entry :: seen_links))
      else outcome (link_nodes_loop config now parsed_filter_rules
                      parsed_exclude_filter_rules total (S processed) rest entries seen_links)
  end.
Proof.
  destruct pair as [node link_node]. cbn [link_nodes_loop link_candidate].
  rewrite outcome_lift_bind.
  destruct (build_entry_from_nodes _ _ _ _ _ _) as [[entry|]|e]; try reflexivity.
  unfold seen. destruct (existsb (String.eqb (link entry)) seen_links); [reflexivity|].
  rewrite inline_filters. cbn [negb andb].
  destruct (passes entry); [|reflexivity].
  rewrite outcome_when_then by reflexivity.
  now destruct (reached_max (entries ++ [entry])%list config).
Qed.

Lemma link_nodes_loop_counters (total processed total' processed' : nat)
    (pairs : list (Node * Node)) (entries : list FeedEntry) (seen_links : list string) :
  outcome (link_nodes_loop config now parsed_filter_rules parsed_exclude_filter_rules
             total processed pairs entries seen_links) =
  outcome (link_nodes_loop config now parsed_filter_rules parsed_exclude_filter_rules
             total' processed' pairs entries seen_links).
Proof.
  revert processed processed' entries seen_links;
    induction pairs as [|pair rest IH]; intros; [reflexivity|].
  rewrite !link_nodes_loop_step.
  destruct (link_candidate config now pair) as [[entry|]|e]; try reflexivity.
  - destruct (negb (seen seen_links entry) && passes entry); [|apply IH].
    destruct (reached_max _ config); [reflexivity | apply IH].
  - apply IH.
Qed.

End Passes.

(** ** Links that leave the site *)

Section OffSite.

Context {Node : Type} {dom : Dom Node} {urls : UrlLib} {world : World Node}.

Lemma normalize_topic_link_off_site (source_url' href : string) :
  resolves_off_site source_url' href = true ->
  exists msg, normalize_topic_link source_url' href = Raise (ValueError msg).
Proof.
  unfold resolves_off_site, normalize_topic_link. cbv zeta.
  destruct (negb (is_http_scheme _)); [eauto|].
  destruct (negb (String.eqb _ _)); [eauto | discriminate].
Qed.

Lemma normalize_topic_link_on_site (source_url' href : string) :
  resolves_off_site source_url' href = false ->
  normalize_topic_link source_url' href = Ok (urljoin source_url' href).
Proof.
  unfold resolves_off_site, normalize_topic_link. cbv zeta.
  destruct (negb (is_http_scheme _)); [discriminate|].
  destruct (negb (String.eqb _ _)); [discriminate | reflexivity].
Qed.

Lemma normalize_topic_link_raises_ValueError (source_url' href : string) (e : exn) :
  normalize_topic_link source_url' href = Raise e -> exists msg, e = ValueError msg.
Proof.
  unfold normalize_topic_link. cbv zeta.
  destruct (negb (is_http_scheme _)); [intros [= <-]; eauto|].
  destruct (negb (String.eqb _ _)); [intros [= <-]; eauto | discriminate].
Qed.

(** A candidate with both nodes and an href is resolved before anything
    else is looked at: an href that leaves the site raises, whatever the
    title is. *)
Lemma build_entry_from_nodes_off_site (container title_node link_node : Node)
    (title_text : option string) (config : FeedRequest) (now : Z) (href : string) :
  get_href link_node = Some href -> truthy href = true ->
  resolves_off_site (source_url config) href = true ->
  exists msg,
    build_entry_from_nodes container (Some title_node) (Some link_node) title_text config now
    = Raise (ValueError msg).
Proof.
  intros Hh Ht Hoff. unfold build_entry_from_nodes. rewrite Hh, Ht. cbn [negb].
  destruct (normalize_topic_link_off_site _ _ Hoff) as [msg ->]. exists msg. reflexivity.
Qed.

Lemma build_entry_from_nodes_raises_ValueError (container : Node)
    (title_node link_node : option Node) (title_text : option string)
    (config : FeedRequest) (now : Z) (e : exn) :
  build_entry_from_nodes container title_node link_node title_text config now = Raise e ->
  exists msg, e = ValueError msg.
Proof.
  unfold build_entry_from_nodes.
  destruct title_node; [|discriminate]. destruct link_node; [|discriminate].
  destruct (get_href _) as [href|]; [|discriminate].
  destruct (negb (truthy href)); [discriminate|].
  destruct (normalize_topic_link _ href) as [joined|e'] eqn:Hn; cbn [bind].
  - destruct (negb (truthy _)); discriminate.
  - intros [= <-]. eapply normalize_topic_link_raises_ValueError, Hn.
Qed.

(** A candidate that lacks a title node, a link node or an href is passed
    over before its href is looked at. *)
Lemma build_entry_from_nodes_skips (container : Node)
    (title_node link_node : option Node) (title_text : option string)
    (config : FeedRequest) (now : Z) :
  title_node = None \/ link_node = None
  \/ (exists n, link_node = Some n
                /\ (get_href n = None \/ get_href n = Some EmptyString)) ->
  build_entry_from_nodes container title_node link_node title_text config now = Ok None.
Proof.
  unfold build_entry_from_nodes.
  intros [->|[->|(n & -> & [H|H])]]; try rewrite H; try reflexivity;
    destruct title_node; reflexivity.
Qed.

Variables (config : FeedRequest) (now : Z).
Variables (parsed_filter_rules parsed_exclude_filter_rules : list Filter.tree).

Lemma item_nodes_loop_app (total index : nat) (before rest : list Node)
    (entries : list FeedEntry) :
  match outcome (item_nodes_loop config now parsed_filter_rules
                   parsed_exclude_filter_rules total index before entries) with
  | Raise e =>
      outcome (item_nodes_loop config now parsed_filter_rules
                 parsed_exclude_filter_rules total index (before ++ rest) entries)
      = Raise e
  | Ok es =>
      reached_max es config = false ->
      outcome (item_nodes_loop config now parsed_filter_rules
                 parsed_exclude_filter_rules total index (before ++ rest) entries)
      = outcome (item_nodes_loop config now parsed_filter_rules
                   parsed_exclude_filter_rules total index rest es)
  end.
Proof.
  revert index entries; induction before as [|node before IH]; intros index entries.
  - intros _. reflexivity.
  - rewrite <- app_comm_cons, !item_nodes_loop_step.
    destruct (item_candidate config now node) as [[entry|]|e]; [| |reflexivity].
    + destruct (entry_passes_filters _ _ entry).
      * destruct (reached_max (entries ++ [entry]) config) eqn:Hmax.
        -- congruence.
        -- specialize (IH (S index) (entries ++ [entry])%list).
           destruct (outcome (item_nodes_loop _ _ _ _ _ _ before _)); [|exact IH].
           intros H. rewrite (IH H). apply item_nodes_loop_counters.
      * specialize (IH (S index) entries).
        destruct (outcome (item_nodes_loop _ _ _ _ _ _ before _)); [|exact IH].
        intros H. rewrite (IH H). apply item_nodes_loop_counters.
    + specialize (IH (S index) entries).
      destruct (outcome (item_nodes_loop _ _ _ _ _ _ before _)); [|exact IH].
      intros H. rewrite (IH H). apply item_nodes_loop_counters.
Qed.

Lemma item_nodes_loop_raises_ValueError (total index : nat) (nodes : list Node)
    (entries : list FeedEntry) (e : exn) :
  outcome (item_nodes_loop config now parsed_filter_rules parsed_exclude_filter_rules
             total index nodes entries) = Raise e ->
  exists msg, e = ValueError msg.
Proof.
  revert index entries; induction nodes as [|node rest IH]; intros index entries.
  - discriminate.
  - rewrite item_nodes_loop_step.
    destruct (item_candidate config now node) as [[entry|]|e'] eqn:Hc.
    + destruct (entry_passes_filters _ _ entry); [|apply IH].
      destruct (reached_max _ config); [discriminate | apply IH].
    + apply IH.
    + intros [= <-]. eapply build_entry_from_nodes_raises_ValueError, Hc.
Qed.

Lemma link_nodes_loop_app (total processed : nat) (before rest : list (Node * Node))
    (entries : list FeedEntry) (seen_links : list string) :
  match outcome (link_nodes_loop config now parsed_filter_rules
                   parsed_exclude_filter_rules total processed before entries seen_links) with
  | Raise e =>
      outcome (link_nodes_loop config now parsed_filter_rules
                 parsed_exclude_filter_rules total processed (before ++ rest)
                 entries seen_links)
      = Raise e
  | Ok es =>
      reached_max es config = false ->
      exists seen_links',
        outcome (link_nodes_loop config now parsed_filter_rules
                   parsed_exclude_filter_rules total processed (before ++ rest)
                   entries seen_links)
        = outcome (link_nodes_loop config now parsed_filter_rules
                     parsed_exclude_filter_rules total processed rest es seen_links')
  end.
Proof.
  revert processed entries seen_links; induction before as [|pair before IH];
    intros processed entries seen_links.
  - intros _. now exists seen_links.
  - rewrite <- app_comm_cons, !link_nodes_loop_step.
    destruct (link_candidate config now pair) as [[entry|]|e]; [| |reflexivity].
    + destruct (negb (seen seen_links entry) && entry_passes_filters _ _ entry).
      * destruct (reached_max (entries ++ [entry]) config) eqn:Hmax.
        -- congruence.
        -- specialize (IH (S processed) (entries ++ [entry])%list (link entry :: seen_links)).
           destruct (outcome (link_nodes_loop _ _ _ _ _ _ before _ _)); [|exact IH].
           intros H. destruct (IH H) as [s' ->]. exists s'.
           apply link_nodes_loop_counters.
      * specialize (IH (S processed) entries seen_links).
        destruct (outcome (link_nodes_loop _ _ _ _ _ _ before _ _)); [|exact IH].
        intros H. destruct (IH H) as [s' ->]. exists s'.
        apply link_nodes_loop_counters.
    + specialize (IH (S processed) entries seen_links).
      destruct (outcome (link_nodes_loop _ _ _ _ _ _ before _ _)); [|exact IH].
      intros H. destruct (IH H) as [s' ->]. exists s'.
      apply link_nodes_loop_counters.
Qed.

Lemma link_nodes_loop_raises_ValueError (total processed : nat)
    (pairs : list (Node * Node)) (entries : list FeedEntry) (seen_links : list string)
    (e : exn) :
  outcome (link_nodes_loop config now parsed_filter_rules parsed_exclude_filter_rules
             total processed pairs entries seen_links) = Raise e ->
  exists msg, e = ValueError msg.
Proof.
  revert processed entries seen_links; induction pairs as [|pair rest IH];
    intros processed entries seen_links.
  - discriminate.
  - rewrite link_nodes_loop_step.
    destruct (link_candidate config now pair) as [[entry|]|e'] eqn:Hc.
    + destruct (negb (seen seen_links entry) && entry_passes_filters _ _ entry); [|apply IH].
      destruct (reached_max _ config); [discriminate | apply IH].
    + apply IH.
    + intros [= <-]. destruct pair as [node link_node]. cbn [link_candidate] in Hc.
      eapply build_entry_from_nodes_raises_ValueError, Hc.
Qed.

(** In the primary pass, an item node that is reached, has a title node and
    a link node, and whose href leaves the site makes the pass raise. *)
Lemma primary_pass_off_site (before after : list Node) (node title_node link_node : Node)
    (href : string) :
  not_stopped config (outcome (extract_entries_from_item_nodes before config now
                          parsed_filter_rules parsed_exclude_filter_rules)) ->
  select_node_with_scope node (title_selector config) = Some title_node ->
  select_node_with_scope node (link_selector config) = Some link_node ->
  get_href link_node = Some href -> truthy href = true ->
  resolves_off_site (source_url config) href = true ->
  exists msg,
    outcome (extract_entries_from_item_nodes (before ++ node :: after) config now
               parsed_filter_rules parsed_exclude_filter_rules)
    = Raise (ValueError msg).
Proof.
  intros Hgo Ht Hl Hh Htr Hoff. unfold extract_entries_from_item_nodes in *.
  pose proof (item_nodes_loop_app (List.length (before ++ node :: after)) 1
                before (node :: after) []) as Happ.
  rewrite (item_nodes_loop_counters _ _ _ _ (List.length before) 1 (List.length (before ++ node :: after)) 1)
    in Hgo.
  destruct (outcome (item_nodes_loop _ _ _ _ _ 1 before [])) as [es|e] eqn:Hb.
  - rewrite (Happ Hgo), item_nodes_loop_step. unfold item_candidate.
    rewrite Ht, Hl.
    destruct (build_entry_from_nodes_off_site node title_node link_node None config now
                href Hh Htr Hoff) as [msg ->]. eauto.
  - rewrite Happ. destruct (item_nodes_loop_raises_ValueError _ _ _ _ _ Hb) as [msg ->].
    eauto.
Qed.

(** In the link-expansion pass, a link that is reached and whose href
    leaves the site makes the pass raise. *)
Lemma link_pass_off_site (nodes : list Node) (before after : list (Node * Node))
    (node link_node : Node) (href : string) :
  link_pairs nodes config = (before ++ (node, link_node) :: after)%list ->
  not_stopped config (outcome (link_nodes_loop config now parsed_filter_rules
                          parsed_exclude_filter_rules (List.length before) 0 before [] [])) ->
  get_href link_node = Some href -> truthy href = true ->
  resolves_off_site (source_url config) href = true ->
  exists msg,
    outcome (extract_entries_from_link_collections nodes config now
               parsed_filter_rules parsed_exclude_filter_rules)
    = Raise (ValueError msg).
Proof.
  intros Hpairs Hgo Hh Htr Hoff. unfold extract_entries_from_link_collections.
  cbv zeta. rewrite Hpairs.
  pose proof (link_nodes_loop_app (List.length (before ++ (node, link_node) :: after)) 0
                before ((node, link_node) :: after) [] []) as Happ.
  rewrite (link_nodes_loop_counters _ _ _ _ (List.length before) 0
             (List.length (before ++ (node, link_node) :: after)) 0) in Hgo.
  destruct (outcome (link_nodes_loop _ _ _ _ _ 0 before [] [])) as [es|e] eqn:Hb.
  - destruct (Happ Hgo) as [s' ->]. rewrite link_nodes_loop_step.
    cbn [link_candidate].
    destruct (build_entry_from_nodes_off_site node
                (resolve_repeated_link_title_node link_node config) link_node
                (extract_repeated_link_title_text node link_node
                   (resolve_repeated_link_title_node link_node config) config)
                config now href Hh Htr Hoff) as [msg ->]. eauto.
  - rewrite Happ. destruct (link_nodes_loop_raises_ValueError _ _ _ _ _ _ Hb) as [msg ->].
    eauto.
Qed.

End OffSite.

Section OffSiteExtraction.

Context {Node : Type} {dom : Dom Node} {urls : UrlLib} {world : World Node}.

(** C2.  A candidate is processed when the pass reaches it (the pass has
    not stopped at the cap before it) and its href gets resolved (it has a
    title node, a link node and a non-empty href).  If that href resolves to
    a URL that is not http or https or is on another host, the whole call
    raises a [ValueError]: the candidate is not skipped and no entries are
    returned.  This holds for the item nodes of the primary pass and for the
    links of the link-expansion pass once that pass is triggered. *)
Theorem off_site_link_fails_extraction (config : FeedRequest) (now : Z) (html : string)
    (parsed_filter_rules parsed_exclude_filter_rules : list Filter.tree) :
  fetched config = Ok html ->
  parse_filter_rules (filter_rules config) = Ok parsed_filter_rules ->
  parse_filter_rules (exclude_filter_rules config) = Ok parsed_exclude_filter_rules ->
  let nodes := select (BeautifulSoup html) (item_selector config) in
  (forall before node after title_node link_node href,
      nodes = (before ++ node :: after)%list ->
      not_stopped config
        (outcome (extract_entries_from_item_nodes before config now
                    parsed_filter_rules parsed_exclude_filter_rules)) ->
      select_node_with_scope node (title_selector config) = Some title_node ->
      select_node_with_scope node (link_selector config) = Some link_node ->
      get_href link_node = Some href -> truthy href = true ->
      resolves_off_site (source_url config) href = true ->
      exists msg, outcome (extract_feed_entries config now) = Raise (ValueError msg))
  /\
  (forall entries before node link_node after href,
      outcome (extract_entries_from_item_nodes nodes config now
                 parsed_filter_rules parsed_exclude_filter_rules) = Ok entries ->
      should_use_container_link_fallback nodes entries config = true ->
      link_pairs nodes config = (before ++ (node, link_node) :: after)%list ->
      not_stopped config
        (outcome (link_nodes_loop config now parsed_filter_rules
                    parsed_exclude_filter_rules (List.length before) 0 before [] [])) ->
      get_href link_node = Some href -> truthy href = true ->
      resolves_off_site (source_url config) href = true ->
      exists msg, outcome (extract_feed_entries config now) = Raise (ValueError msg)).
Proof.
  intros Hf Hinc Hexc nodes. split.
  - intros before node after title_node link_node href Hn Hgo Ht Hl Hh Htr Hoff.
    destruct (primary_pass_off_site config now parsed_filter_rules
                parsed_exclude_filter_rules before after node title_node link_node href
                Hgo Ht Hl Hh Htr Hoff) as [msg Hp].
    assert (Hne : nonempty nodes = true) by (rewrite Hn; now destruct before).
    exists msg. rewrite extract_feed_entries_outcome, Hf. cbn [bind].
    fold nodes. unfold outcome_from_nodes. rewrite Hne. cbn [negb].
    rewrite Hinc, Hexc. cbn [bind]. rewrite Hn, Hp. reflexivity.
  - intros entries before node link_node after href Hp Hfb Hpairs Hgo Hh Htr Hoff.
    destruct (link_pass_off_site config now parsed_filter_rules
                parsed_exclude_filter_rules nodes before after node link_node href
                Hpairs Hgo Hh Htr Hoff) as [msg Hl].
    assert (Hne : nonempty nodes = true).
    { destruct nodes; [now destruct before | reflexivity]. }
    exists msg. rewrite extract_feed_entries_outcome, Hf. cbn [bind].
    fold nodes. unfold outcome_from_nodes. rewrite Hne. cbn [negb].
    rewrite Hinc, Hexc. cbn [bind].
    rewrite Hp. cbn [bind]. rewrite Hfb, Hl. reflexivity.
Qed.

End OffSiteExtraction.

(** C2, witness: the second of three topics links to another host, and the
    second of three grouped links does. *)
Lemma off_site_link_fails_extraction_witness :
  (exists msg,
      outcome (Pages.extract (Pages.online Pages.off_site_topic)
                 (Reference.request ".topic" "a" "a" EmptyString 10) 0)
      = Raise (ValueError msg))
  /\ (exists msg,
         outcome (Pages.extract (Pages.online Pages.off_site_grouped)
                    (Reference.request "p" "a" "a" EmptyString 10) 0)
         = Raise (ValueError msg)).
Proof.
  split.
  - pose (at_path := fun p => {| Reference.document := Pages.off_site_topic;
                                 Reference.path := p |}).
    refine (proj1 (@off_site_link_fails_extraction _ Reference.ref_dom Reference.ref_urls
                     (Pages.online Pages.off_site_topic)
                     (Reference.request ".topic" "a" "a" EmptyString 10) 0
                     "<html></html>" [] [] eq_refl eq_refl eq_refl)
              [at_path [0; 0; 0]%nat] (at_path [0; 0; 1]%nat) [at_path [0; 0; 2]%nat]
              (at_path [0; 0; 1; 0]%nat) (at_path [0; 0; 1; 0]%nat)
              "https://evil.test/topic" eq_refl _ eq_refl eq_refl eq_refl eq_refl eq_refl).
    vm_compute. reflexivity.
  - pose (at_path := fun p => {| Reference.document := Pages.off_site_grouped;
                                 Reference.path := p |}).
    refine (proj2 (@off_site_link_fails_extraction _ Reference.ref_dom Reference.ref_urls
                     (Pages.online Pages.off_site_grouped)
                     (Reference.request "p" "a" "a" EmptyString 10) 0
                     "<html></html>" [] [] eq_refl eq_refl eq_refl)
              [Pages.entry "Alpha Topic" "https://example.com/forums/topic/alpha" 0]
              [(at_path [0; 0; 0]%nat, at_path [0; 0; 0; 0]%nat)]
              (at_path [0; 0; 0]%nat) (at_path [0; 0; 0; 1]%nat)
              [(at_path [0; 0; 0]%nat, at_path [0; 0; 0; 2]%nat)]
              "https://evil.test/topic" eq_refl eq_refl eq_refl _ eq_refl eq_refl eq_refl).
    vm_compute. reflexivity.
Defined.

(** The check of the repository's own test: a link to another host is
    refused, a relative one is resolved. *)
Example normalize_topic_link_examples :
  @normalize_topic_link Reference.ref_urls "https://example.com/forum" "https://evil.test/topic"
  = Raise (ValueError "Off-site topic links are blocked by default.")
  /\ @normalize_topic_link Reference.ref_urls "https://example.com/forum" "javascript:alert(1)"
     = Raise (ValueError "Topic links must resolve to http or https URLs.")
  /\ @normalize_topic_link Reference.ref_urls "https://example.com/forum" "/forums/topic/alpha"
     = Ok "https://example.com/forums/topic/alpha".
Proof. repeat split. Qed.

(** ** What the passes return *)

Lemma filter_all {A : Type} (f : A -> bool) (xs : list A) :
  Forall (fun x => f x = true) xs -> filter f xs = xs.
Proof.
  induction 1 as [|x xs Hx _ IH]; simpl; [reflexivity|]. now rewrite Hx, IH.
Qed.

Lemma apply_entry_filters_all (entries : list FeedEntry)
    (include_rules exclude_rules : list Filter.tree) :
  Forall (fun e => entry_passes_filters include_rules exclude_rules e = true) entries ->
  apply_entry_filters entries include_rules exclude_rules = entries.
Proof.
  intros H. unfold apply_entry_filters.
  destruct (negb (nonempty include_rules) && negb (nonempty exclude_rules));
    [reflexivity | now apply filter_all].
Qed.

Lemma apply_entry_filters_incl (entries : list FeedEntry)
    (include_rules exclude_rules : list Filter.tree) (e : FeedEntry) :
  In e (apply_entry_filters entries include_rules exclude_rules) -> In e entries.
Proof.
  unfold apply_entry_filters.
  destruct (negb (nonempty include_rules) && negb (nonempty exclude_rules)); [auto|].
  intros H. now apply filter_In in H.
Qed.

Lemma slice_to_all {A : Type} (stop : Z) (xs : list A) :
  (Z.of_nat (List.length xs) <= stop)%Z -> slice_to stop xs = xs.
Proof.
  intros H. unfold slice_to.
  destruct (stop <? 0)%Z eqn:E; [apply Z.ltb_lt in E; lia|].
  apply firstn_all2. lia.
Qed.

Lemma In_firstn {A : Type} (n : nat) (xs : list A) (x : A) :
  In x (firstn n xs) -> In x xs.
Proof.
  revert n; induction xs as [|y xs IH]; intros n.
  - now rewrite firstn_nil.
  - destruct n; simpl; [tauto|]. intros [H|H]; [now left | right; eapply IH, H].
Qed.

Lemma NoDup_map_firstn {A B : Type} (f : A -> B) (n : nat) (xs : list A) :
  NoDup (map f xs) -> NoDup (map f (firstn n xs)).
Proof.
  revert n; induction xs as [|x xs IH]; intros n H.
  - now rewrite firstn_nil.
  - destruct n; simpl; [constructor|].
    inversion H as [|? ? Hnin Hnd]; subst. constructor; [|now apply IH].
    intros Hin. apply Hnin. apply in_map_iff in Hin as (y & Hy & Hin).
    apply in_map_iff. exists y. split; [exact Hy|]. eapply In_firstn, Hin.
Qed.

Lemma NoDup_map_filter {A B : Type} (f : A -> B) (p : A -> bool) (xs : list A) :
  NoDup (map f xs) -> NoDup (map f (filter p xs)).
Proof.
  induction xs as [|x xs IH]; intros H; simpl; [constructor|].
  inversion H as [|? ? Hnin Hnd]; subst.
  destruct (p x); simpl; [|now apply IH].
  constructor; [|now apply IH].
  intros Hin. apply Hnin. apply in_map_iff in Hin as (y & Hy & Hin).
  apply in_map_iff. exists y. split; [exact Hy|]. now apply filter_In in Hin.
Qed.

(** Filtering again and cutting at the cap keeps links distinct. *)
Lemma NoDup_links_final (stop : Z) (entries : list FeedEntry)
    (include_rules exclude_rules : list Filter.tree) :
  NoDup (map link entries) ->
  NoDup (map link (slice_to stop (apply_entry_filters entries include_rules exclude_rules))).
Proof.
  intros H. unfold slice_to, apply_entry_filters.
  destruct (stop <? 0)%Z; apply NoDup_map_firstn;
    destruct (negb (nonempty include_rules) && negb (nonempty exclude_rules));
    auto using NoDup_map_filter.
Qed.

Section PassResults.

Context {Node : Type} {dom : Dom Node} {urls : UrlLib} {world : World Node}.

Variables (config : FeedRequest) (now : Z).
Variables (parsed_filter_rules parsed_exclude_filter_rules : list Filter.tree).

Let passes := entry_passes_filters parsed_filter_rules parsed_exclude_filter_rules.

Lemma reached_max_false (entries : list FeedEntry) :
  reached_max entries config = false ->
  (Z.of_nat (List.length entries) < max_items config)%Z.
Proof. unfold reached_max. intros H. apply Z.leb_gt in H. lia. Qed.

(** The entries of the primary pass pass the filters and stay within the cap. *)
Lemma item_nodes_loop_ok (total index : nat) (nodes : list Node)
    (entries es : list FeedEntry) :
  outcome (item_nodes_loop config now parsed_filter_rules parsed_exclude_filter_rules
             total index nodes entries) = Ok es ->
  Forall (fun e => passes e = true) entries ->
  (Z.of_nat (List.length entries) < max_items config)%Z ->
  Forall (fun e => passes e = true) es
  /\ (Z.of_nat (List.length es) <= max_items config)%Z.
Proof.
  revert index entries; induction nodes as [|node rest IH]; intros index entries.
  - intros [= <-] Hall Hlen. split; [exact Hall | lia].
  - rewrite item_nodes_loop_step.
    destruct (item_candidate config now node) as [[entry|]|e]; [| |discriminate].
    + fold passes. destruct (passes entry) eqn:Hp; [|apply IH].
      assert (Hall' : Forall (fun e => passes e = true) entries ->
                      Forall (fun e => passes e = true) (entries ++ [entry])).
      { intros Hall. apply Forall_app. split; [exact Hall | now constructor]. }
      destruct (reached_max (entries ++ [entry]) config) eqn:Hmax.
      * intros [= <-] Hall Hlen. split; [now apply Hall'|].
        rewrite length_app. simpl. lia.
      * intros Hes Hall Hlen.
        apply (IH _ _ Hes (Hall' Hall) (reached_max_false _ Hmax)).
    + apply IH.
Qed.

(** The entries of the link-expansion pass pass the filters and stay within
    the cap. *)
Lemma link_nodes_loop_ok (total processed : nat) (pairs : list (Node * Node))
    (entries es : list FeedEntry) (seen_links : list string) :
  outcome (link_nodes_loop config now parsed_filter_rules parsed_exclude_filter_rules
             total processed pairs entries seen_links) = Ok es ->
  Forall (fun e => passes e = true) entries ->
  (Z.of_nat (List.length entries) < max_items config)%Z ->
  Forall (fun e => passes e = true) es
  /\ (Z.of_nat (List.length es) <= max_items config)%Z.
Proof.
  revert processed entries seen_links; induction pairs as [|pair rest IH];
    intros processed entries seen_links.
  - intros [= <-] Hall Hlen. split; [exact Hall | lia].
  - rewrite link_nodes_loop_step.
    destruct (link_candidate config now pair) as [[entry|]|e]; [| |discriminate].
    + fold passes.
      destruct (negb (seen seen_links entry) && passes entry) eqn:Hp; [|apply IH].
      apply andb_true_iff in Hp as [_ Hp].
      assert (Hall' : Forall (fun e => passes e = true) entries ->
                      Forall (fun e => passes e = true) (entries ++ [entry])).
      { intros Hall. apply Forall_app. split; [exact Hall | now constructor]. }
      destruct (reached_max (entries ++ [entry]) config) eqn:Hmax.
      * intros [= <-] Hall Hlen. split; [now apply Hall'|].
        rewrite length_app. simpl. lia.
      * intros Hes Hall Hlen.
        apply (IH _ _ _ Hes (Hall' Hall) (reached_max_false _ Hmax)).
    + apply IH.
Qed.

(** The links of the link-expansion pass are pairwise distinct: every link
    taken is recorded in [seen_links], and a recorded link is not taken again. *)
Lemma link_nodes_loop_distinct (total processed : nat) (pairs : list (Node * Node))
    (entries es : list FeedEntry) (seen_links : list string) :
  outcome (link_nodes_loop config now parsed_filter_rules parsed_exclude_filter_rules
             total processed pairs entries seen_links) = Ok es ->
  (forall e, In e entries -> In (link e) seen_links) ->
  NoDup (map link entries) ->
  NoDup (map link es).
Proof.
  revert processed entries seen_links; induction pairs as [|pair rest IH];
    intros processed entries seen_links.
  - now intros [= <-] _ Hnd.
  - rewrite link_nodes_loop_step.
    destruct (link_candidate config now pair) as [[entry|]|e]; [| |discriminate].
    + destruct (negb (seen seen_links entry) && _) eqn:Hp; [|apply IH].
      apply andb_true_iff in Hp as [Hnew _]. apply negb_true_iff in Hnew.
      assert (Hfresh : ~ In (link entry) seen_links).
      { intros Hin. unfold seen in Hnew.
        assert (existsb (String.eqb (link entry)) seen_links = true); [|congruence].
        apply existsb_exists. exists (link entry). split; [exact Hin|].
        apply String.eqb_refl. }
      assert (Hseen' : (forall e, In e entries -> In (link e) seen_links) ->
                       forall e, In e (entries ++ [entry]) ->
                                 In (link e) (link entry :: seen_links)).
      { intros Hseen e Hin. apply in_app_iff in Hin as [Hin|[<-|[]]].
        - right. now apply Hseen.
        - now left. }
      assert (Hnd' : (forall e, In e entries -> In (link e) seen_links) ->
                     NoDup (map link entries) ->
                     NoDup (map link (entries ++ [entry]))).
      { intros Hseen Hnd. rewrite map_app. simpl.
        apply NoDup_app; [exact Hnd | repeat constructor; tauto |].
        intros l Hin [<-|[]].
        apply in_map_iff in Hin as (e' & He' & Hin).
        apply Hfresh. rewrite <- He'. now apply Hseen. }
      destruct (reached_max (entries ++ [entry]) config).
      * intros [= <-] Hseen Hnd. now apply Hnd'.
      * intros Hes Hseen Hnd. apply (IH _ _ _ Hes (Hseen' Hseen) (Hnd' Hseen Hnd)).
    + apply IH.
Qed.

End PassResults.

(** ** When the link-expansion pass runs *)

Lemma events_bind_Forall {A B : Type} (P : event -> Prop) (m : io A) (k : A -> io B) :
  Forall P (events m) -> (forall a, Forall P (events (k a))) ->
  Forall P (events (io_bind m k)).
Proof.
  intros Hm Hk. rewrite events_bind. destruct (outcome m); [|exact Hm].
  apply Forall_app. auto.
Qed.

Lemma events_when_Forall (P : event -> Prop) (b : bool) (m : io unit) :
  Forall P (events m) -> Forall P (events (io_when b m)).
Proof. destruct b; [auto | constructor]. Qed.

Section FallbackEvents.

Context {Node : Type} {dom : Dom Node} {urls : UrlLib} {world : World Node}.

Variables (config : FeedRequest) (now : Z).
Variables (parsed_filter_rules parsed_exclude_filter_rules : list Filter.tree).

Let quiet (ev : event) : Prop := ev <> fallback_started.

Lemma item_nodes_loop_quiet (total index : nat) (nodes : list Node)
    (entries : list FeedEntry) :
  Forall quiet (events (item_nodes_loop config now parsed_filter_rules
                          parsed_exclude_filter_rules total index nodes entries)).
Proof.
  revert index entries; induction nodes as [|node rest IH]; intros index entries.
  - constructor.
  - cbn [item_nodes_loop]. apply events_bind_Forall.
    + apply events_when_Forall. repeat constructor. discriminate.
    + intros _. apply events_bind_Forall; [constructor|].
      intros [entry|]; [|apply IH].
      destruct (_ && _); [apply IH|]. destruct (_ && _); [apply IH|].
      destruct (reached_max _ config); [constructor | apply IH].
Qed.

Lemma link_nodes_loop_quiet (total processed : nat) (pairs : list (Node * Node))
    (entries : list FeedEntry) (seen_links : list string) :
  Forall quiet (events (link_nodes_loop config now parsed_filter_rules
                          parsed_exclude_filter_rules total processed pairs
                          entries seen_links)).
Proof.
  revert processed entries seen_links; induction pairs as [|[node link_node] rest IH];
    intros processed entries seen_links.
  - constructor.
  - cbn [link_nodes_loop]. apply events_bind_Forall; [constructor|].
    intros [entry|]; [|apply IH].
    destruct (existsb _ seen_links); [apply IH|].
    destruct (_ && _); [apply IH|]. destruct (_ && _); [apply IH|].
    apply events_bind_Forall.
    + apply events_when_Forall. repeat constructor. discriminate.
    + intros _. destruct (reached_max _ config); [constructor | apply IH].
Qed.

End FallbackEvents.

Section Fallback.

Context {Node : Type} {dom : Dom Node} {urls : UrlLib} {world : World Node}.

Lemma should_use_container_link_fallback_iff (nodes : list Node)
    (entries : list FeedEntry) (config : FeedRequest) :
  should_use_container_link_fallback nodes entries config = true <->
  List.length entries <= 1 /\ has_grouped_links nodes config.
Proof.
  unfold should_use_container_link_fallback, has_grouped_links.
  destruct (1 <? List.length entries)%nat eqn:E.
  - apply Nat.ltb_lt in E. split; [discriminate | lia].
  - apply Nat.ltb_ge in E. rewrite existsb_exists. split.
    + intros (node & Hin & H). apply Nat.ltb_lt in H. eauto.
    + intros (_ & node & Hin & H). exists node. split; [exact Hin|]. now apply Nat.ltb_lt.
Qed.

Lemma fallback_started_iff (config : FeedRequest) (now : Z) (html : string)
    (parsed_filter_rules parsed_exclude_filter_rules : list Filter.tree)
    (entries : list FeedEntry) :
  fetched config = Ok html ->
  parse_filter_rules (filter_rules config) = Ok parsed_filter_rules ->
  parse_filter_rules (exclude_filter_rules config) = Ok parsed_exclude_filter_rules ->
  let nodes := select (BeautifulSoup html) (item_selector config) in
  nodes <> [] ->
  outcome (extract_entries_from_item_nodes nodes config now
             parsed_filter_rules parsed_exclude_filter_rules) = Ok entries ->
  In fallback_started (events (extract_feed_entries config now)) <->
  should_use_container_link_fallback nodes entries config = true.
Proof.
  intros Hf Hinc Hexc nodes Hnodes Hp.
  assert (Hne : nonempty nodes = true) by (destruct nodes; [congruence | reflexivity]).
  unfold extract_feed_entries.
  rewrite events_emit_then, events_bind, fetch_html_events.
  unfold fetched in Hf. rewrite Hf. cbn [app].
  rewrite !events_emit_then. fold nodes. rewrite Hne. cbn [negb].
  rewrite events_emit_then, events_bind, Hinc.
  cbn [outcome io_lift snd events fst app].
  rewrite events_bind, Hexc. cbn [outcome io_lift snd events fst app].
  rewrite events_emit_then, events_bind, Hp.
  pose proof (item_nodes_loop_quiet config now parsed_filter_rules
                parsed_exclude_filter_rules (List.length nodes) 1 nodes []) as Hq1.
  fold (extract_entries_from_item_nodes nodes config now parsed_filter_rules
          parsed_exclude_filter_rules) in Hq1.
  rewrite events_bind.
  destruct (should_use_container_link_fallback nodes entries config) eqn:Hfb.
  - split; [reflexivity|]. intros _.
    do 6 right. apply in_or_app. right.
    rewrite events_emit_then.
    match goal with
    | |- In _ (match ?o with Ok _ => _ | Raise _ => _ end) => destruct o
    end; [apply in_or_app; left|]; now left.
  - split; [|discriminate]. intros Hin. exfalso.
    repeat (destruct Hin as [Hin|Hin]; [discriminate Hin|]).
    apply in_app_or in Hin as [Hin|Hin].
    + rewrite Forall_forall in Hq1. now apply (Hq1 _ Hin).
    + cbn [outcome io_ret snd events fst app] in Hin.
      destruct (negb (nonempty entries)); cbn in Hin.
      * exact Hin.
      * repeat (destruct Hin as [Hin|Hin]; [discriminate Hin|]). exact Hin.
Qed.

(** C5.  After a primary pass that returned [entries], the link-expansion
    pass runs exactly when [entries] has at most one entry and some item
    node holds more than one node matching the link selector.  When it runs
    and returns, its entries replace the primary ones exactly when they are
    strictly more.  A call that returns therefore returns at least as many
    entries as the primary pass produced ([max_items] being at least 1, as
    the configuration requires). *)
Theorem fallback_runs_iff_and_keeps_count (config : FeedRequest) (now : Z) (html : string)
    (parsed_filter_rules parsed_exclude_filter_rules : list Filter.tree)
    (entries : list FeedEntry) :
  fetched config = Ok html ->
  parse_filter_rules (filter_rules config) = Ok parsed_filter_rules ->
  parse_filter_rules (exclude_filter_rules config) = Ok parsed_exclude_filter_rules ->
  (1 <= max_items config)%Z ->
  let nodes := select (BeautifulSoup html) (item_selector config) in
  nodes <> [] ->
  outcome (extract_entries_from_item_nodes nodes config now
             parsed_filter_rules parsed_exclude_filter_rules) = Ok entries ->
  let run := extract_feed_entries config now in
  let triggered := List.length entries <= 1 /\ has_grouped_links nodes config in
  (should_use_container_link_fallback nodes entries config = true <-> triggered)
  /\ (In fallback_started (events run) <-> triggered)
  /\ (forall final,
        outcome run = Ok final ->
        List.length entries <= List.length final
        /\ ((~ triggered /\ final = entries)
            \/ (triggered
                /\ exists container_entries,
                     outcome (extract_entries_from_link_collections nodes config now
                                parsed_filter_rules parsed_exclude_filter_rules)
                     = Ok container_entries
                     /\ final = if (List.length entries <? List.length container_entries)%nat
                                then container_entries else entries))).
Proof.
  intros Hf Hinc Hexc Hmax nodes Hnodes Hp run triggered.
  pose proof (should_use_container_link_fallback_iff nodes entries config) as Hiff.
  fold triggered in Hiff.
  split; [exact Hiff|]. split.
  { subst run. unfold triggered. rewrite <- (should_use_container_link_fallback_iff nodes).
    now apply (fallback_started_iff config now html parsed_filter_rules
                 parsed_exclude_filter_rules). }
  intros final Hrun. subst run.
  assert (Hne : nonempty nodes = true) by (destruct nodes; [congruence | reflexivity]).
  rewrite extract_feed_entries_outcome, Hf in Hrun. cbn [bind] in Hrun.
  fold nodes in Hrun. unfold outcome_from_nodes in Hrun.
  rewrite Hne, Hinc, Hexc in Hrun. cbn [negb bind] in Hrun. rewrite Hp in Hrun.
  cbn [bind] in Hrun.
  destruct (item_nodes_loop_ok config now parsed_filter_rules parsed_exclude_filter_rules
              _ _ _ _ _ Hp (Forall_nil _) ltac:(simpl; lia)) as [Hall Hlen].
  assert (Hsame : forall chosen,
             Forall (fun e => entry_passes_filters parsed_filter_rules
                                parsed_exclude_filter_rules e = true) chosen ->
             (Z.of_nat (List.length chosen) <= max_items config)%Z ->
             slice_to (max_items config)
               (apply_entry_filters chosen parsed_filter_rules parsed_exclude_filter_rules)
             = chosen).
  { intros chosen Hc Hl. rewrite apply_entry_filters_all by exact Hc.
    now apply slice_to_all. }
  destruct (should_use_container_link_fallback nodes entries config) eqn:Hfb.
  - destruct (outcome (extract_entries_from_link_collections nodes config now
                         parsed_filter_rules parsed_exclude_filter_rules))
      as [container_entries|e] eqn:Hc; [|discriminate].
    cbn [bind] in Hrun.
    destruct (link_nodes_loop_ok config now parsed_filter_rules parsed_exclude_filter_rules
                _ _ _ _ _ _ Hc (Forall_nil _) ltac:(simpl; lia)) as [Hall' Hlen'].
    assert (Hfinal : final = if (List.length entries <? List.length container_entries)%nat
                             then container_entries else entries).
    { destruct (List.length entries <? List.length container_entries)%nat;
        (destruct (negb (nonempty _)); [discriminate|]);
        injection Hrun as <-; now apply Hsame. }
    split.
    + rewrite Hfinal.
      destruct (List.length entries <? List.length container_entries)%nat eqn:E;
        [apply Nat.ltb_lt in E; lia | lia].
    + right. split; [now apply Hiff|]. exists container_entries. now split.
  - cbn [bind] in Hrun. destruct (negb (nonempty entries)); [discriminate|].
    injection Hrun as <-. rewrite (Hsame _ Hall Hlen). split; [lia|].
    left. split; [|reflexivity]. intros Ht. apply Hiff in Ht. discriminate.
Qed.

(** C6, as the code has it.  The link-expansion pass never returns two
    entries with the same link, so a result taken from it has pairwise
    distinct links.  The primary pass does not compare links: a result taken
    from it has pairwise distinct links when the primary entries have. *)
Theorem links_distinct_after_link_expansion (config : FeedRequest) (now : Z) (html : string)
    (parsed_filter_rules parsed_exclude_filter_rules : list Filter.tree)
    (entries final : list FeedEntry) :
  fetched config = Ok html ->
  parse_filter_rules (filter_rules config) = Ok parsed_filter_rules ->
  parse_filter_rules (exclude_filter_rules config) = Ok parsed_exclude_filter_rules ->
  let nodes := select (BeautifulSoup html) (item_selector config) in
  outcome (extract_entries_from_item_nodes nodes config now
             parsed_filter_rules parsed_exclude_filter_rules) = Ok entries ->
  outcome (extract_feed_entries config now) = Ok final ->
  (forall container_entries,
      outcome (extract_entries_from_link_collections nodes config now
                 parsed_filter_rules parsed_exclude_filter_rules) = Ok container_entries ->
      NoDup (map link container_entries)
      /\ (should_use_container_link_fallback nodes entries config = true ->
          List.length entries < List.length container_entries ->
          NoDup (map link final)))
  /\ (NoDup (map link entries) -> NoDup (map link final)).
Proof.
  intros Hf Hinc Hexc nodes Hp Hrun.
  rewrite extract_feed_entries_outcome, Hf in Hrun. cbn [bind] in Hrun.
  fold nodes in Hrun. unfold outcome_from_nodes in Hrun.
  destruct (negb (nonempty nodes)); [discriminate|].
  rewrite Hinc, Hexc in Hrun. cbn [bind] in Hrun. rewrite Hp in Hrun. cbn [bind] in Hrun.
  assert (Hdistinct : forall c,
             outcome (extract_entries_from_link_collections nodes config now
                        parsed_filter_rules parsed_exclude_filter_rules) = Ok c ->
             NoDup (map link c)).
  { intros c Hc. unfold extract_entries_from_link_collections in Hc.
    apply (link_nodes_loop_distinct _ _ _ _ _ _ _ _ _ _ Hc); [intros e [] | constructor]. }
  split.
  - intros container_entries Hc. split; [now apply Hdistinct|].
    intros Hfb Hlt. rewrite Hfb, Hc in Hrun. cbn [bind] in Hrun.
    apply Nat.ltb_lt in Hlt. rewrite Hlt in Hrun.
    destruct (negb (nonempty container_entries)); [discriminate|].
    injection Hrun as <-. apply NoDup_links_final. now apply Hdistinct.
  - intros Hnd.
    destruct (should_use_container_link_fallback nodes entries config).
    + destruct (outcome (extract_entries_from_link_collections nodes config now
                           parsed_filter_rules parsed_exclude_filter_rules))
        as [c|e] eqn:Hc; [|discriminate].
      cbn [bind] in Hrun.
      destruct (List.length entries <? List.length c)%nat;
        (destruct (negb (nonempty _)); [discriminate|]);
        injection Hrun as <-; apply NoDup_links_final; auto.
    + cbn [bind] in Hrun. destruct (negb (nonempty entries)); [discriminate|].
      injection Hrun as <-. now apply NoDup_links_final.
Qed.

End Fallback.

(** C5, witness: one paragraph with three links.  The primary pass finds
    one entry, the link-expansion pass runs and its three entries are
    returned. *)
Lemma fallback_runs_iff_and_keeps_count_witness :
  let config := Reference.request "p" "a" "a" EmptyString 10 in
  let run := Pages.extract (Pages.online Pages.grouped_links) config 0 in
  In fallback_started (events run)
  /\ forall final, outcome run = Ok final -> 1 <= List.length final.
Proof.
  cbv zeta.
  pose (config := Reference.request "p" "a" "a" EmptyString 10).
  assert (Hnodes : @select _ Reference.ref_dom
                     (@BeautifulSoup _ (Pages.online Pages.grouped_links) "<html></html>")
                     (item_selector config) <> []) by (vm_compute; discriminate).
  destruct (@fallback_runs_iff_and_keeps_count _ Reference.ref_dom Reference.ref_urls
              (Pages.online Pages.grouped_links) config 0 "<html></html>" [] []
              [Pages.entry "Alpha Topic" "https://example.com/forums/topic/alpha" 0]
              eq_refl eq_refl eq_refl ltac:(simpl; lia) Hnodes eq_refl)
    as (Htrigger & Hevent & Hfinal).
  split.
  - apply Hevent, Htrigger. reflexivity.
  - intros final Hrun. exact (proj1 (Hfinal final Hrun)).
Defined.

(** C6, witness: on the paragraph with three links the result comes from
    the link-expansion pass, and its three links are distinct. *)
Lemma links_distinct_after_link_expansion_witness :
  NoDup (map link
           [Pages.entry "Alpha Topic" "https://example.com/forums/topic/alpha" 0;
            Pages.entry "Beta Topic" "https://example.com/forums/topic/beta" 0;
            Pages.entry "Gamma Topic" "https://example.com/forums/topic/gamma" 0]).
Proof.
  refine (proj2 (proj1 (@links_distinct_after_link_expansion _ Reference.ref_dom
                           Reference.ref_urls (Pages.online Pages.grouped_links)
                           (Reference.request "p" "a" "a" EmptyString 10) 0
                           "<html></html>" [] []
                           [Pages.entry "Alpha Topic"
                              "https://example.com/forums/topic/alpha" 0]
                           _ eq_refl eq_refl eq_refl eq_refl eq_refl)
                        _ eq_refl) eq_refl _).
  simpl. lia.
Defined.

(** C6 fails as stated: two item nodes that link to the same topic give two
    entries with the same link, and the call returns both. *)
Lemma primary_pass_returns_a_link_twice :
  let config := Reference.request ".topic" "a" "a" EmptyString 10 in
  let final :=
    [Pages.entry "Package Alpha Premium" "https://example.com/forums/topic/1" 0;
     Pages.entry "Package Alpha Premium (bumped)" "https://example.com/forums/topic/1" 0] in
  outcome (Pages.extract (Pages.online Pages.repeated_topic) config 0) = Ok final
  /\ ~ NoDup (map link final).
Proof.
  cbv zeta. split.
  - vm_compute. reflexivity.
  - intros H. inversion H as [|? ? Hnin _]; subst. apply Hnin. now left.
Qed.

(** ** Rows and updates of the profile store *)

Lemma find_update_where_id (rows : list StoredProfile) (profile_id' : Z)
    (set : StoredProfile -> StoredProfile) :
  (forall row, Profile.id (set row) = Profile.id row) ->
  find (fun row => (Profile.id row =? profile_id')%Z)
       (map (fun row => if (Profile.id row =? profile_id')%Z then set row else row) rows)
  = option_map set (find (fun row => (Profile.id row =? profile_id')%Z) rows).
Proof.
  intros Hid. induction rows as [|row rows IH]; [reflexivity|].
  simpl. destruct (Profile.id row =? profile_id')%Z eqn:E.
  - now rewrite Hid, E.
  - now rewrite E.
Qed.

Lemma find_update_other_id (rows : list StoredProfile) (profile_id' other : Z)
    (set : StoredProfile -> StoredProfile) :
  (forall row, Profile.id (set row) = Profile.id row) ->
  other <> profile_id' ->
  find (fun row => (Profile.id row =? other)%Z)
       (map (fun row => if (Profile.id row =? profile_id')%Z then set row else row) rows)
  = find (fun row => (Profile.id row =? other)%Z) rows.
Proof.
  intros Hid Hne. induction rows as [|row rows IH]; [reflexivity|].
  simpl. destruct (Profile.id row =? profile_id')%Z eqn:E.
  - rewrite Hid. apply Z.eqb_eq in E.
    assert (Hrow : (Profile.id row =? other)%Z = false) by (apply Z.eqb_neq; lia).
    now rewrite Hrow.
  - now rewrite IH.
Qed.

Lemma set_config_id (config : FeedRequest) (now : timestamp) (row : StoredProfile) :
  Profile.id (set_config config now row) = Profile.id row.
Proof. reflexivity. Qed.

Lemma set_state_id (active' : option bool) (status error : string)
    (refreshed anchor : option timestamp) (now : timestamp) (row : StoredProfile) :
  Profile.id (set_state active' status error refreshed anchor now row) = Profile.id row.
Proof. reflexivity. Qed.


(** An [UPDATE profiles ... WHERE id = ?] that leaves the key alone: the
    row read back is the old row with the [SET] clause applied, the other
    rows and all feed items are as before. *)
Lemma update_profiles_where_id_spec (db : Database) (profile_id' : Z)
    (set : StoredProfile -> StoredProfile) (profile : StoredProfile) :
  (forall row, Profile.id (set row) = Profile.id row) ->
  (forall row, Profile.item_count (set row) = Profile.item_count row) ->
  get_profile_by_id db profile_id' = Some profile ->
  let db' := update_profiles_where_id db profile_id' set in
  feed_items db' = feed_items db
  /\ (forall other, other <> profile_id' ->
        get_profile_by_id db' other = get_profile_by_id db other)
  /\ exists row,
       find (fun r => (Profile.id r =? profile_id')%Z) (profiles db) = Some row
       /\ profile = profile_from_row db row
       /\ get_profile_by_id db' profile_id' = Some (profile_from_row db (set row)).
Proof.
  intros Hid Hcount Hget db'. split; [reflexivity|]. split.
  - intros other Hne. unfold get_profile_by_id, db'. cbn [profiles update_profiles_where_id].
    rewrite (find_update_other_id _ _ _ _ Hid Hne).
    destruct (find _ (profiles db)); reflexivity.
  - unfold get_profile_by_id in Hget.
    destruct (find _ (profiles db)) as [row|] eqn:Hfind; [|discriminate].
    exists row. split; [reflexivity|]. split; [now injection Hget|].
    unfold get_profile_by_id, db'. cbn [profiles update_profiles_where_id].
    rewrite (find_update_where_id _ _ _ Hid), Hfind. reflexivity.
Qed.

(** ** Due times *)

Lemma should_refresh_unfold (profile : StoredProfile) (now : Z) :
  should_refresh profile now =
  Profile.active profile
  && negb (Profile.refresh_interval_minutes profile =? 0)%Z
  && match due_base profile with
     | Some base =>
         (base + minutes (Profile.refresh_interval_minutes profile) <=? now)%Z
     | None => false
     end.
Proof.
  unfold should_refresh, due_base.
  destruct (Profile.active profile); [|reflexivity].
  destruct (Profile.refresh_interval_minutes profile =? 0)%Z; [reflexivity|].
  destruct (Profile.last_refreshed_at profile), (Profile.refresh_anchor_at profile),
    (Profile.created_at profile); reflexivity.
Qed.

Lemma find_fresh_id (rows : list StoredProfile) (row : StoredProfile) :
  Forall (fun r => (Profile.id r < Profile.id row)%Z) rows ->
  find (fun r => (Profile.id r =? Profile.id row)%Z) (rows ++ [row]) = Some row.
Proof.
  induction 1 as [|r rows Hr _ IH]; simpl.
  - now rewrite Z.eqb_refl.
  - assert (E : (Profile.id r =? Profile.id row)%Z = false) by (apply Z.eqb_neq; lia).
    now rewrite E.
Qed.

(** C4.  [should_refresh] answers true exactly when the profile is active,
    its interval is positive and the clock has reached the due base plus the
    interval, the due base being the later of the non-empty values among
    [last_refreshed_at] and [refresh_anchor_at], or [created_at] when both
    are empty.  It answers false whatever the clock reads when the interval
    is 0 and when the three timestamps are empty, and it answers false for a
    profile just created, until its interval has passed.  The interval is
    not negative, as the configuration requires. *)
Theorem should_refresh_spec (profile : StoredProfile) (now : Z) :
  (0 <= Profile.refresh_interval_minutes profile)%Z ->
  (should_refresh profile now = true <->
   Profile.active profile = true
   /\ (0 < Profile.refresh_interval_minutes profile)%Z
   /\ exists base,
        due_base profile = Some base
        /\ (base + minutes (Profile.refresh_interval_minutes profile) <= now)%Z)
  /\ (Profile.refresh_interval_minutes profile = 0%Z ->
      forall t, should_refresh profile t = false)
  /\ (Profile.last_refreshed_at profile = None ->
      Profile.refresh_anchor_at profile = None ->
      Profile.created_at profile = None ->
      forall t, should_refresh profile t = false)
  /\ (forall db config token created,
        ids_below_next db ->
        snd (create_profile db config now token) = Ok created ->
        (0 <= refresh_interval_minutes config)%Z ->
        should_refresh created now = false
        /\ forall t, (t < now + minutes (refresh_interval_minutes config))%Z ->
                     should_refresh created t = false).
Proof.
  intros Hnonneg. split; [|split; [|split]].
  - rewrite should_refresh_unfold, !andb_true_iff, negb_true_iff, Z.eqb_neq.
    split.
    + intros [[Ha Hi] Hd]. split; [exact Ha|]. split; [lia|].
      destruct (due_base profile) as [base|]; [|discriminate].
      exists base. split; [reflexivity|]. now apply Z.leb_le.
    + intros (Ha & Hi & base & Hb & Hd). rewrite Hb. repeat split; auto; [lia|].
      now apply Z.leb_le.
  - intros Hzero t. rewrite should_refresh_unfold, Hzero.
    now rewrite andb_false_r.
  - intros Hr Ha Hc t. rewrite should_refresh_unfold. unfold due_base.
    rewrite Hr, Ha, Hc. now rewrite andb_false_r.
  - intros db config token created Hwf Hcreate Hint.
    unfold create_profile in Hcreate. cbn [snd] in Hcreate.
    unfold get_profile_by_id in Hcreate. cbn [profiles] in Hcreate.
    match type of Hcreate with
    | context [find _ (profiles db ++ [?row])] =>
        pose proof (find_fresh_id (profiles db) row Hwf) as Hfind
    end.
    cbn [Profile.id] in Hfind. rewrite Hfind in Hcreate. cbn [option_map] in Hcreate.
    injection Hcreate as <-.
    split; [|intros t Ht]; rewrite should_refresh_unfold; unfold due_base;
      cbn [Profile.active Profile.refresh_interval_minutes Profile.last_refreshed_at
           Profile.refresh_anchor_at Profile.created_at profile_from_row utcnow_text
           andb];
      (destruct (refresh_interval_minutes config =? 0)%Z eqn:E; [reflexivity|]);
      cbn [negb]; apply Z.leb_gt; [|exact Ht].
    apply Z.eqb_neq in E. unfold minutes. lia.
Qed.

(** C4, witness: a profile created at 1000 and refreshed hourly is due one
    hour later, and not a microsecond before. *)
Lemma should_refresh_spec_witness :
  snd (create_profile Store.empty Store.hourly 1000 "token-1") = Ok Store.created
  /\ should_refresh Store.created (1000 + minutes 60) = true
  /\ should_refresh Store.created (1000 + minutes 60 - 1) = false.
Proof.
  split; [reflexivity|]. split; [|reflexivity].
  apply (proj1 (should_refresh_spec Store.created (1000 + minutes 60)
                  ltac:(simpl; lia))).
  split; [reflexivity|]. split; [reflexivity|].
  exists 1000%Z. split; [reflexivity | simpl; lia].
Defined.

(** ** Editing, enabling and disabling *)

(** C10.  [update_profile] on an existing profile returns the profile read
    back from the store: its configuration is the new one, [last_status] is
    idle and [last_error] empty, and [feed_token], [active],
    [last_refreshed_at], [refresh_anchor_at], [created_at] and the number of
    stored items are as before ([updated_at] is stamped).  The stored feed
    items and the other profiles are untouched. *)
Theorem update_profile_frame (db : Database) (profile_id' : Z) (config : FeedRequest)
    (now : Z) (profile : StoredProfile) :
  get_profile_by_id db profile_id' = Some profile ->
  let db' := fst (update_profile db profile_id' config now) in
  feed_items db' = feed_items db
  /\ (forall other, other <> profile_id' ->
        get_profile_by_id db' other = get_profile_by_id db other)
  /\ exists updated,
       snd (update_profile db profile_id' config now) = Ok updated
       /\ get_profile_by_id db' profile_id' = Some updated
       /\ to_feed_request updated = config
       /\ Profile.last_status updated = "idle"
       /\ Profile.last_error updated = EmptyString
       /\ same_identity profile updated
       /\ Profile.active updated = Profile.active profile
       /\ Profile.last_refreshed_at updated = Profile.last_refreshed_at profile
       /\ Profile.refresh_anchor_at updated = Profile.refresh_anchor_at profile
       /\ Profile.updated_at updated = Some now.
Proof.
  intros Hget db'.
  assert (Hdb : db' = update_profiles_where_id db profile_id'
                        (set_config config (utcnow_text now))).
  { subst db'. unfold update_profile. now rewrite Hget. }
  assert (Hres : snd (update_profile db profile_id' config now)
                 = match get_profile_by_id db' profile_id' with
                   | Some p => Ok p
                   | None => Raise (RuntimeError "Failed to load the updated profile.")
                   end).
  { rewrite Hdb. unfold update_profile. now rewrite Hget. }
  clearbody db'. subst db'.
  destruct (update_profiles_where_id_spec db profile_id' (set_config config (utcnow_text now))
              profile (set_config_id _ _) (fun _ => eq_refl) Hget)
    as (Hitems & Hother & row & _ & -> & Hback).
  split; [exact Hitems|]. split; [exact Hother|].
  exists (profile_from_row db (set_config config (utcnow_text now) row)).
  rewrite Hres, Hback.
  repeat split; try reflexivity. now destruct config.
Qed.

(** C10, witness: editing the one profile of the store. *)
Lemma update_profile_frame_witness :
  exists updated,
    snd (update_profile Store.with_items 1
           (Reference.request ".row" ".title" ".title a" "premium" 20) 2000)
    = Ok updated
    /\ Profile.last_status updated = "idle"
    /\ Profile.refresh_anchor_at updated = Some 1000%Z
    /\ Profile.item_count updated = 2.
Proof.
  destruct (update_profile_frame Store.with_items 1
              (Reference.request ".row" ".title" ".title a" "premium" 20) 2000
              (profile_from_row Store.with_items Store.created) eq_refl)
    as (_ & _ & updated & Hr & _ & _ & Hs & _ & (_ & _ & _ & Hc) & _ & _ & Ha & _).
  exists updated. repeat split; assumption.
Defined.

(** C9.  Disabling an existing profile makes it inactive with status
    disabled and an empty [last_error]; its [last_refreshed_at],
    [refresh_anchor_at] and [created_at] stay ([updated_at] is stamped), and
    [should_refresh] is false from then on.  Enabling makes it active with
    status idle and an empty [last_error] and sets [refresh_anchor_at] to
    now: [should_refresh] is false right away, and with no refresh recorded
    later than now the profile is due exactly from now plus its interval.
    Configuration and stored items stay in both cases.  The interval is not
    negative, as the configuration requires. *)
Theorem set_profile_active_spec (db : Database) (profile_id' : Z) (active' : bool)
    (now : Z) (profile : StoredProfile) :
  get_profile_by_id db profile_id' = Some profile ->
  (0 <= Profile.refresh_interval_minutes profile)%Z ->
  let db' := fst (set_profile_active db profile_id' active' now) in
  feed_items db' = feed_items db
  /\ exists updated,
       snd (set_profile_active db profile_id' active' now) = Ok updated
       /\ get_profile_by_id db' profile_id' = Some updated
       /\ Profile.active updated = active'
       /\ Profile.last_error updated = EmptyString
       /\ same_identity profile updated
       /\ to_feed_request updated = to_feed_request profile
       /\ Profile.last_refreshed_at updated = Profile.last_refreshed_at profile
       /\ Profile.updated_at updated = Some now
       /\ (if active' then
             Profile.last_status updated = "idle"
             /\ Profile.refresh_anchor_at updated = Some now
             /\ should_refresh updated now = false
             /\ ((forall refreshed, Profile.last_refreshed_at profile = Some refreshed ->
                                    (refreshed <= now)%Z) ->
                 forall t,
                   should_refresh updated t = true <->
                   (0 < Profile.refresh_interval_minutes profile)%Z
                   /\ (now + minutes (Profile.refresh_interval_minutes profile) <= t)%Z)
           else
             Profile.last_status updated = "disabled"
             /\ Profile.refresh_anchor_at updated = Profile.refresh_anchor_at profile
             /\ forall t, should_refresh updated t = false).
Proof.
  intros Hget Hint db'.
  set (set := if active'
              then set_state (Some true) "idle" EmptyString None
                     (Some (utcnow_text now)) (utcnow_text now)
              else set_state (Some false) "disabled" EmptyString None None
                     (utcnow_text now)).
  assert (Hdb : db' = update_profiles_where_id db profile_id' set).
  { subst db' set. unfold set_profile_active. rewrite Hget. now destruct active'. }
  assert (Hres : snd (set_profile_active db profile_id' active' now)
                 = match get_profile_by_id db' profile_id' with
                   | Some p => Ok p
                   | None => Raise (RuntimeError "Failed to load the updated profile.")
                   end).
  { rewrite Hdb. subst set. unfold set_profile_active. rewrite Hget.
    now destruct active'. }
  clearbody db'. subst db'.
  assert (Hid : forall row, Profile.id (set row) = Profile.id row).
  { intros row. unfold set. now destruct active'. }
  assert (Hcount : forall row, Profile.item_count (set row) = Profile.item_count row).
  { intros row. unfold set. now destruct active'. }
  destruct (update_profiles_where_id_spec db profile_id' set profile Hid Hcount Hget)
    as (Hitems & _ & row & _ & -> & Hback).
  split; [exact Hitems|].
  exists (profile_from_row db (set row)).
  rewrite Hres, Hback.
  cbn [Profile.refresh_interval_minutes profile_from_row] in Hint.
  unfold set. destruct active'.
  - split; [reflexivity|]. split; [reflexivity|]. split; [reflexivity|].
    split; [reflexivity|]. split; [repeat split|]. split; [reflexivity|].
    split; [reflexivity|]. split; [reflexivity|]. split; [reflexivity|].
    split; [reflexivity|]. split.
    + rewrite should_refresh_unfold. unfold due_base. cbn.
      destruct (Profile.refresh_interval_minutes row =? 0)%Z eqn:E; [reflexivity|].
      apply Z.eqb_neq in E. cbn.
      destruct (Profile.last_refreshed_at row); apply Z.leb_gt; unfold minutes; lia.
    + intros Hpast t. rewrite should_refresh_unfold. unfold due_base. cbn.
      replace (match Profile.last_refreshed_at row with
               | Some r => Some (Z.max r now)
               | None => Some now
               end) with (Some now).
      * rewrite andb_true_iff, negb_true_iff, Z.eqb_neq, Z.leb_le. lia.
      * cbn [Profile.last_refreshed_at profile_from_row] in Hpast.
        destruct (Profile.last_refreshed_at row) as [refreshed|];
          [specialize (Hpast refreshed eq_refl); f_equal; lia | reflexivity].
  - split; [reflexivity|]. split; [reflexivity|]. split; [reflexivity|].
    split; [reflexivity|]. split; [repeat split|]. split; [reflexivity|].
    split; [reflexivity|]. split; [reflexivity|]. split; [reflexivity|].
    split; [reflexivity|]. intros t. rewrite should_refresh_unfold. reflexivity.
Qed.

(** C9, witness: enabling the one profile of the store at the instant 5000. *)
Lemma set_profile_active_spec_witness :
  exists updated,
    snd (set_profile_active Store.with_items 1 true 5000) = Ok updated
    /\ Profile.active updated = true
    /\ Profile.last_status updated = "idle"
    /\ Profile.refresh_anchor_at updated = Some 5000%Z
    /\ should_refresh updated 5000 = false.
Proof.
  destruct (set_profile_active_spec Store.with_items 1 true 5000
              (profile_from_row Store.with_items Store.created) eq_refl
              ltac:(simpl; lia))
    as (_ & updated & Hr & _ & Ha & _ & _ & _ & _ & _ & Hs & Hanchor & Hdue & _).
  exists updated. repeat split; assumption.
Defined.

(** ** A refresh that fails *)

Section RefreshFailure.

Context {Node : Type} {dom : Dom Node} {urls : UrlLib} {world : World Node}.


End RefreshFailure.


(** ** The constraints of the store *)

Lemma map_map_same {A B : Type} (g : A -> B) (f : A -> A) (l : list A) :
  (forall x, g (f x) = g x) -> map g (map f l) = map g l.
Proof. intros H. rewrite map_map. apply map_ext. exact H. Qed.

Lemma NoDup_snoc {A : Type} (l : list A) (x : A) :
  NoDup l -> ~ In x l -> NoDup (l ++ [x]).
Proof.
  intros Hnd Hnin. apply NoDup_app; [exact Hnd | repeat constructor; tauto |].
  intros y Hin [<-|[]]. exact (Hnin Hin).
Qed.

Lemma Forall_filter {A : Type} (P : A -> Prop) (p : A -> bool) (xs : list A) :
  Forall P xs -> Forall P (filter p xs).
Proof.
  intros H. apply Forall_forall. intros x Hin. apply filter_In in Hin as [Hin _].
  rewrite Forall_forall in H. auto.
Qed.

Lemma update_profiles_ids (db : Database) (profile_id' : Z)
    (set : StoredProfile -> StoredProfile) :
  (forall row, Profile.id (set row) = Profile.id row) ->
  map Profile.id (profiles (update_profiles_where_id db profile_id' set))
  = map Profile.id (profiles db).
Proof.
  intros Hid. cbn [profiles update_profiles_where_id]. apply map_map_same.
  intros row. destruct (Profile.id row =? profile_id')%Z; [apply Hid | reflexivity].
Qed.

Lemma update_profiles_consistent (db : Database) (profile_id' : Z)
    (set : StoredProfile -> StoredProfile) :
  (forall row, Profile.id (set row) = Profile.id row) ->
  consistent db -> consistent (update_profiles_where_id db profile_id' set).
Proof.
  intros Hid [H1 H2 H3 H4 H5 H6].
  pose proof (update_profiles_ids db profile_id' set Hid) as Hids.
  split.
  - now rewrite Hids.
  - unfold ids_below_next in *. cbn [profiles update_profiles_where_id next_profile_id].
    apply Forall_map. revert H2. apply Forall_impl. intros row Hrow.
    destruct (Profile.id row =? profile_id')%Z; [now rewrite Hid | exact Hrow].
  - exact H3.
  - exact H4.
  - exact H5.
  - rewrite Hids. exact H6.
Qed.

Lemma upsert_profiles (profile_id' : Z) (db : Database) (entry : FeedEntry) :
  profiles (upsert_feed_item profile_id' db entry) = profiles db.
Proof. unfold upsert_feed_item. now destruct (existsb _ _). Qed.

Lemma upsert_next_profile_id (profile_id' : Z) (db : Database) (entry : FeedEntry) :
  next_profile_id (upsert_feed_item profile_id' db entry) = next_profile_id db.
Proof. unfold upsert_feed_item. now destruct (existsb _ _). Qed.

Lemma upsert_consistent (profile_id' : Z) (db : Database) (entry : FeedEntry) :
  In profile_id' (map Profile.id (profiles db)) ->
  consistent db -> consistent (upsert_feed_item profile_id' db entry).
Proof.
  intros Hin [H1 H2 H3 H4 H5 H6]. unfold upsert_feed_item.
  destruct (existsb _ (feed_items db)) eqn:Hex.
  - split; cbn [profiles feed_items next_profile_id next_item_id]; try assumption.
    + rewrite map_map_same; [exact H3|]. intros r. now destruct (_ && _).
    + apply Forall_map. revert H4. apply Forall_impl. intros r Hr.
      now destruct (_ && _).
    + rewrite map_map_same; [exact H5|]. intros r. now destruct (_ && _).
    + apply Forall_map. revert H6. apply Forall_impl. intros r Hr.
      now destruct (_ && _).
  - split; cbn [profiles feed_items next_profile_id next_item_id]; try assumption.
    + rewrite map_app. cbn [map item_id]. apply NoDup_snoc; [exact H3|].
      intros Hi. apply in_map_iff in Hi as (r & Hr & Hi).
      rewrite Forall_forall in H4. specialize (H4 r Hi). lia.
    + apply Forall_app. split.
      * revert H4. apply Forall_impl. intros r Hr. lia.
      * constructor; [cbn; lia | constructor].
    + rewrite map_app. cbn [map]. apply NoDup_snoc; [exact H5|].
      intros Hi. apply in_map_iff in Hi as (r & Hr & Hi).
      assert (existsb (fun r => (profile_id r =? profile_id')%Z
                                && String.eqb (item_link r) (link entry))
                (feed_items db) = true); [|congruence].
      apply existsb_exists. exists r. split; [exact Hi|].
      unfold item_key in Hr. cbn in Hr. injection Hr as Hp Hl.
      rewrite Hp, Hl, Z.eqb_refl, String.eqb_refl. reflexivity.
    + apply Forall_app. split; [exact H6|]. constructor; [exact Hin | constructor].
Qed.

Lemma fold_upsert_profiles (profile_id' : Z) (entries : list FeedEntry) (db : Database) :
  profiles (fold_left (upsert_feed_item profile_id') entries db) = profiles db.
Proof.
  revert db; induction entries as [|e es IH]; intros db; [reflexivity|].
  cbn [fold_left]. now rewrite IH, upsert_profiles.
Qed.

Lemma fold_upsert_consistent (profile_id' : Z) (entries : list FeedEntry) (db : Database) :
  In profile_id' (map Profile.id (profiles db)) ->
  consistent db -> consistent (fold_left (upsert_feed_item profile_id') entries db).
Proof.
  revert db; induction entries as [|e es IH]; intros db Hin Hc; [exact Hc|].
  cbn [fold_left]. apply IH.
  - now rewrite upsert_profiles.
  - now apply upsert_consistent.
Qed.

Lemma get_profile_by_id_In (db : Database) (profile_id' : Z) (profile : StoredProfile) :
  get_profile_by_id db profile_id' = Some profile ->
  In profile_id' (map Profile.id (profiles db)).
Proof.
  unfold get_profile_by_id.
  destruct (find _ (profiles db)) as [row|] eqn:Hfind; [|discriminate].
  intros _. apply find_some in Hfind as [Hin H]. apply Z.eqb_eq in H.
  apply in_map_iff. now exists row.
Qed.

Lemma delete_feed_items_consistent (db : Database) (profile_id' : Z) :
  consistent db -> consistent (delete_feed_items_where_profile_id db profile_id').
Proof.
  intros [H1 H2 H3 H4 H5 H6].
  split; cbn [profiles feed_items next_profile_id next_item_id
              delete_feed_items_where_profile_id];
    auto using NoDup_map_filter, Forall_filter.
Qed.

Lemma delete_profile_consistent (db : Database) (profile_id' : Z) :
  consistent db -> consistent (fst (delete_profile db profile_id')).
Proof.
  intros Hc. unfold delete_profile.
  destruct (get_profile_by_id db profile_id'); [|exact Hc]. cbn [fst].
  destruct Hc as [H1 H2 H3 H4 H5 H6].
  split; cbn [profiles feed_items next_profile_id next_item_id
              delete_feed_items_where_profile_id delete_profiles_where_id];
    auto using NoDup_map_filter, Forall_filter.
  - unfold ids_below_next in *.
    cbn [profiles next_profile_id delete_feed_items_where_profile_id
         delete_profiles_where_id].
    now apply Forall_filter.
  - apply Forall_forall. intros r Hr. apply filter_In in Hr as [Hr Hne].
    rewrite Forall_forall in H6. specialize (H6 r Hr).
    apply in_map_iff in H6 as (row & Hrow & Hin).
    apply in_map_iff. exists row. split; [exact Hrow|].
    apply filter_In. split; [exact Hin|]. now rewrite Hrow.
Qed.

Lemma purge_feed_items_consistent (db : Database) (profile_id' now : Z) :
  consistent db -> consistent (fst (purge_feed_items db profile_id' now)).
Proof.
  intros Hc. unfold purge_feed_items.
  destruct (get_profile_by_id db profile_id'); [|exact Hc]. cbn [fst].
  apply update_profiles_consistent; [reflexivity|].
  now apply delete_feed_items_consistent.
Qed.

Lemma create_profile_consistent (db : Database) (config : FeedRequest) (now : Z)
    (token : string) :
  consistent db -> consistent (fst (create_profile db config now token)).
Proof.
  intros [H1 H2 H3 H4 H5 H6]. unfold create_profile. cbn [fst].
  unfold ids_below_next in *.
  split; cbn [profiles feed_items next_profile_id next_item_id]; try assumption.
  - rewrite map_app. cbn [map Profile.id]. apply NoDup_snoc; [exact H1|].
    intros Hi. apply in_map_iff in Hi as (row & Hrow & Hi).
    rewrite Forall_forall in H2. specialize (H2 row Hi). lia.
  - unfold ids_below_next. cbn [profiles next_profile_id].
    apply Forall_app. split.
    + revert H2. apply Forall_impl. intros row Hrow. lia.
    + constructor; [cbn; lia | constructor].
  - revert H6. apply Forall_impl. intros r Hr. rewrite map_app.
    apply in_or_app. now left.
Qed.

Lemma update_profile_consistent (db : Database) (profile_id' : Z) (config : FeedRequest)
    (now : Z) :
  consistent db -> consistent (fst (update_profile db profile_id' config now)).
Proof.
  intros Hc. unfold update_profile.
  destruct (get_profile_by_id db profile_id'); [|exact Hc]. cbn [fst].
  now apply update_profiles_consistent.
Qed.

Lemma set_profile_active_consistent (db : Database) (profile_id' : Z) (active' : bool)
    (now : Z) :
  consistent db -> consistent (fst (set_profile_active db profile_id' active' now)).
Proof.
  intros Hc. unfold set_profile_active.
  destruct (get_profile_by_id db profile_id'); [|exact Hc]. cbn [fst].
  destruct active'; now apply update_profiles_consistent.
Qed.

Section RefreshConsistent.

Context {Node : Type} {dom : Dom Node} {urls : UrlLib} {world : World Node}.

Lemma refresh_profile_consistent (db : Database) (profile_id' now extract_now : Z) :
  consistent db -> consistent (fst (refresh_profile db profile_id' now extract_now)).
Proof.
  intros Hc. unfold refresh_profile.
  destruct (get_profile_by_id db profile_id') as [profile|] eqn:Hget; [|exact Hc].
  destruct (negb (Profile.active profile)); [exact Hc|].
  destruct (outcome _) as [entries|exc]; cbn [fst].
  - apply update_profiles_consistent; [reflexivity|].
    apply fold_upsert_consistent; [|exact Hc].
    eapply get_profile_by_id_In, Hget.
  - now apply update_profiles_consistent.
Qed.

(** X1.  Every operation that writes the store keeps the constraints of
    its schema: creating, editing, enabling or disabling, deleting, purging
    and refreshing a profile lead from a consistent store to a consistent
    store.  Profile ids and item ids stay unique and below their
    AUTOINCREMENT counters, no two feed items share a profile and a link,
    and every feed item belongs to a stored profile. *)
Theorem writes_keep_the_store_consistent (db : Database) (profile_id' : Z)
    (config : FeedRequest) (token : string) (active' : bool) (now extract_now : Z) :
  consistent db ->
  consistent (fst (create_profile db config now token))
  /\ consistent (fst (update_profile db profile_id' config now))
  /\ consistent (fst (set_profile_active db profile_id' active' now))
  /\ consistent (fst (delete_profile db profile_id'))
  /\ consistent (fst (purge_feed_items db profile_id' now))
  /\ consistent (fst (refresh_profile db profile_id' now extract_now)).
Proof.
  intros Hc.
  auto 10 using create_profile_consistent, update_profile_consistent,
    set_profile_active_consistent, delete_profile_consistent,
    purge_feed_items_consistent, refresh_profile_consistent.
Qed.

End RefreshConsistent.

(** The example store satisfies the constraints. *)
Lemma example_store_consistent : consistent Store.with_items.
Proof.
  split; cbn; repeat constructor; cbn; intuition (try discriminate; try lia).
Qed.

(** X1, witness: the example store with two items, after a refresh and after a deletion. *)
Lemma writes_keep_the_store_consistent_witness :
  consistent (fst (Store.refresh_online Store.with_items 1 7000 7001))
  /\ consistent (fst (delete_profile Store.with_items 1)).
Proof.
  destruct (@writes_keep_the_store_consistent _ Reference.ref_dom Reference.ref_urls
              (Pages.online Pages.three_topics) Store.with_items 1 Store.hourly
              "token-2" true 7000 7001 example_store_consistent)
    as (_ & _ & _ & Hdelete & _ & Hrefresh).
  split; assumption.
Defined.

(** ** Upserts *)

Lemma upsert_items_of_other (profile_id' other : Z) (db : Database) (entry : FeedEntry) :
  other <> profile_id' ->
  items_of (upsert_feed_item profile_id' db entry) other = items_of db other.
Proof.
  intros Hne. unfold items_of, upsert_feed_item.
  destruct (existsb _ (feed_items db)); cbn [feed_items].
  - induction (feed_items db) as [|r rows IH]; [reflexivity|].
    cbn [map filter]. rewrite IH.
    destruct (profile_id r =? profile_id')%Z eqn:E; cbn [andb]; [|reflexivity].
    apply Z.eqb_eq in E.
    assert (Hr : (profile_id r =? other)%Z = false) by (apply Z.eqb_neq; lia).
    destruct (String.eqb (item_link r) (link entry)); cbn [profile_id]; now rewrite Hr.
  - rewrite filter_app. cbn [filter profile_id].
    assert (Hr : (profile_id' =? other)%Z = false) by (apply Z.eqb_neq; lia).
    rewrite Hr. apply app_nil_r.
Qed.

Lemma fold_upsert_items_of_other (profile_id' other : Z) (entries : list FeedEntry)
    (db : Database) :
  other <> profile_id' ->
  items_of (fold_left (upsert_feed_item profile_id') entries db) other = items_of db other.
Proof.
  intros Hne. revert db; induction entries as [|e es IH]; intros db; [reflexivity|].
  cbn [fold_left]. now rewrite IH, upsert_items_of_other.
Qed.

(** A row of another key is left as it is. *)
Lemma upsert_keeps_other_keys (profile_id' : Z) (db : Database) (entry : FeedEntry)
    (r : FeedItemRow) :
  In r (feed_items db) ->
  profile_id r <> profile_id' \/ item_link r <> link entry ->
  In r (feed_items (upsert_feed_item profile_id' db entry)).
Proof.
  intros Hin Hkey. unfold upsert_feed_item.
  destruct (existsb _ (feed_items db)); cbn [feed_items].
  - apply in_map_iff. exists r. split; [|exact Hin].
    destruct (profile_id r =? profile_id')%Z eqn:E1; [|reflexivity].
    destruct (String.eqb (item_link r) (link entry)) eqn:E2; [|reflexivity].
    apply Z.eqb_eq in E1. apply String.eqb_eq in E2. tauto.
  - apply in_or_app. now left.
Qed.

(** A stored row stays, with its id, its key and its time of discovery. *)
Lemma upsert_keeps_rows (profile_id' : Z) (db : Database) (entry : FeedEntry)
    (r : FeedItemRow) :
  In r (feed_items db) ->
  exists r', In r' (feed_items (upsert_feed_item profile_id' db entry))
             /\ item_id r' = item_id r /\ profile_id r' = profile_id r
             /\ item_link r' = item_link r /\ discovered_at r' = discovered_at r.
Proof.
  intros Hin. unfold upsert_feed_item.
  destruct (existsb _ (feed_items db)); cbn [feed_items].
  - eexists. split; [apply in_map, Hin|]. now destruct (_ && _).
  - exists r. split; [apply in_or_app; now left | tauto].
Qed.

(** After the upsert of an entry a row of its key carries its title and
    summary. *)
Lemma upsert_stores_entry (profile_id' : Z) (db : Database) (entry : FeedEntry) :
  exists r, In r (feed_items (upsert_feed_item profile_id' db entry))
            /\ profile_id r = profile_id' /\ item_link r = link entry
            /\ item_title r = title entry /\ item_summary r = summary entry.
Proof.
  unfold upsert_feed_item.
  destruct (existsb _ (feed_items db)) eqn:Hex; cbn [feed_items].
  - apply existsb_exists in Hex as (r & Hin & Hkey).
    eexists. split; [apply in_map, Hin|]. rewrite Hkey.
    apply andb_true_iff in Hkey as [E1 E2].
    apply Z.eqb_eq in E1. apply String.eqb_eq in E2. now cbn.
  - eexists. split; [apply in_or_app; right; now left|]. now cbn.
Qed.

(** A row after the upsert is a stored row, with at most a new title and
    summary, or the row of the entry, discovered when the entry was
    published. *)
Lemma upsert_rows_from (profile_id' : Z) (db : Database) (entry : FeedEntry)
    (r' : FeedItemRow) :
  In r' (feed_items (upsert_feed_item profile_id' db entry)) ->
  (exists r, In r (feed_items db)
             /\ item_id r' = item_id r /\ profile_id r' = profile_id r
             /\ item_link r' = item_link r /\ discovered_at r' = discovered_at r)
  \/ (profile_id r' = profile_id' /\ item_link r' = link entry
      /\ discovered_at r' = published_at entry /\ item_id r' = next_item_id db).
Proof.
  unfold upsert_feed_item.
  destruct (existsb _ (feed_items db)); cbn [feed_items]; intros Hin.
  - left. apply in_map_iff in Hin as (r & <- & Hin). exists r.
    split; [exact Hin|]. now destruct (_ && _).
  - apply in_app_or in Hin as [Hin|[<-|[]]].
    + left. exists r'. tauto.
    + right. now cbn.
Qed.

Lemma fold_upsert_keeps_other_keys (profile_id' : Z) (entries : list FeedEntry)
    (db : Database) (r : FeedItemRow) :
  In r (feed_items db) ->
  (forall e, In e entries -> profile_id r <> profile_id' \/ item_link r <> link e) ->
  In r (feed_items (fold_left (upsert_feed_item profile_id') entries db)).
Proof.
  revert db; induction entries as [|e es IH]; intros db Hin Hkeys; [exact Hin|].
  cbn [fold_left]. apply IH.
  - apply upsert_keeps_other_keys; [exact Hin|]. apply Hkeys. now left.
  - intros e' He'. apply Hkeys. now right.
Qed.

Lemma fold_upsert_keeps_rows (profile_id' : Z) (entries : list FeedEntry)
    (db : Database) (r : FeedItemRow) :
  In r (feed_items db) ->
  exists r', In r' (feed_items (fold_left (upsert_feed_item profile_id') entries db))
             /\ item_id r' = item_id r /\ profile_id r' = profile_id r
             /\ item_link r' = item_link r /\ discovered_at r' = discovered_at r.
Proof.
  revert db r; induction entries as [|e es IH]; intros db r Hin.
  - exists r. tauto.
  - cbn [fold_left].
    destruct (upsert_keeps_rows profile_id' db e r Hin) as (r1 & Hin1 & H1 & H2 & H3 & H4).
    destruct (IH _ r1 Hin1) as (r' & Hin' & H1' & H2' & H3' & H4').
    exists r'. repeat split; congruence.
Qed.

(** The row of a link carries the title and summary of the last entry of
    that link. *)
Lemma fold_upsert_stores_last (profile_id' : Z) (before after : list FeedEntry)
    (entry : FeedEntry) (db : Database) :
  (forall e, In e after -> link e <> link entry) ->
  exists r,
    In r (feed_items (fold_left (upsert_feed_item profile_id')
                        (before ++ entry :: after) db))
    /\ profile_id r = profile_id' /\ item_link r = link entry
    /\ item_title r = title entry /\ item_summary r = summary entry.
Proof.
  intros Hlast. rewrite fold_left_app. cbn [fold_left].
  destruct (upsert_stores_entry profile_id'
              (fold_left (upsert_feed_item profile_id') before db) entry)
    as (r & Hin & Hp & Hl & Ht & Hs).
  exists r. split; [|tauto].
  apply fold_upsert_keeps_other_keys; [exact Hin|].
  intros e He. right. rewrite Hl. intros Heq. now apply (Hlast e He).
Qed.

Lemma fold_upsert_rows_from (profile_id' : Z) (entries : list FeedEntry)
    (db : Database) (r' : FeedItemRow) :
  In r' (feed_items (fold_left (upsert_feed_item profile_id') entries db)) ->
  (exists r, In r (feed_items db)
             /\ item_id r' = item_id r /\ profile_id r' = profile_id r
             /\ item_link r' = item_link r /\ discovered_at r' = discovered_at r)
  \/ (exists e, In e entries /\ profile_id r' = profile_id' /\ item_link r' = link e
                /\ discovered_at r' = published_at e).
Proof.
  revert db; induction entries as [|e es IH]; intros db Hin.
  - left. exists r'. tauto.
  - cbn [fold_left] in Hin. apply IH in Hin as [(r1 & Hin1 & H1 & H2 & H3 & H4)|Hnew].
    + apply upsert_rows_from in Hin1 as [(r & Hin & G1 & G2 & G3 & G4)|(G1 & G2 & G3 & _)].
      * left. exists r. repeat split; congruence.
      * right. exists e. split; [now left|]. repeat split; congruence.
    + right. destruct Hnew as (e' & He' & Hrest). exists e'. split; [now right | exact Hrest].
Qed.

Lemma items_of_update_profiles (db : Database) (profile_id' other : Z)
    (set : StoredProfile -> StoredProfile) :
  items_of (update_profiles_where_id db profile_id' set) other = items_of db other.
Proof. reflexivity. Qed.

Section RefreshSuccess.

Context {Node : Type} {dom : Dom Node} {urls : UrlLib} {world : World Node}.

Lemma refresh_profile_success (db : Database) (profile_id' now extract_now : Z)
    (profile : StoredProfile) (entries : list FeedEntry) :
  get_profile_by_id db profile_id' = Some profile ->
  Profile.active profile = true ->
  outcome (extract_feed_entries (to_feed_request profile) extract_now) = Ok entries ->
  refresh_profile db profile_id' now extract_now
  = (update_profiles_where_id
       (fold_left (upsert_feed_item profile_id') entries db) profile_id'
       (set_state None "ok" EmptyString (Some (utcnow_text now))
          (Some (utcnow_text now)) (utcnow_text now)),
     (events (extract_feed_entries (to_feed_request profile) extract_now), Ok tt)).
Proof.
  intros Hget Hactive Hrun. unfold refresh_profile.
  rewrite Hget, Hactive. cbn [negb]. now rewrite Hrun.
Qed.

(** X2.  When the extraction of an active profile returns entries,
    [refresh_profile] returns normally, sets [last_status] to ok, clears
    [last_error] and stamps [last_refreshed_at], [refresh_anchor_at] and
    [updated_at] with the current time.  The profile stays active and keeps
    its id, token, creation time and configuration, its [item_count] is the
    number of items now stored for it, and [should_refresh] stays false
    until a full interval after the stamp.  The other profiles and their
    items are as before. *)
Theorem refresh_success_is_recorded (db : Database) (profile_id' : Z)
    (now extract_now : Z) (profile : StoredProfile) (entries : list FeedEntry) :
  get_profile_by_id db profile_id' = Some profile ->
  Profile.active profile = true ->
  outcome (extract_feed_entries (to_feed_request profile) extract_now) = Ok entries ->
  let db' := fst (refresh_profile db profile_id' now extract_now) in
  outcome (snd (refresh_profile db profile_id' now extract_now)) = Ok tt
  /\ (forall other, other <> profile_id' ->
        get_profile_by_id db' other = get_profile_by_id db other
        /\ items_of db' other = items_of db other)
  /\ exists updated,
       get_profile_by_id db' profile_id' = Some updated
       /\ Profile.last_status updated = "ok"
       /\ Profile.last_error updated = EmptyString
       /\ Profile.last_refreshed_at updated = Some now
       /\ Profile.refresh_anchor_at updated = Some now
       /\ Profile.updated_at updated = Some now
       /\ Profile.active updated = true
       /\ Profile.id updated = Profile.id profile
       /\ Profile.feed_token updated = Profile.feed_token profile
       /\ Profile.created_at updated = Profile.created_at profile
       /\ to_feed_request updated = to_feed_request profile
       /\ Profile.item_count updated = List.length (items_of db' profile_id')
       /\ forall t,
            (t < now + minutes (Profile.refresh_interval_minutes profile))%Z ->
            should_refresh updated t = false.
Proof.
  intros Hget Hactive Hrun db'. subst db'.
  rewrite (refresh_profile_success _ _ _ _ _ _ Hget Hactive Hrun). cbn [fst snd outcome].
  set (set := set_state None "ok" EmptyString (Some (utcnow_text now))
                (Some (utcnow_text now)) (utcnow_text now)).
  set (stored := fold_left (upsert_feed_item profile_id') entries db).
  assert (Hprofiles : profiles stored = profiles db) by apply fold_upsert_profiles.
  split; [reflexivity|]. split.
  - intros other Hne.
    assert (Hitems : items_of (update_profiles_where_id stored profile_id' set) other
                     = items_of db other).
    { rewrite items_of_update_profiles. now apply fold_upsert_items_of_other. }
    split; [|exact Hitems].
    unfold get_profile_by_id. cbn [profiles update_profiles_where_id].
    rewrite (find_update_other_id _ _ _ set (fun _ => eq_refl) Hne), Hprofiles.
    destruct (find _ (profiles db)) as [row|] eqn:Hfind; [|reflexivity].
    cbn [option_map]. apply find_some in Hfind as [_ Hid]. apply Z.eqb_eq in Hid.
    unfold profile_from_row. f_equal. f_equal. rewrite Hid. now rewrite Hitems.
  - unfold get_profile_by_id in Hget |- *. cbn [profiles update_profiles_where_id].
    rewrite (find_update_where_id _ _ set (fun _ => eq_refl)), Hprofiles.
    destruct (find _ (profiles db)) as [row|] eqn:Hfind; [|discriminate].
    injection Hget as <-. cbn [option_map]. eexists. split; [reflexivity|].
    cbn [Profile.active profile_from_row] in Hactive.
    apply find_some in Hfind as [_ Hid]. apply Z.eqb_eq in Hid.
    split; [reflexivity|]. split; [reflexivity|]. split; [reflexivity|].
    split; [reflexivity|]. split; [reflexivity|]. split; [exact Hactive|].
    split; [reflexivity|]. split; [reflexivity|]. split; [reflexivity|].
    split; [reflexivity|]. split; [cbn; now rewrite Hid|].
    intros t Ht. rewrite should_refresh_unfold. unfold due_base.
    cbn [set set_state Profile.active Profile.refresh_interval_minutes
         Profile.last_refreshed_at Profile.refresh_anchor_at profile_from_row
         utcnow_text] in *.
    rewrite Z.max_id. apply andb_false_iff. right. now apply Z.leb_gt.
Qed.

(** X3.  A successful refresh upserts the extracted entries into the
    profile's items.  Every item stored before is still there with its id,
    its link and its time of discovery; for every link among the entries
    there is an item carrying the title and summary of the last entry with
    that link; and every item of the profile afterwards is an item stored
    before or has the link and publication time of an extracted entry. *)
Theorem refresh_success_upserts_the_entries (db : Database) (profile_id' : Z)
    (now extract_now : Z) (profile : StoredProfile) (entries : list FeedEntry) :
  get_profile_by_id db profile_id' = Some profile ->
  Profile.active profile = true ->
  outcome (extract_feed_entries (to_feed_request profile) extract_now) = Ok entries ->
  let db' := fst (refresh_profile db profile_id' now extract_now) in
  (forall r, In r (items_of db profile_id') ->
     exists r', In r' (items_of db' profile_id')
                /\ item_id r' = item_id r /\ item_link r' = item_link r
                /\ discovered_at r' = discovered_at r)
  /\ (forall before entry after,
        entries = (before ++ entry :: after)%list ->
        (forall e, In e after -> link e <> link entry) ->
        exists r', In r' (items_of db' profile_id')
                   /\ item_link r' = link entry /\ item_title r' = title entry
                   /\ item_summary r' = summary entry)
  /\ (forall r', In r' (items_of db' profile_id') ->
        (exists r, In r (items_of db profile_id') /\ item_id r' = item_id r)
        \/ (exists e, In e entries /\ item_link r' = link e
                      /\ discovered_at r' = published_at e)).
Proof.
  intros Hget Hactive Hrun db'. subst db'.
  rewrite (refresh_profile_success _ _ _ _ _ _ Hget Hactive Hrun). cbn [fst].
  unfold items_of. cbn [feed_items update_profiles_where_id].
  split; [|split].
  - intros r Hr. apply filter_In in Hr as [Hin Hp].
    destruct (fold_upsert_keeps_rows profile_id' entries db r Hin)
      as (r' & Hin' & H1 & H2 & H3 & H4).
    exists r'. split; [|tauto]. apply filter_In. split; [exact Hin'|]. now rewrite H2.
  - intros before entry after -> Hlast.
    destruct (fold_upsert_stores_last profile_id' before after entry db Hlast)
      as (r & Hin & Hp & Hrest).
    exists r. split; [|exact Hrest]. apply filter_In. split; [exact Hin|].
    now apply Z.eqb_eq.
  - intros r' Hr'. apply filter_In in Hr' as [Hin' Hp'].
    apply fold_upsert_rows_from in Hin' as [(r & Hin & H1 & H2 & H3 & H4)|Hnew].
    + left. exists r. split; [|exact H1]. apply filter_In. split; [exact Hin|].
      now rewrite <- H2.
    + right. destruct Hnew as (e & He & _ & Hl & Hd). now exists e.
Qed.

End RefreshSuccess.

(** X2, witness: the three topics are extracted for the profile of the example store, which held two other items. *)
Lemma refresh_success_is_recorded_witness :
  exists updated,
    get_profile_by_id (fst (Store.refresh_online Store.with_items 1 7000 7001)) 1 = Some updated
    /\ Profile.last_status updated = "ok"
    /\ Profile.last_refreshed_at updated = Some 7000%Z
    /\ Profile.item_count updated = 5.
Proof.
  destruct (@refresh_success_is_recorded _ Reference.ref_dom Reference.ref_urls
              (Pages.online Pages.three_topics) Store.with_items 1 7000 7001
              (profile_from_row Store.with_items Store.created) (Pages.three_entries 7001)
              eq_refl eq_refl eq_refl)
    as (_ & _ & updated & Hget & Hstatus & _ & Hstamp & _ & _ & _ & _ & _ & _ & _ & Hcount & _).
  exists updated. repeat split; assumption.
Defined.

(** X3, witness: the second of the three extracted topics is stored with its title. *)
Lemma refresh_success_upserts_the_entries_witness :
  exists r,
    In r (items_of (fst (Store.refresh_online Store.with_items 1 7000 7001)) 1)
    /\ item_link r = "https://example.com/forums/topic/2"
    /\ item_title r = "Package Beta Trial"
    /\ item_summary r = EmptyString.
Proof.
  destruct (@refresh_success_upserts_the_entries _ Reference.ref_dom Reference.ref_urls
              (Pages.online Pages.three_topics) Store.with_items 1 7000 7001
              (profile_from_row Store.with_items Store.created) (Pages.three_entries 7001)
              eq_refl eq_refl eq_refl)
    as (_ & Hstored & _).
  apply (Hstored [Pages.entry "Package Alpha Premium" "https://example.com/forums/topic/1" 7001]
           (Pages.entry "Package Beta Trial" "https://example.com/forums/topic/2" 7001)
           [Pages.entry "Bundle Gamma Premium" "https://example.com/forums/topic/3" 7001]
           eq_refl).
  intros e [<-|[]]. discriminate.
Defined.

(** ** Deleting and purging *)

Lemma find_filter_other (rows : list StoredProfile) (profile_id' other : Z) :
  other <> profile_id' ->
  find (fun row => (Profile.id row =? other)%Z)
       (filter (fun row => negb (Profile.id row =? profile_id')%Z) rows)
  = find (fun row => (Profile.id row =? other)%Z) rows.
Proof.
  intros Hne. induction rows as [|row rows IH]; [reflexivity|].
  cbn [filter find]. destruct (Profile.id row =? profile_id')%Z eqn:E; cbn [negb].
  - apply Z.eqb_eq in E.
    assert (Hrow : (Profile.id row =? other)%Z = false) by (apply Z.eqb_neq; lia).
    now rewrite Hrow.
  - cbn [find]. now rewrite IH.
Qed.

Lemma find_filter_same (rows : list StoredProfile) (profile_id' : Z) :
  find (fun row => (Profile.id row =? profile_id')%Z)
       (filter (fun row => negb (Profile.id row =? profile_id')%Z) rows)
  = None.
Proof.
  induction rows as [|row rows IH]; [reflexivity|].
  cbn [filter]. destruct (Profile.id row =? profile_id')%Z eqn:E; cbn [negb]; [exact IH|].
  cbn [find]. now rewrite E.
Qed.

Lemma items_of_delete_other (db : Database) (profile_id' other : Z) :
  other <> profile_id' ->
  items_of (delete_feed_items_where_profile_id db profile_id') other = items_of db other.
Proof.
  intros Hne. unfold items_of. cbn [feed_items delete_feed_items_where_profile_id].
  induction (feed_items db) as [|r rows IH]; [reflexivity|].
  cbn [filter]. destruct (profile_id r =? profile_id')%Z eqn:E; cbn [negb].
  - apply Z.eqb_eq in E.
    assert (Hr : (profile_id r =? other)%Z = false) by (apply Z.eqb_neq; lia).
    now rewrite Hr.
  - cbn [filter]. now rewrite IH.
Qed.

Lemma items_of_delete_same (db : Database) (profile_id' : Z) :
  items_of (delete_feed_items_where_profile_id db profile_id') profile_id' = [].
Proof.
  unfold items_of. cbn [feed_items delete_feed_items_where_profile_id].
  induction (feed_items db) as [|r rows IH]; [reflexivity|].
  cbn [filter]. destruct (profile_id r =? profile_id')%Z eqn:E; cbn [negb]; [exact IH|].
  cbn [filter]. now rewrite E.
Qed.

(** Reading a profile depends on its row and on its items only. *)
Lemma get_profile_by_id_ext (db db' : Database) (profile_id' : Z) :
  find (fun row => (Profile.id row =? profile_id')%Z) (profiles db')
  = find (fun row => (Profile.id row =? profile_id')%Z) (profiles db) ->
  items_of db' profile_id' = items_of db profile_id' ->
  get_profile_by_id db' profile_id' = get_profile_by_id db profile_id'.
Proof.
  intros Hfind Hitems. unfold get_profile_by_id. rewrite Hfind.
  destruct (find _ (profiles db)) as [row|] eqn:E; [|reflexivity].
  apply find_some in E as [_ Hid]. apply Z.eqb_eq in Hid.
  cbn [option_map]. unfold profile_from_row. now rewrite Hid, Hitems.
Qed.

(** X4.  Deleting a stored profile returns normally, removes the
    profile and all of its feed items, and leaves every other profile and
    its items as they were.  The two id counters do not move, so the deleted
    id is not handed out again. *)
Theorem delete_profile_removes_the_profile_and_its_items (db : Database)
    (profile_id' : Z) (profile : StoredProfile) :
  get_profile_by_id db profile_id' = Some profile ->
  let db' := fst (delete_profile db profile_id') in
  snd (delete_profile db profile_id') = Ok tt
  /\ get_profile_by_id db' profile_id' = None
  /\ items_of db' profile_id' = []
  /\ (forall other, other <> profile_id' ->
        get_profile_by_id db' other = get_profile_by_id db other
        /\ items_of db' other = items_of db other)
  /\ next_profile_id db' = next_profile_id db
  /\ next_item_id db' = next_item_id db.
Proof.
  intros Hget db'. subst db'. unfold delete_profile. rewrite Hget. cbn [fst snd].
  split; [reflexivity|]. split; [|split; [|split; [|split; reflexivity]]].
  - unfold get_profile_by_id.
    cbn [profiles delete_profiles_where_id delete_feed_items_where_profile_id].
    now rewrite find_filter_same.
  - apply (items_of_delete_same db).
  - intros other Hne.
    assert (Hitems : items_of (delete_profiles_where_id
                                 (delete_feed_items_where_profile_id db profile_id')
                                 profile_id') other
                     = items_of db other) by now apply (items_of_delete_other db).
    split; [|exact Hitems]. apply get_profile_by_id_ext; [|exact Hitems].
    cbn [profiles delete_profiles_where_id delete_feed_items_where_profile_id].
    now apply find_filter_other.
Qed.

(** X4, witness: the profile of the example store and its two items. *)
Lemma delete_profile_removes_the_profile_and_its_items_witness :
  get_profile_by_id (fst (delete_profile Store.with_items 1)) 1 = None
  /\ items_of (fst (delete_profile Store.with_items 1)) 1 = [].
Proof.
  destruct (delete_profile_removes_the_profile_and_its_items Store.with_items 1
              (profile_from_row Store.with_items Store.created) eq_refl)
    as (_ & Hgone & Hitems & _).
  split; assumption.
Defined.

(** X5.  Purging a stored profile returns normally and removes all of
    its feed items, so that its [item_count] is 0.  It sets [last_status] to
    idle, clears [last_error] and stamps [updated_at]; the active flag, the
    configuration, [last_refreshed_at] and [refresh_anchor_at] stay, so the
    profile is due exactly when it was before.  The other profiles and their
    items are as before. *)
Theorem purge_feed_items_empties_the_feed (db : Database) (profile_id' now : Z)
    (profile : StoredProfile) :
  get_profile_by_id db profile_id' = Some profile ->
  let db' := fst (purge_feed_items db profile_id' now) in
  snd (purge_feed_items db profile_id' now) = Ok tt
  /\ items_of db' profile_id' = []
  /\ (forall other, other <> profile_id' ->
        get_profile_by_id db' other = get_profile_by_id db other
        /\ items_of db' other = items_of db other)
  /\ exists updated,
       get_profile_by_id db' profile_id' = Some updated
       /\ Profile.item_count updated = 0
       /\ Profile.last_status updated = "idle"
       /\ Profile.last_error updated = EmptyString
       /\ Profile.updated_at updated = Some now
       /\ Profile.active updated = Profile.active profile
       /\ Profile.last_refreshed_at updated = Profile.last_refreshed_at profile
       /\ Profile.refresh_anchor_at updated = Profile.refresh_anchor_at profile
       /\ Profile.id updated = Profile.id profile
       /\ Profile.feed_token updated = Profile.feed_token profile
       /\ Profile.created_at updated = Profile.created_at profile
       /\ to_feed_request updated = to_feed_request profile
       /\ forall t, should_refresh updated t = should_refresh profile t.
Proof.
  intros Hget db'. subst db'. unfold purge_feed_items. rewrite Hget. cbn [fst snd].
  set (set := set_state None "idle" EmptyString None None (utcnow_text now)).
  set (purged := delete_feed_items_where_profile_id db profile_id').
  split; [reflexivity|]. split; [apply (items_of_delete_same db)|]. split.
  - intros other Hne.
    assert (Hitems : items_of (update_profiles_where_id purged profile_id' set) other
                     = items_of db other) by now apply (items_of_delete_other db).
    split; [|exact Hitems]. apply get_profile_by_id_ext; [|exact Hitems].
    cbn [profiles update_profiles_where_id purged delete_feed_items_where_profile_id].
    now apply find_update_other_id.
  - unfold get_profile_by_id in Hget |- *.
    cbn [profiles update_profiles_where_id purged delete_feed_items_where_profile_id].
    rewrite (find_update_where_id _ _ set (fun _ => eq_refl)).
    destruct (find _ (profiles db)) as [row|] eqn:Hfind; [|discriminate].
    injection Hget as <-. cbn [option_map]. eexists. split; [reflexivity|].
    apply find_some in Hfind as [_ Hid]. apply Z.eqb_eq in Hid.
    split.
    { cbn [Profile.item_count profile_from_row set set_state Profile.id].
      rewrite Hid.
      change (items_of (update_profiles_where_id purged profile_id' set) profile_id')
        with (items_of purged profile_id').
      unfold purged. now rewrite items_of_delete_same. }
    repeat (split; [reflexivity|]).
    intros t. reflexivity.
Qed.

(** X5, witness: the two items of the example store. *)
Lemma purge_feed_items_empties_the_feed_witness :
  items_of (fst (purge_feed_items Store.with_items 1 8000)) 1 = []
  /\ exists updated,
       get_profile_by_id (fst (purge_feed_items Store.with_items 1 8000)) 1 = Some updated
       /\ Profile.item_count updated = 0
       /\ Profile.last_status updated = "idle".
Proof.
  destruct (purge_feed_items_empties_the_feed Store.with_items 1 8000
              (profile_from_row Store.with_items Store.created) eq_refl)
    as (_ & Hitems & _ & updated & Hget & Hcount & Hstatus & _).
  split; [exact Hitems|]. exists updated. repeat split; assumption.
Defined.

(** ** Creating *)

Lemma find_fresh_token (rows : list StoredProfile) (row : StoredProfile) :
  (forall r, In r rows -> Profile.feed_token r <> Profile.feed_token row) ->
  find (fun r => String.eqb (Profile.feed_token r) (Profile.feed_token row))
       (rows ++ [row]) = Some row.
Proof.
  induction rows as [|r rows IH]; intros Hfresh; cbn [app find].
  - now rewrite String.eqb_refl.
  - assert (E : String.eqb (Profile.feed_token r) (Profile.feed_token row) = false).
    { apply String.eqb_neq. apply Hfresh. now left. }
    rewrite E. apply IH. intros r' Hr'. apply Hfresh. now right.
Qed.

Lemma find_app_other (rows : list StoredProfile) (row : StoredProfile) (other : Z) :
  other <> Profile.id row ->
  find (fun r => (Profile.id r =? other)%Z) (rows ++ [row])
  = find (fun r => (Profile.id r =? other)%Z) rows.
Proof.
  intros Hne. induction rows as [|r rows IH]; cbn [app find].
  - assert (E : (Profile.id row =? other)%Z = false) by (apply Z.eqb_neq; lia).
    now rewrite E.
  - now rewrite IH.
Qed.

Lemma no_items_of_unissued_id (db : Database) :
  consistent db -> items_of db (next_profile_id db) = [].
Proof.
  intros [_ H2 _ _ _ H6]. unfold items_of.
  induction (feed_items db) as [|r rows IH]; [reflexivity|].
  inversion H6 as [|? ? Hr Hrows]; subst. cbn [filter]. rewrite (IH Hrows).
  apply in_map_iff in Hr as (row & Hrow & Hin).
  unfold ids_below_next in H2. rewrite Forall_forall in H2. specialize (H2 row Hin).
  assert (E : (profile_id r =? next_profile_id db)%Z = false) by (apply Z.eqb_neq; lia).
  now rewrite E.
Qed.

(** X6.  In a consistent store, [create_profile] with a token no
    profile uses returns a profile with the next id.  It is found again by
    its id and by its token, its configuration is the submitted request, it
    is active and idle with no error, never refreshed, anchored and created
    at the current time, and has no items.  The items and the other profiles
    are as before.  The new profile is due exactly from one interval after
    its creation on, and never when its interval is 0. *)
Theorem create_profile_stores_the_request (db : Database) (config : FeedRequest)
    (now : Z) (token : string) :
  consistent db ->
  (forall row, In row (profiles db) -> Profile.feed_token row <> token) ->
  let db' := fst (create_profile db config now token) in
  exists profile,
    snd (create_profile db config now token) = Ok profile
    /\ Profile.id profile = next_profile_id db
    /\ get_profile_by_id db' (Profile.id profile) = Some profile
    /\ get_profile_by_token db' token = Some profile
    /\ to_feed_request profile = config
    /\ Profile.feed_token profile = token
    /\ Profile.active profile = true
    /\ Profile.last_status profile = "idle"
    /\ Profile.last_error profile = EmptyString
    /\ Profile.last_refreshed_at profile = None
    /\ Profile.refresh_anchor_at profile = Some now
    /\ Profile.created_at profile = Some now
    /\ Profile.updated_at profile = Some now
    /\ Profile.item_count profile = 0
    /\ feed_items db' = feed_items db
    /\ (forall other, other <> next_profile_id db ->
          get_profile_by_id db' other = get_profile_by_id db other)
    /\ (forall t, should_refresh profile t = true <->
                  refresh_interval_minutes config <> 0%Z
                  /\ (now + minutes (refresh_interval_minutes config) <= t)%Z).
Proof.
  intros Hc Htoken db'. subst db'. unfold create_profile. cbn [fst snd].
  match goal with
  | |- context [(profiles db ++ [?r])%list] => set (row := r)
  end.
  match goal with
  | |- context [get_profile_by_id ?d _] => set (db' := d)
  end.
  assert (Hitems : items_of db' (next_profile_id db) = []).
  { apply (no_items_of_unissued_id db Hc). }
  assert (Hget : get_profile_by_id db' (next_profile_id db)
                 = Some (profile_from_row db' row)).
  { unfold get_profile_by_id. cbn [profiles db'].
    change (next_profile_id db) with (Profile.id row) at 1.
    rewrite find_fresh_id; [reflexivity|]. apply Hc. }
  rewrite Hget. exists (profile_from_row db' row).
  split; [reflexivity|]. split; [reflexivity|]. split; [exact Hget|]. split.
  { unfold get_profile_by_token. cbn [profiles db'].
    change token with (Profile.feed_token row) at 1.
    rewrite find_fresh_token; [reflexivity|]. exact Htoken. }
  split; [now destruct config|].
  do 8 (split; [reflexivity|]).
  split; [cbn [profile_from_row Profile.item_count Profile.id row]; now rewrite Hitems|].
  split; [reflexivity|]. split.
  - intros other Hne. apply get_profile_by_id_ext; [|reflexivity].
    cbn [profiles db']. now apply find_app_other.
  - intros t. rewrite should_refresh_unfold. unfold due_base. cbn.
    rewrite andb_true_iff, negb_true_iff, Z.eqb_neq, Z.leb_le. tauto.
Qed.

(** X6, witness: a second profile in the example store. *)
Lemma create_profile_stores_the_request_witness :
  exists profile,
    snd (create_profile Store.with_items Store.hourly 9000 "token-2") = Ok profile
    /\ Profile.id profile = 2%Z
    /\ get_profile_by_token
         (fst (create_profile Store.with_items Store.hourly 9000 "token-2")) "token-2"
       = Some profile
    /\ to_feed_request profile = Store.hourly.
Proof.
  destruct (create_profile_stores_the_request Store.with_items Store.hourly 9000 "token-2"
              example_store_consistent)
    as (profile & Hr & Hid & _ & Htoken & Hconfig & _).
  { intros row [<-|[]]. discriminate. }
  exists profile. repeat split; assumption.
Defined.

(** ** Listing *)

Lemma insert_in_order_perm {A : Type} (precedes : A -> A -> bool) (x : A) (rows : list A) :
  Permutation (insert_in_order precedes x rows) (x :: rows).
Proof.
  induction rows as [|y rows IH]; cbn [insert_in_order]; [reflexivity|].
  destruct (precedes y x); [|reflexivity].
  rewrite IH. apply perm_swap.
Qed.

Lemma order_by_perm {A : Type} (precedes : A -> A -> bool) (rows : list A) :
  Permutation (order_by precedes rows) rows.
Proof.
  induction rows as [|x rows IH]; [reflexivity|].
  unfold order_by in *. cbn [fold_right].
  rewrite insert_in_order_perm. now constructor.
Qed.

Lemma insert_in_order_sorted {A : Type} (precedes : A -> A -> bool) (R : A -> A -> Prop)
    (x : A) (rows : list A) :
  (forall a b, precedes a b = true -> R a b) ->
  (forall a b, precedes a b = false -> R b a) ->
  Sorted R rows -> Sorted R (insert_in_order precedes x rows).
Proof.
  intros Ht Hf. induction 1 as [|y rows Hs IH Hhd]; cbn [insert_in_order].
  - repeat constructor.
  - destruct (precedes y x) eqn:E.
    + constructor; [exact IH|].
      destruct rows as [|z rows]; cbn [insert_in_order].
      * constructor. now apply Ht.
      * destruct (precedes z x); constructor; [now inversion Hhd | now apply Ht].
    + constructor; [now constructor|]. constructor. now apply Hf.
Qed.

Lemma order_by_sorted {A : Type} (precedes : A -> A -> bool) (R : A -> A -> Prop)
    (rows : list A) :
  (forall a b, precedes a b = true -> R a b) ->
  (forall a b, precedes a b = false -> R b a) ->
  Sorted R (order_by precedes rows).
Proof.
  intros Ht Hf. induction rows as [|x rows IH]; [constructor|].
  unfold order_by in *. cbn [fold_right]. now apply insert_in_order_sorted with (R := R).
Qed.

(** Rows already in order stay as they are. *)
Lemma order_by_in_order {A : Type} (precedes : A -> A -> bool) (rows : list A) :
  StronglySorted (fun a b => precedes b a = false) rows ->
  order_by precedes rows = rows.
Proof.
  induction 1 as [|x rows Hs IH Hall]; [reflexivity|].
  unfold order_by in *. cbn [fold_right]. rewrite IH.
  destruct rows as [|y rows]; [reflexivity|]. cbn [insert_in_order].
  inversion Hall as [|? ? Hy _]; subst. now rewrite Hy.
Qed.

Lemma StronglySorted_firstn {A : Type} (R : A -> A -> Prop) (n : nat) (rows : list A) :
  StronglySorted R rows -> StronglySorted R (firstn n rows).
Proof.
  intros H. revert n. induction H as [|x rows Hs IH Hall]; intros n.
  - rewrite firstn_nil. constructor.
  - destruct n; cbn [firstn]; constructor; [apply IH|].
    apply Forall_forall. intros y Hy. rewrite Forall_forall in Hall.
    apply Hall. eapply In_firstn, Hy.
Qed.

Lemma StronglySorted_map {A B : Type} (R : B -> B -> Prop) (f : A -> B) (rows : list A) :
  StronglySorted (fun a b => R (f a) (f b)) rows -> StronglySorted R (map f rows).
Proof.
  induction 1 as [|x rows Hs IH Hall]; cbn [map]; constructor; [exact IH|].
  apply Forall_map. exact Hall.
Qed.

Lemma sql_limit_length {A : Type} (limit : Z) (rows : list A) :
  (0 <= limit)%Z -> (Z.of_nat (List.length (sql_limit limit rows)) <= limit)%Z.
Proof.
  intros H. unfold sql_limit.
  destruct (limit <? 0)%Z eqn:E; [apply Z.ltb_lt in E; lia|].
  rewrite length_firstn. lia.
Qed.

Lemma sql_limit_all {A : Type} (limit : Z) (rows : list A) :
  (limit < 0)%Z \/ (Z.of_nat (List.length rows) <= limit)%Z ->
  sql_limit limit rows = rows.
Proof.
  intros H. unfold sql_limit. destruct (limit <? 0)%Z eqn:E; [reflexivity|].
  apply Z.ltb_ge in E. apply firstn_all2. lia.
Qed.

Lemma sql_limit_In {A : Type} (limit : Z) (rows : list A) (x : A) :
  In x (sql_limit limit rows) -> In x rows.
Proof.
  unfold sql_limit. destruct (limit <? 0)%Z; [auto | apply In_firstn].
Qed.

Lemma sql_limit_map {A B : Type} (f : A -> B) (limit : Z) (rows : list A) :
  map f (sql_limit limit rows) = sql_limit limit (map f rows).
Proof.
  unfold sql_limit. destruct (limit <? 0)%Z; [reflexivity | symmetry; apply firstn_map].
Qed.

(** X7.  [list_feed_items] returns entries of the profile's stored
    items only, newest first.  With a limit of at least 0 it returns at most
    that many entries; with a negative limit, or one that is at least the
    number of the profile's items, it returns all of them. *)
Theorem list_feed_items_newest_first (db : Database) (profile_id' : Z) (limit : Z) :
  let entries := list_feed_items db profile_id' limit in
  StronglySorted (fun a b => (published_at b <= published_at a)%Z) entries
  /\ (forall e, In e entries ->
        exists r, In r (items_of db profile_id') /\ e = entry_from_row r)
  /\ ((0 <= limit)%Z -> (Z.of_nat (List.length entries) <= limit)%Z)
  /\ ((limit < 0)%Z \/ (Z.of_nat (List.length (items_of db profile_id')) <= limit)%Z ->
      Permutation entries (map entry_from_row (items_of db profile_id'))).
Proof.
  intros entries. subst entries. unfold list_feed_items.
  set (rows := order_by discovered_at_desc_id_asc (items_of db profile_id')).
  assert (Hperm : Permutation rows (items_of db profile_id')) by apply order_by_perm.
  split; [|split; [|split]].
  - apply StronglySorted_map.
    assert (Hs : StronglySorted (fun a b => (discovered_at b <= discovered_at a)%Z) rows).
    { apply Sorted_StronglySorted; [intros a b c; lia|].
      apply order_by_sorted.
      - intros a b H. unfold discovered_at_desc_id_asc in H.
        apply orb_true_iff in H as [H|H]; [apply Z.ltb_lt in H; lia|].
        apply andb_true_iff in H as [H _]. apply Z.eqb_eq in H. lia.
      - intros a b H. unfold discovered_at_desc_id_asc in H.
        apply orb_false_iff in H as [H _]. apply Z.ltb_ge in H. exact H. }
    unfold sql_limit. destruct (limit <? 0)%Z; [exact Hs|].
    now apply StronglySorted_firstn.
  - intros e He. apply in_map_iff in He as (r & <- & Hr). exists r.
    split; [|reflexivity]. apply sql_limit_In in Hr.
    eapply Permutation_in; [exact Hperm | exact Hr].
  - intros Hlimit. rewrite length_map. now apply sql_limit_length.
  - intros Hall. rewrite sql_limit_all.
    + now apply Permutation_map.
    + now rewrite (Permutation_length Hperm).
Qed.

(** ** What an extraction returns *)

Section Extracted.

Context {Node : Type} {dom : Dom Node} {urls : UrlLib} {world : World Node}.

Lemma normalize_topic_link_Ok (source_url' href joined : string) :
  normalize_topic_link source_url' href = Ok joined ->
  joined = urljoin source_url' href
  /\ is_http_scheme (url_scheme joined) = true
  /\ url_netloc joined = url_netloc source_url'.
Proof.
  unfold normalize_topic_link. cbv zeta.
  destruct (is_http_scheme _) eqn:Hs; [|discriminate]. cbn [negb].
  destruct (String.eqb _ _) eqn:Hn; [|discriminate]. cbn [negb].
  intros [= <-]. apply String.eqb_eq in Hn. auto.
Qed.

Lemma build_entry_from_nodes_usable (container : Node)
    (title_node link_node : option Node) (title_text : option string)
    (config : FeedRequest) (now : Z) (e : FeedEntry) :
  build_entry_from_nodes container title_node link_node title_text config now
  = Ok (Some e) ->
  usable_entry config now e.
Proof.
  unfold build_entry_from_nodes.
  destruct title_node; [|discriminate]. destruct link_node; [|discriminate].
  destruct (get_href _) as [href|]; [|discriminate].
  destruct (negb (truthy href)); [discriminate|].
  destruct (normalize_topic_link _ href) as [joined|e'] eqn:Hn; [|discriminate].
  cbn [bind].
  destruct (truthy (or_text _ _)) eqn:Ht; [|discriminate]. cbn [negb].
  intros [= <-]. apply normalize_topic_link_Ok in Hn as (_ & Hs & Hh).
  repeat split; assumption.
Qed.

Variables (config : FeedRequest) (now : Z).
Variables (parsed_filter_rules parsed_exclude_filter_rules : list Filter.tree).

(** What holds of every accepted candidate holds of every entry of the
    primary pass. *)
Lemma item_nodes_loop_Forall (P : FeedEntry -> Prop) (total index : nat)
    (nodes : list Node) (entries es : list FeedEntry) :
  (forall node e, In node nodes -> item_candidate config now node = Ok (Some e) ->
     entry_passes_filters parsed_filter_rules parsed_exclude_filter_rules e = true ->
     P e) ->
  outcome (item_nodes_loop config now parsed_filter_rules parsed_exclude_filter_rules
             total index nodes entries) = Ok es ->
  Forall P entries -> Forall P es.
Proof.
  revert index entries; induction nodes as [|node rest IH]; intros index entries HP.
  - now intros [= <-].
  - assert (HP' : forall node e, In node rest ->
                    item_candidate config now node = Ok (Some e) ->
                    entry_passes_filters parsed_filter_rules
                      parsed_exclude_filter_rules e = true -> P e).
    { intros n e Hin. apply HP. now right. }
    rewrite item_nodes_loop_step.
    destruct (item_candidate config now node) as [[entry|]|e] eqn:Hc; [| |discriminate].
    + destruct (entry_passes_filters _ _ entry) eqn:Hp; [|now apply IH].
      assert (Hall' : Forall P entries -> Forall P (entries ++ [entry])).
      { intros Hall. apply Forall_app. split; [exact Hall|].
        constructor; [|constructor]. apply (HP node entry); auto. now left. }
      destruct (reached_max (entries ++ [entry]) config).
      * intros [= <-]. exact Hall'.
      * intros Hes Hall. apply (IH _ _ HP' Hes (Hall' Hall)).
    + now apply IH.
Qed.

Lemma link_nodes_loop_Forall (P : FeedEntry -> Prop) (total processed : nat)
    (pairs : list (Node * Node)) (entries es : list FeedEntry) (seen_links : list string) :
  (forall pair e, In pair pairs -> link_candidate config now pair = Ok (Some e) ->
     entry_passes_filters parsed_filter_rules parsed_exclude_filter_rules e = true ->
     P e) ->
  outcome (link_nodes_loop config now parsed_filter_rules parsed_exclude_filter_rules
             total processed pairs entries seen_links) = Ok es ->
  Forall P entries -> Forall P es.
Proof.
  revert processed entries seen_links; induction pairs as [|pair rest IH];
    intros processed entries seen_links HP.
  - now intros [= <-].
  - assert (HP' : forall pair e, In pair rest ->
                    link_candidate config now pair = Ok (Some e) ->
                    entry_passes_filters parsed_filter_rules
                      parsed_exclude_filter_rules e = true -> P e).
    { intros n e Hin. apply HP. now right. }
    rewrite link_nodes_loop_step.
    destruct (link_candidate config now pair) as [[entry|]|e] eqn:Hc; [| |discriminate].
    + destruct (negb (seen seen_links entry) && _) eqn:Hp; [|now apply IH].
      apply andb_true_iff in Hp as [_ Hp].
      assert (Hall' : Forall P entries -> Forall P (entries ++ [entry])).
      { intros Hall. apply Forall_app. split; [exact Hall|].
        constructor; [|constructor]. apply (HP pair entry); auto. now left. }
      destruct (reached_max (entries ++ [entry]) config).
      * intros [= <-]. exact Hall'.
      * intros Hes Hall. apply (IH _ _ _ HP' Hes (Hall' Hall)).
    + now apply IH.
Qed.

End Extracted.

Section ExtractedEntries.

Context {Node : Type} {dom : Dom Node} {urls : UrlLib} {world : World Node}.

(** A successful extraction, taken apart: the page came in, both rule
    sets parsed, one of the two passes returned entries, and the result is
    what is left of them after the filters and the cap. *)
Lemma extract_feed_entries_Ok (config : FeedRequest) (now : Z) (entries : list FeedEntry) :
  outcome (extract_feed_entries config now) = Ok entries ->
  exists html inc exc pass_entries,
    fetched config = Ok html
    /\ parse_filter_rules (filter_rules config) = Ok inc
    /\ parse_filter_rules (exclude_filter_rules config) = Ok exc
    /\ (outcome (extract_entries_from_item_nodes
                   (select (BeautifulSoup html) (item_selector config)) config now inc exc)
        = Ok pass_entries
        \/ outcome (extract_entries_from_link_collections
                      (select (BeautifulSoup html) (item_selector config)) config now inc exc)
           = Ok pass_entries)
    /\ pass_entries <> []
    /\ entries = slice_to (max_items config) (apply_entry_filters pass_entries inc exc).
Proof.
  rewrite extract_feed_entries_outcome.
  destruct (fetched config) as [html|e]; [|discriminate]. cbn [bind].
  unfold outcome_from_nodes.
  set (nodes := select (BeautifulSoup html) (item_selector config)).
  destruct (negb (nonempty nodes)); [discriminate|].
  destruct (parse_filter_rules (filter_rules config)) as [inc|e]; [|discriminate].
  destruct (parse_filter_rules (exclude_filter_rules config)) as [exc|e]; [|discriminate].
  cbn [bind].
  destruct (outcome (extract_entries_from_item_nodes nodes config now inc exc))
    as [first|e] eqn:Hfirst; [|discriminate].
  cbn [bind].
  assert (Hend : forall pass_entries,
            (if negb (nonempty pass_entries)
             then Raise (ValueError "Matched nodes did not contain usable titles and links.")
             else Ok (slice_to (max_items config)
                        (apply_entry_filters pass_entries inc exc))) = Ok entries ->
            pass_entries <> []
            /\ entries = slice_to (max_items config)
                           (apply_entry_filters pass_entries inc exc)).
  { intros [|e es]; [discriminate|]. cbn [nonempty negb]. intros [= <-].
    split; [discriminate | reflexivity]. }
  destruct (should_use_container_link_fallback nodes first config).
  - destruct (outcome (extract_entries_from_link_collections nodes config now inc exc))
      as [second|e] eqn:Hsecond; [|discriminate].
    cbn [bind]. intros H. apply Hend in H as [Hne ->].
    exists html, inc, exc.
    destruct (List.length first <? List.length second)%nat.
    + exists second. auto 10.
    + exists first. auto 10.
  - cbn [bind]. intros H. apply Hend in H as [Hne ->].
    exists html, inc, exc, first. auto 10.
Qed.

Lemma Forall_final (P : FeedEntry -> Prop) (stop : Z) (entries : list FeedEntry)
    (inc exc : list Filter.tree) :
  Forall P entries -> Forall P (slice_to stop (apply_entry_filters entries inc exc)).
Proof.
  intros H. apply Forall_forall. intros e He. rewrite Forall_forall in H. apply H.
  apply (apply_entry_filters_incl entries inc exc).
  unfold slice_to in He. destruct (stop <? 0)%Z; eapply In_firstn, He.
Qed.

(** What holds of every accepted candidate of either pass holds of every
    entry an extraction returns. *)
Lemma extract_feed_entries_Forall (P : FeedEntry -> Prop) (config : FeedRequest)
    (now : Z) (entries : list FeedEntry) :
  (forall inc exc,
     parse_filter_rules (filter_rules config) = Ok inc ->
     parse_filter_rules (exclude_filter_rules config) = Ok exc ->
     forall container title_node link_node title_text e,
       build_entry_from_nodes container title_node link_node title_text config now
       = Ok (Some e) ->
       entry_passes_filters inc exc e = true -> P e) ->
  outcome (extract_feed_entries config now) = Ok entries ->
  Forall P entries.
Proof.
  intros HP H.
  apply extract_feed_entries_Ok in H
    as (html & inc & exc & pass_entries & _ & Hinc & Hexc & Hpass & _ & ->).
  apply Forall_final. destruct Hpass as [Hpass|Hpass].
  - eapply item_nodes_loop_Forall; [|exact Hpass|constructor].
    intros node e _ Hc Hp. unfold item_candidate in Hc.
    eapply (HP inc exc Hinc Hexc); eassumption.
  - eapply link_nodes_loop_Forall; [|exact Hpass|constructor].
    intros [node link_node] e _ Hc Hp. unfold link_candidate in Hc.
    eapply (HP inc exc Hinc Hexc); eassumption.
Qed.

Lemma extract_feed_entries_usable (config : FeedRequest) (now : Z)
    (entries : list FeedEntry) :
  outcome (extract_feed_entries config now) = Ok entries ->
  Forall (usable_entry config now) entries.
Proof.
  apply extract_feed_entries_Forall.
  intros inc exc _ _ container title_node link_node title_text e He _.
  now apply build_entry_from_nodes_usable in He.
Qed.

Lemma extract_feed_entries_capped (config : FeedRequest) (now : Z)
    (entries : list FeedEntry) :
  outcome (extract_feed_entries config now) = Ok entries ->
  (0 <= max_items config)%Z ->
  (Z.of_nat (List.length entries) <= max_items config)%Z.
Proof.
  intros H Hmax.
  apply extract_feed_entries_Ok in H as (_ & inc & exc & pass_entries & _ & _ & _ & _ & _ & ->).
  unfold slice_to.
  destruct (max_items config <? 0)%Z eqn:E; [apply Z.ltb_lt in E; lia|].
  rewrite length_firstn. lia.
Qed.

(** X8.  Every entry a successful extraction returns has a non-empty
    title, is stamped with the clock reading of the extraction, and links to
    a URL whose scheme is http or https and whose host is the host of the
    source URL. *)
Theorem extracted_entries_are_titled_and_on_site (config : FeedRequest) (now : Z)
    (entries : list FeedEntry) :
  outcome (extract_feed_entries config now) = Ok entries ->
  Forall (fun e =>
            truthy (title e) = true
            /\ published_at e = now
            /\ is_http_scheme (url_scheme (link e)) = true
            /\ url_netloc (link e) = url_netloc (source_url config))
         entries.
Proof. apply extract_feed_entries_usable. Qed.

(** X9.  When an extraction succeeds, both rule sets parsed, and every
    returned entry matches some include rule (when there are include rules)
    and matches no exclude rule.  With [max_items] of at least 0 at most
    [max_items] entries are returned, and with [max_items] of at least 1 the
    result is not empty. *)
Theorem extracted_entries_pass_the_rules_within_the_cap (config : FeedRequest)
    (now : Z) (entries : list FeedEntry) :
  outcome (extract_feed_entries config now) = Ok entries ->
  exists inc exc,
    parse_filter_rules (filter_rules config) = Ok inc
    /\ parse_filter_rules (exclude_filter_rules config) = Ok exc
    /\ Forall (fun e =>
                 (inc = [] \/ entry_matches_any_filter_rule e inc = true)
                 /\ entry_matches_any_filter_rule e exc = false)
              entries
    /\ ((0 <= max_items config)%Z ->
        (Z.of_nat (List.length entries) <= max_items config)%Z)
    /\ ((1 <= max_items config)%Z -> entries <> []).
Proof.
  intros H.
  pose proof (extract_feed_entries_Ok _ _ _ H)
    as (html & inc & exc & pass_entries & _ & Hinc & Hexc & Hpass & Hne & Hfinal).
  exists inc, exc. split; [exact Hinc|]. split; [exact Hexc|].
  assert (Hall : Forall (fun e => entry_passes_filters inc exc e = true) pass_entries).
  { destruct Hpass as [Hpass|Hpass].
    - eapply item_nodes_loop_Forall; [|exact Hpass|constructor]. auto.
    - eapply link_nodes_loop_Forall; [|exact Hpass|constructor]. auto. }
  split; [|split].
  - rewrite Hfinal. apply Forall_final. revert Hall. apply Forall_impl.
    intros e He. unfold entry_passes_filters in He.
    apply andb_true_iff in He as [H1 H2]. split.
    + destruct inc; [now left | right]. exact H1.
    + destruct exc; [reflexivity|]. cbn [nonempty negb orb] in H2.
      now apply negb_true_iff in H2.
  - now apply (extract_feed_entries_capped _ now).
  - intros Hmax. rewrite Hfinal, (apply_entry_filters_all _ _ _ Hall).
    unfold slice_to.
    destruct (max_items config <? 0)%Z eqn:E; [apply Z.ltb_lt in E; lia|].
    destruct pass_entries as [|e es]; [congruence|].
    destruct (Z.to_nat (max_items config)) eqn:En; [lia|]. discriminate.
Qed.

End ExtractedEntries.

(** X8, witness: the three topics of the example page. *)
Lemma extracted_entries_are_titled_and_on_site_witness :
  Forall (fun e =>
            truthy (title e) = true
            /\ published_at e = 7001%Z
            /\ is_http_scheme (Reference.ref_scheme (link e)) = true
            /\ Reference.ref_netloc (link e) = "example.com")
         (Pages.three_entries 7001).
Proof.
  exact (@extracted_entries_are_titled_and_on_site _ Reference.ref_dom Reference.ref_urls
           (Pages.online Pages.three_topics) Store.hourly 7001 (Pages.three_entries 7001)
           eq_refl).
Defined.

(** X9, witness: the page of the filter test, with an include and an exclude rule. *)
Lemma extracted_entries_pass_the_rules_within_the_cap_witness :
  exists entries,
    outcome (Pages.extract (Pages.online Pages.filtered_topics)
               (Pages.with_rules "alpha" "generic") 0) = Ok entries
    /\ Forall (fun e =>
                 entry_matches_any_filter_rule e [TERM "alpha"] = true
                 /\ entry_matches_any_filter_rule e [TERM "generic"] = false) entries
    /\ entries <> [].
Proof.
  eexists. split; [reflexivity|].
  destruct (@extracted_entries_pass_the_rules_within_the_cap _ Reference.ref_dom
              Reference.ref_urls (Pages.online Pages.filtered_topics)
              (Pages.with_rules "alpha" "generic") 0 _ eq_refl)
    as (inc & exc & Hinc & Hexc & Hall & _ & Hne).
  injection Hinc as <-. injection Hexc as <-.
  split; [|apply Hne; cbn; lia].
  revert Hall. apply Forall_impl. intros e [[H|H] H']; [discriminate | now split].
Defined.

Section PrimaryPassOrder.

Context {Node : Type} {dom : Dom Node} {urls : UrlLib} {world : World Node}.

Variables (config : FeedRequest) (now : Z).
Variables (parsed_filter_rules parsed_exclude_filter_rules : list Filter.tree).

Lemma firstn_exact {A : Type} (n : nat) (xs ys : list A) :
  List.length xs = n -> firstn n (xs ++ ys) = xs.
Proof.
  intros <-. rewrite firstn_app, Nat.sub_diag, firstn_all. cbn. apply app_nil_r.
Qed.

Lemma item_nodes_loop_takes_first (total index : nat) (nodes : list Node)
    (entries : list FeedEntry) :
  Forall (fun node => is_ok (item_candidate config now node) = true) nodes ->
  (Z.of_nat (List.length entries) < max_items config)%Z ->
  outcome (item_nodes_loop config now parsed_filter_rules parsed_exclude_filter_rules
             total index nodes entries)
  = Ok (firstn (Z.to_nat (max_items config)) (entries ++ accepted_candidates config now parsed_filter_rules
       parsed_exclude_filter_rules nodes)).
Proof.
  intros Hok. revert index entries.
  induction Hok as [|node rest Hnode _ IH]; intros index entries Hlen.
  - cbn. rewrite app_nil_r, firstn_all2; [reflexivity | lia].
  - rewrite item_nodes_loop_step. unfold accepted_candidates at 1. cbn [flat_map].
    fold (accepted_candidates config now parsed_filter_rules
       parsed_exclude_filter_rules rest).
    destruct (item_candidate config now node) as [[entry|]|e]; [| |discriminate].
    + destruct (entry_passes_filters _ _ entry); [|now apply IH].
      cbn [app]. change (entry :: accepted_candidates config now parsed_filter_rules
       parsed_exclude_filter_rules rest)
        with ([entry] ++ accepted_candidates config now parsed_filter_rules
       parsed_exclude_filter_rules rest)%list.
      rewrite app_assoc.
      destruct (reached_max (entries ++ [entry]) config) eqn:Hmax.
      * unfold reached_max in Hmax. apply Z.leb_le in Hmax.
        rewrite length_app in Hmax. cbn [List.length] in Hmax.
        rewrite firstn_exact; [reflexivity|]. rewrite length_app. cbn. lia.
      * apply IH. unfold reached_max in Hmax. now apply Z.leb_gt in Hmax.
    + now apply IH.
Qed.

(** X10.  With [max_items] of at least 1 and item nodes none of whose
    candidates raises, the primary pass returns the first [max_items] of the
    candidates that pass the rules, in the order of the item nodes. *)
Theorem primary_pass_takes_the_first_accepted (nodes : list Node) :
  (1 <= max_items config)%Z ->
  Forall (fun node => is_ok (item_candidate config now node) = true) nodes ->
  outcome (extract_entries_from_item_nodes nodes config now
             parsed_filter_rules parsed_exclude_filter_rules)
  = Ok (firstn (Z.to_nat (max_items config)) (accepted_candidates config now parsed_filter_rules
       parsed_exclude_filter_rules nodes)).
Proof.
  intros Hmax Hok. unfold extract_entries_from_item_nodes.
  rewrite item_nodes_loop_takes_first; [reflexivity | exact Hok | cbn; lia].
Qed.

End PrimaryPassOrder.

(** X10, witness: three item nodes and a cap of two. *)
Lemma primary_pass_takes_the_first_accepted_witness :
  outcome (@extract_entries_from_item_nodes _ Reference.ref_dom Reference.ref_urls
             Pages.topic_nodes (Reference.request ".topic" "a" "a" EmptyString 2) 7001 [] [])
  = Ok [Pages.entry "Package Alpha Premium" "https://example.com/forums/topic/1" 7001;
        Pages.entry "Package Beta Trial" "https://example.com/forums/topic/2" 7001].
Proof.
  refine (eq_trans
            (@primary_pass_takes_the_first_accepted _ Reference.ref_dom Reference.ref_urls
               (Reference.request ".topic" "a" "a" EmptyString 2) 7001 [] []
               Pages.topic_nodes _ _) eq_refl).
  - cbn. lia.
  - repeat constructor.
Defined.

(** ** A first refresh, read back *)

Lemma fold_upsert_new (profile_id' : Z) (entries : list FeedEntry) (db : Database) :
  NoDup (map link entries) ->
  (forall e r, In e entries -> In r (feed_items db) ->
     profile_id r = profile_id' -> item_link r <> link e) ->
  feed_items (fold_left (upsert_feed_item profile_id') entries db)
  = (feed_items db ++ rows_of_entries profile_id' (next_item_id db) entries)%list.
Proof.
  revert db; induction entries as [|e es IH]; intros db Hnd Hnew.
  - cbn. now rewrite app_nil_r.
  - inversion Hnd as [|? ? Hnin Hnd']; subst. cbn [fold_left rows_of_entries].
    assert (Hex : existsb (fun r => (profile_id r =? profile_id')%Z
                                    && String.eqb (item_link r) (link e))
                    (feed_items db) = false).
    { destruct (existsb _ (feed_items db)) eqn:E; [|reflexivity].
      apply existsb_exists in E as (r & Hin & Hkey).
      apply andb_true_iff in Hkey as [E1 E2].
      apply Z.eqb_eq in E1. apply String.eqb_eq in E2.
      exfalso. apply (Hnew e r); auto. now left. }
    assert (Hup : upsert_feed_item profile_id' db e
                  = {| profiles := profiles db;
                       feed_items :=
                         (feed_items db ++
                          [{| item_id := next_item_id db; profile_id := profile_id';
                              item_title := title e; item_link := link e;
                              item_summary := summary e;
                              discovered_at := published_at e |}])%list;
                       next_profile_id := next_profile_id db;
                       next_item_id := (next_item_id db + 1)%Z |}).
    { unfold upsert_feed_item. now rewrite Hex. }
    rewrite Hup, IH; [cbn [feed_items next_item_id]; now rewrite <- app_assoc | exact Hnd' |].
    cbn [feed_items]. intros e' r He' Hr Hp.
    apply in_app_or in Hr as [Hr|[<-|[]]].
    + apply (Hnew e' r); auto. now right.
    + cbn [item_link]. intros Heq. apply Hnin. rewrite Heq. now apply in_map.
Qed.

Lemma rows_of_entries_items (profile_id' next : Z) (entries : list FeedEntry) :
  filter (fun r => (profile_id r =? profile_id')%Z)
         (rows_of_entries profile_id' next entries)
  = rows_of_entries profile_id' next entries.
Proof.
  revert next; induction entries as [|e es IH]; intros next; [reflexivity|].
  cbn [rows_of_entries filter profile_id]. now rewrite Z.eqb_refl, IH.
Qed.

Lemma rows_of_entries_back (profile_id' next : Z) (entries : list FeedEntry) :
  map entry_from_row (rows_of_entries profile_id' next entries) = entries.
Proof.
  revert next; induction entries as [|e es IH]; intros next; [reflexivity|].
  cbn [rows_of_entries map]. rewrite IH. now destruct e.
Qed.

Lemma rows_of_entries_in_order (profile_id' next t : Z) (entries : list FeedEntry) :
  Forall (fun e => published_at e = t) entries ->
  StronglySorted (fun a b => discovered_at_desc_id_asc b a = false)
    (rows_of_entries profile_id' next entries)
  /\ Forall (fun r => (next <= item_id r)%Z /\ discovered_at r = t)
       (rows_of_entries profile_id' next entries).
Proof.
  intros Hall. revert next.
  induction Hall as [|e es He _ IH]; intros next; cbn [rows_of_entries].
  - split; constructor.
  - destruct (IH (next + 1)%Z) as [Hs Hrows]. split.
    + constructor; [exact Hs|]. revert Hrows. apply Forall_impl.
      intros r [Hid Hd]. unfold discovered_at_desc_id_asc. cbn [discovered_at item_id].
      apply orb_false_iff. split; [apply Z.ltb_ge; lia|].
      apply andb_false_iff. right. apply Z.ltb_ge. lia.
    + constructor; [cbn; split; [lia | exact He]|].
      revert Hrows. apply Forall_impl. intros r [Hid Hd]. split; [lia | exact Hd].
Qed.

Section FirstRefresh.

Context {Node : Type} {dom : Dom Node} {urls : UrlLib} {world : World Node}.

(** X11.  After a successful refresh of an active profile that had no
    items, with extracted entries of pairwise distinct links,
    [list_feed_items] returns the extracted entries in their order, cut at
    the limit; with the profile's [max_items] (at least 0) as the limit it
    returns exactly the extracted entries. *)
Theorem first_refresh_then_list_returns_the_entries (db : Database) (profile_id' : Z)
    (now extract_now : Z) (profile : StoredProfile) (entries : list FeedEntry) :
  get_profile_by_id db profile_id' = Some profile ->
  Profile.active profile = true ->
  items_of db profile_id' = [] ->
  outcome (extract_feed_entries (to_feed_request profile) extract_now) = Ok entries ->
  NoDup (map link entries) ->
  let db' := fst (refresh_profile db profile_id' now extract_now) in
  (forall limit, list_feed_items db' profile_id' limit = sql_limit limit entries)
  /\ ((0 <= Profile.max_items profile)%Z ->
      list_feed_items db' profile_id' (Profile.max_items profile) = entries).
Proof.
  intros Hget Hactive Hnone Hrun Hnd db'. subst db'.
  rewrite (refresh_profile_success _ _ _ _ _ _ Hget Hactive Hrun). cbn [fst].
  assert (Hrows : items_of (update_profiles_where_id
                              (fold_left (upsert_feed_item profile_id') entries db)
                              profile_id'
                              (set_state None "ok" EmptyString (Some (utcnow_text now))
                                 (Some (utcnow_text now)) (utcnow_text now)))
                    profile_id'
                  = rows_of_entries profile_id' (next_item_id db) entries).
  { rewrite items_of_update_profiles. unfold items_of.
    rewrite fold_upsert_new; [|exact Hnd|].
    - rewrite filter_app. fold (items_of db profile_id').
      rewrite Hnone. apply rows_of_entries_items.
    - intros e r _ Hr Hp. exfalso.
      assert (Hin : In r (items_of db profile_id')).
      { apply filter_In. split; [exact Hr | now apply Z.eqb_eq]. }
      now rewrite Hnone in Hin. }
  assert (Hstamp : Forall (fun e => published_at e = extract_now) entries).
  { generalize (extract_feed_entries_usable _ _ _ Hrun).
    apply Forall_impl. unfold usable_entry. tauto. }
  assert (Hlist : forall limit,
            list_feed_items (update_profiles_where_id
                               (fold_left (upsert_feed_item profile_id') entries db)
                               profile_id'
                               (set_state None "ok" EmptyString (Some (utcnow_text now))
                                  (Some (utcnow_text now)) (utcnow_text now)))
              profile_id' limit
            = sql_limit limit entries).
  { intros limit. unfold list_feed_items. rewrite Hrows.
    rewrite order_by_in_order
      by apply (rows_of_entries_in_order _ _ _ _ Hstamp).
    now rewrite sql_limit_map, rows_of_entries_back. }
  split; [exact Hlist|].
  intros Hmax. rewrite Hlist. apply sql_limit_all. right.
  now apply (extract_feed_entries_capped _ _ _ Hrun).
Qed.

End FirstRefresh.

(** X11, witness: the first refresh of the example profile. *)
Lemma first_refresh_then_list_returns_the_entries_witness :
  list_feed_items (fst (Store.refresh_online Store.one_profile 1 7000 7001)) 1 10
  = Pages.three_entries 7001.
Proof.
  destruct (@first_refresh_then_list_returns_the_entries _ Reference.ref_dom
              Reference.ref_urls (Pages.online Pages.three_topics) Store.one_profile
              1 7000 7001 Store.created (Pages.three_entries 7001)
              eq_refl eq_refl eq_refl eq_refl)
    as [_ Hlist].
  { repeat constructor; cbn; intuition discriminate. }
  apply Hlist. cbn. lia.
Defined.

(** ** Page requests *)

Lemma filter_nothing {A : Type} (f : A -> bool) (xs : list A) :
  Forall (fun x => f x = false) xs -> filter f xs = [].
Proof.
  induction 1 as [|x xs Hx _ IH]; [reflexivity|]. cbn [filter]. now rewrite Hx.
Qed.

Lemma emit_progress_no_fetch (title detail : string) :
  Forall no_fetch (events (emit_progress title detail)).
Proof. repeat constructor. Qed.

Lemma io_lift_no_fetch {A : Type} (r : result A) : Forall no_fetch (events (io_lift r)).
Proof. constructor. Qed.

Lemma io_ret_no_fetch {A : Type} (a : A) : Forall no_fetch (events (io_ret a)).
Proof. constructor. Qed.

Lemma io_raise_no_fetch {A : Type} (e : exn) : Forall no_fetch (events (@io_raise A e)).
Proof. constructor. Qed.

Section PageRequests.

Context {Node : Type} {dom : Dom Node} {urls : UrlLib} {world : World Node}.

Lemma item_nodes_loop_no_fetch (config : FeedRequest) (now : Z)
    (inc exc : list Filter.tree) (total index : nat) (nodes : list Node)
    (entries : list FeedEntry) :
  Forall no_fetch (events (item_nodes_loop config now inc exc total index nodes entries)).
Proof.
  revert index entries; induction nodes as [|node rest IH]; intros index entries.
  - constructor.
  - cbn [item_nodes_loop]. apply events_bind_Forall.
    + apply events_when_Forall, emit_progress_no_fetch.
    + intros _. apply events_bind_Forall; [constructor|].
      intros [entry|]; [|apply IH].
      destruct (_ && _); [apply IH|]. destruct (_ && _); [apply IH|].
      destruct (reached_max _ config); [constructor | apply IH].
Qed.

Lemma link_nodes_loop_no_fetch (config : FeedRequest) (now : Z)
    (inc exc : list Filter.tree) (total processed : nat) (pairs : list (Node * Node))
    (entries : list FeedEntry) (seen_links : list string) :
  Forall no_fetch (events (link_nodes_loop config now inc exc total processed pairs
                             entries seen_links)).
Proof.
  revert processed entries seen_links; induction pairs as [|[node link_node] rest IH];
    intros processed entries seen_links.
  - constructor.
  - cbn [link_nodes_loop]. apply events_bind_Forall; [constructor|].
    intros [entry|]; [|apply IH].
    destruct (existsb _ seen_links); [apply IH|].
    destruct (_ && _); [apply IH|]. destruct (_ && _); [apply IH|].
    apply events_bind_Forall.
    + apply events_when_Forall, emit_progress_no_fetch.
    + intros _. destruct (reached_max _ config); [constructor | apply IH].
Qed.

Lemma extract_feed_entries_one_fetch (config : FeedRequest) (now : Z) :
  filter is_fetch (events (extract_feed_entries config now))
  = [FetchPage (fetch_mode config) (source_url config)].
Proof.
  unfold extract_feed_entries. rewrite events_emit_then, events_bind, fetch_html_events.
  destruct (outcome (fetch_html (source_url config) (fetch_mode config))) as [html|e];
    [|reflexivity].
  cbn [filter is_fetch app]. f_equal. apply filter_nothing.
  repeat (apply events_bind_Forall; [apply emit_progress_no_fetch | intros _]).
  destruct (negb (nonempty _)); [apply io_raise_no_fetch|].
  apply events_bind_Forall; [apply emit_progress_no_fetch | intros _].
  apply events_bind_Forall; [apply io_lift_no_fetch | intros inc].
  apply events_bind_Forall; [apply io_lift_no_fetch | intros exc].
  apply events_bind_Forall; [apply emit_progress_no_fetch | intros _].
  apply events_bind_Forall; [apply item_nodes_loop_no_fetch | intros entries].
  apply events_bind_Forall.
  - destruct (should_use_container_link_fallback _ entries config);
      [|apply io_ret_no_fetch].
    apply events_bind_Forall; [apply emit_progress_no_fetch | intros _].
    apply events_bind_Forall; [apply link_nodes_loop_no_fetch | intros container].
    apply io_ret_no_fetch.
  - intros final. destruct (negb (nonempty final)); [apply io_raise_no_fetch|].
    apply events_bind_Forall; [apply emit_progress_no_fetch | intros _].
    apply events_bind_Forall; [apply emit_progress_no_fetch | intros _].
    apply io_ret_no_fetch.
Qed.

(** X12.  An extraction requests exactly one page, whatever its
    outcome: the configured source URL, in the configured fetch mode.  The
    links it finds are never requested. *)
Theorem extraction_requests_the_source_page_once (config : FeedRequest) (now : Z) :
  filter is_fetch (events (extract_feed_entries config now))
  = [FetchPage (fetch_mode config) (source_url config)].
Proof. apply extract_feed_entries_one_fetch. Qed.

End PageRequests.

(** ** The scheduler's pass *)



Section SchedulerPass.

Context {Node : Type} {dom : Dom Node} {urls : UrlLib} {world : World Node}.






Lemma list_profiles_In (db : Database) (p : StoredProfile) :
  In p (list_profiles db) <->
  exists row, In row (profiles db) /\ p = profile_from_row db row.
Proof.
  unfold list_profiles. rewrite in_map_iff.
  split; intros (row & H1 & H2).
  - exists row. split; [|now symmetry].
    eapply Permutation_in; [apply order_by_perm | exact H2].
  - exists row. split; [now symmetry|].
    eapply Permutation_in; [apply Permutation_sym, order_by_perm | exact H1].
Qed.




End SchedulerPass.



(** ** The feed route's loader *)



Section Loader.

Context {Node : Type} {dom : Dom Node} {urls : UrlLib} {world : World Node}.



End Loader.


(** ** The tokenizer on stripped text *)

Lemma suffix_of_refl (s : string) : suffix_of s s.
Proof. now exists EmptyString. Qed.

Lemma suffix_of_cons (c : ascii) (rest s : string) :
  suffix_of rest s -> suffix_of rest (String c s).
Proof. intros [pre ->]. now exists (String c pre). Qed.

Lemma suffix_of_trans (a b c : string) : suffix_of a b -> suffix_of b c -> suffix_of a c.
Proof. intros [p ->] [q ->]. exists (q ++ p). now rewrite append_assoc. Qed.

Lemma ends_solid_suffix (rest s : string) :
  ends_solid s -> suffix_of rest s -> ends_solid rest.
Proof.
  intros Hs [pre ->]. induction pre as [|a pre IH]; [exact Hs|].
  apply IH. intros c Hc. apply Hs.
  cbn [append]. rewrite last_char_cons; [exact Hc|].
  intros E. rewrite E in Hc. discriminate.
Qed.

Lemma rstrip_ends_solid (s : string) : ends_solid (rstrip s).
Proof.
  induction s as [|a s IH]; intros c; cbn [rstrip]; [discriminate|].
  destruct (rstrip s) as [|b r] eqn:E; cbn [is_empty andb].
  - destruct (isspace a) eqn:Ha; [discriminate|]. now intros [= <-].
  - intros Hc. apply IH. exact Hc.
Qed.

Lemma skip_spaces_suffix (prev : option ascii) (s : string) :
  suffix_of (snd (skip_spaces prev s)) s.
Proof.
  revert prev; induction s as [|c s IH]; intros prev; cbn [skip_spaces].
  - apply suffix_of_refl.
  - destruct (isspace c); [apply suffix_of_cons, IH | apply suffix_of_refl].
Qed.

Lemma until_quote_suffix (q : ascii) (s body rest : string) :
  until_quote q s = Some (body, rest) -> suffix_of rest s.
Proof.
  revert body; induction s as [|c s IH]; intros body; cbn [until_quote]; [discriminate|].
  destruct (Ascii.eqb c q).
  - intros [= _ <-]. apply suffix_of_cons, suffix_of_refl.
  - destruct (until_quote q s) as [[b r]|]; [|discriminate].
    intros [= _ <-]. apply suffix_of_cons. now apply (IH b).
Qed.

Lemma match_keyword_suffix (prev : option ascii) (s : string)
    (ty : token_type) (text : string) (l : ascii) (rest : string) :
  match_keyword prev s = Some (ty, text, l, rest) -> suffix_of rest s.
Proof.
  unfold match_keyword.
  destruct s as [|a [|n [|d r]]]; try discriminate.
  - destruct (_ && _); [|discriminate]. intros [= _ _ _ <-].
    do 2 apply suffix_of_cons. apply suffix_of_refl.
  - destruct (_ && _).
    + intros [= _ _ _ <-]. do 3 apply suffix_of_cons. apply suffix_of_refl.
    + destruct (_ && _); [|discriminate]. intros [= _ _ _ <-].
      do 2 apply suffix_of_cons. apply suffix_of_refl.
Qed.

Lemma bare_run_suffix (last : ascii) (s : string) :
  suffix_of (snd (bare_run last s)) s.
Proof.
  revert last; induction s as [|c s IH]; intros last; cbn [bare_run].
  - apply suffix_of_refl.
  - destruct (is_paren c || isspace c); [apply suffix_of_refl|].
    specialize (IH c). destruct (bare_run c s) as [[run l] rest]. cbn [snd] in *.
    now apply suffix_of_cons.
Qed.

Lemma match_token_suffix (prev prev' : option ascii) (s rest : string) (tok : token) :
  match_token prev s = Some (tok, prev', rest) -> suffix_of rest s.
Proof.
  unfold match_token.
  pose proof (skip_spaces_suffix prev s) as Hskip.
  destruct (skip_spaces prev s) as [prev1 s1]. cbn [snd] in Hskip.
  destruct s1 as [|c r]; [discriminate|].
  intros H. apply suffix_of_trans with (b := String c r); [|exact Hskip]. revert H.
  destruct (Ascii.eqb c "("); [intros [= _ _ <-]; apply suffix_of_cons, suffix_of_refl|].
  destruct (Ascii.eqb c ")"); [intros [= _ _ <-]; apply suffix_of_cons, suffix_of_refl|].
  destruct (if Ascii.eqb c QUOTE2 || Ascii.eqb c QUOTE1 then until_quote c r else None)
    as [[body rest']|] eqn:Hq.
  - intros [= _ _ <-].
    destruct (Ascii.eqb c QUOTE2 || Ascii.eqb c QUOTE1); [|discriminate].
    apply suffix_of_cons. eapply until_quote_suffix, Hq.
  - destruct (match_keyword prev1 (String c r)) as [[[[ty text] l] rest']|] eqn:Hk.
    + intros [= _ _ <-]. eapply match_keyword_suffix, Hk.
    + pose proof (bare_run_suffix c (String c r)) as Hb.
      destruct (bare_run c (String c r)) as [[run l] rest']. cbn [snd] in Hb.
      now intros [= _ _ <-].
Qed.

(** On text that does not end in white space a token is always found. *)
Lemma match_token_found (prev : option ascii) (s : string) :
  s <> EmptyString -> ends_solid s -> match_token prev s <> None.
Proof.
  intros Hne Hs. unfold match_token.
  pose proof (skip_spaces_suffix prev s) as Hskip.
  destruct (skip_spaces prev s) as [prev1 s1] eqn:E. cbn [snd] in Hskip.
  destruct s1 as [|c r].
  - exfalso. clear Hskip. revert prev E Hne Hs.
    induction s as [|a s IH]; intros prev E Hne Hs; [congruence|].
    cbn [skip_spaces] in E. destruct (isspace a) eqn:Ha; [|discriminate].
    destruct s as [|b s'].
    + specialize (Hs a eq_refl). congruence.
    + apply (IH (Some a)); [exact E | discriminate |].
      intros c Hc. apply Hs. rewrite last_char_cons; [exact Hc | discriminate].
  - destruct (Ascii.eqb c "("); [discriminate|].
    destruct (Ascii.eqb c ")"); [discriminate|].
    destruct (if Ascii.eqb c QUOTE2 || Ascii.eqb c QUOTE1 then until_quote c r else None)
      as [[body rest']|]; [discriminate|].
    destruct (match_keyword prev1 (String c r)) as [[[[ty text] l] rest']|];
      [discriminate|].
    destruct (bare_run c (String c r)) as [[run l] rest']. discriminate.
Qed.

Lemma tokenize_loop_Ok (fuel : nat) (prev : option ascii) (s : string) :
  String.length s <= fuel -> ends_solid s ->
  exists tokens, tokenize_loop fuel prev s = Ok tokens.
Proof.
  revert prev s; induction fuel as [|fuel IH]; intros prev s Hlen Hs.
  - destruct s; [now exists nil | simpl in Hlen; lia].
  - destruct s as [|c r]; [now exists nil|].
    cbn [tokenize_loop].
    destruct (match_token prev (String c r)) as [[[tok prev'] rest]|] eqn:Hm.
    + pose proof (match_token_shorter _ _ _ _ _ Hm) as Hshort.
      pose proof (match_token_suffix _ _ _ _ _ Hm) as Hsuf.
      destruct (IH prev' rest) as [tokens ->];
        [simpl in *; lia | eapply ends_solid_suffix; eauto|].
      cbn [bind]. eauto.
    + exfalso. now apply (match_token_found prev (String c r)).
Qed.

(** X16.  [tokenize_filter_expression] returns tokens for every
    stripped text: on the text [parse_filter_expression] hands it, its
    failure Invalid filter expression does not occur. *)
Theorem stripped_text_always_tokenizes (expression : string) :
  exists tokens, tokenize_filter_expression (strip expression) = Ok tokens.
Proof.
  apply tokenize_loop_Ok; [apply le_n | apply rstrip_ends_solid].
Qed.

(** ** The failures of the rule parser *)









(** ** Normalized rules *)

Lemma splitlines_line_then (l r : string) :
  has_linebreak l = false ->
  splitlines_from false (l ++ String LF r) = l :: splitlines_from false r.
Proof.
  induction l as [|c l IH]; cbn [append splitlines_from has_linebreak andb].
  - intros _. reflexivity.
  - intros H. apply orb_false_iff in H as [Hc Hl]. rewrite Hc, (IH Hl). reflexivity.
Qed.

Lemma splitlines_one_line (l : string) :
  has_linebreak l = false -> l <> EmptyString -> splitlines_from false l = [l].
Proof.
  induction l as [|c l IH]; [congruence|].
  cbn [splitlines_from has_linebreak andb]. intros H _.
  apply orb_false_iff in H as [Hc Hl]. rewrite Hc.
  destruct l as [|d l']; [reflexivity|].
  rewrite IH; [reflexivity | exact Hl | discriminate].
Qed.

Lemma splitlines_join (ls : list string) :
  Forall rule_line ls -> splitlines (join (String LF EmptyString) ls) = ls.
Proof.
  unfold splitlines. induction 1 as [|l ls (Hne & Hlb & _) Hls IH]; [reflexivity|].
  destruct ls as [|l' ls'].
  - cbn [join]. now apply splitlines_one_line.
  - change (join (String LF EmptyString) (l :: l' :: ls'))
      with (l ++ String LF (join (String LF EmptyString) (l' :: ls'))).
    rewrite splitlines_line_then by exact Hlb. now rewrite IH.
Qed.

Lemma splitlines_from_one_line (after_cr : bool) (s : string) :
  Forall (fun l => has_linebreak l = false) (splitlines_from after_cr s).
Proof.
  revert after_cr; induction s as [|c s IH]; intros after_cr; cbn [splitlines_from].
  - constructor.
  - destruct (after_cr && Ascii.eqb c LF); [apply IH|].
    destruct (is_linebreak c) eqn:Hc; [constructor; [reflexivity | apply IH]|].
    specialize (IH false). destruct (splitlines_from false s) as [|l ls].
    + constructor; [cbn; now rewrite Hc | constructor].
    + inversion IH; subst. constructor; [cbn; now rewrite Hc | assumption].
Qed.

Lemma lstrip_one_line (s : string) :
  has_linebreak s = false -> has_linebreak (lstrip s) = false.
Proof.
  induction s as [|c s IH]; [reflexivity|]. cbn [lstrip has_linebreak]. intros H.
  destruct (isspace c); [|exact H]. apply orb_false_iff in H as [_ H]. now apply IH.
Qed.

Lemma rstrip_one_line (s : string) :
  has_linebreak s = false -> has_linebreak (rstrip s) = false.
Proof.
  induction s as [|c s IH]; [reflexivity|]. cbn [rstrip has_linebreak]. intros H.
  apply orb_false_iff in H as [Hc Hs].
  destruct (is_empty (rstrip s) && isspace c); [reflexivity|].
  cbn [has_linebreak]. now rewrite Hc, IH.
Qed.

Lemma rstrip_idempotent (s : string) : rstrip (rstrip s) = rstrip s.
Proof.
  induction s as [|c s IH]; [reflexivity|]. cbn [rstrip].
  destruct (is_empty (rstrip s) && isspace c) eqn:E; [reflexivity|].
  cbn [rstrip]. now rewrite IH, E.
Qed.

Lemma lstrip_head (s : string) :
  match lstrip s with
  | EmptyString => True
  | String c _ => isspace c = false
  end.
Proof.
  induction s as [|c s IH]; cbn [lstrip]; [exact I|].
  destruct (isspace c) eqn:E; [exact IH | exact E].
Qed.

Lemma lstrip_solid_head (c : ascii) (s : string) :
  isspace c = false -> lstrip (String c s) = String c s.
Proof. intros H. cbn [lstrip]. now rewrite H. Qed.

Lemma strip_idempotent (s : string) : strip (strip s) = strip s.
Proof.
  unfold strip. pose proof (lstrip_head s) as Hhead.
  destruct (lstrip s) as [|c r]; [reflexivity|].
  assert (Hr : rstrip (String c r) = String c (rstrip r)).
  { cbn [rstrip]. now rewrite Hhead, andb_false_r. }
  rewrite Hr, (lstrip_solid_head _ _ Hhead), <- Hr. apply rstrip_idempotent.
Qed.

Lemma filter_map_commute {A B : Type} (f : A -> B) (p : B -> bool) (xs : list A) :
  filter p (map f xs) = map f (filter (fun x => p (f x)) xs).
Proof.
  induction xs as [|x xs IH]; [reflexivity|]. cbn [map filter].
  destruct (p (f x)); cbn [map]; now rewrite IH.
Qed.

Lemma normalize_filter_rules_lines (raw : string) :
  normalize_filter_rules raw
  = join (String LF EmptyString) (parse_filter_rule_lines raw).
Proof.
  unfold normalize_filter_rules, parse_filter_rule_lines. cbv zeta.
  now rewrite filter_map_commute.
Qed.

Lemma parse_filter_rule_lines_clean (raw : string) :
  Forall rule_line (parse_filter_rule_lines raw).
Proof.
  unfold parse_filter_rule_lines. apply Forall_forall. intros l Hl.
  apply in_map_iff in Hl as (line & <- & Hin). apply filter_In in Hin as [Hin Ht].
  split; [|split].
  - intros E. rewrite E in Ht. discriminate.
  - unfold strip. apply rstrip_one_line, lstrip_one_line.
    pose proof (splitlines_from_one_line false raw) as Hall.
    rewrite Forall_forall in Hall. now apply Hall.
  - apply strip_idempotent.
Qed.

Lemma parse_filter_rule_lines_join (ls : list string) :
  Forall rule_line ls ->
  parse_filter_rule_lines (join (String LF EmptyString) ls) = ls.
Proof.
  intros H. unfold parse_filter_rule_lines. rewrite (splitlines_join _ H).
  induction H as [|l ls (Hne & _ & Hs) _ IH]; [reflexivity|].
  cbn [filter]. rewrite Hs.
  assert (Ht : truthy l = true) by (destruct l; [congruence | reflexivity]).
  rewrite Ht. cbn [map]. now rewrite Hs, IH.
Qed.

(** X18.  Normalizing rule text keeps its rules: the normalized text
    has the same rule lines as the text it was made from and parses to the
    same result, and normalizing it again changes nothing. *)
Theorem normalize_filter_rules_keeps_the_rules (raw : string) :
  parse_filter_rule_lines (normalize_filter_rules raw) = parse_filter_rule_lines raw
  /\ parse_filter_rules (normalize_filter_rules raw) = parse_filter_rules raw
  /\ normalize_filter_rules (normalize_filter_rules raw) = normalize_filter_rules raw.
Proof.
  assert (H : parse_filter_rule_lines (normalize_filter_rules raw)
              = parse_filter_rule_lines raw).
  { rewrite normalize_filter_rules_lines.
    apply parse_filter_rule_lines_join, parse_filter_rule_lines_clean. }
  split; [exact H|]. split.
  - unfold parse_filter_rules. now rewrite H.
  - rewrite (normalize_filter_rules_lines (normalize_filter_rules raw)), H.
    symmetry. apply normalize_filter_rules_lines.
Qed.

(** ** The failures of an extraction *)

Section ExtractionFailures.

Context {Node : Type} {dom : Dom Node} {urls : UrlLib} {world : World Node}.







End ExtractionFailures.


(** ** Request values *)

Lemma py_int_str_upto_1440 :
  forallb (fun k => match py_int (str_of_int (Z.of_nat k)) with
                    | Some v => (v =? Z.of_nat k)%Z
                    | None => false
                    end) (seq 0 1441) = true.
Proof. vm_compute. reflexivity. Qed.

Lemma py_int_str_of_int (n : Z) :
  (0 <= n <= 1440)%Z -> py_int (str_of_int n) = Some n.
Proof.
  intros Hn. pose proof py_int_str_upto_1440 as H. rewrite forallb_forall in H.
  specialize (H (Z.to_nat n)). rewrite Z2Nat.id in H by lia.
  destruct (py_int (str_of_int n)) as [v|].
  - rewrite in_seq in H. f_equal.
    assert (Hv : (v =? n)%Z = true) by (apply H; lia).
    now apply Z.eqb_eq in Hv.
  - rewrite in_seq in H. assert (false = true) by (apply H; lia). discriminate.
Qed.

Lemma parse_max_items_Ok (raw : string) (n : Z) :
  parse_max_items raw = Ok n -> (1 <= n <= 100)%Z /\ py_int raw = Some n.
Proof.
  unfold parse_max_items. destruct (py_int raw) as [v|]; [|discriminate].
  destruct (_ || _) eqn:E; [discriminate|]. intros [= <-].
  apply orb_false_iff in E as [E1 E2]. apply Z.ltb_ge in E1, E2. split; [lia | reflexivity].
Qed.

Lemma parse_refresh_interval_Ok (raw : string) (n : Z) :
  parse_refresh_interval raw = Ok n -> (0 <= n <= 1440)%Z /\ py_int raw = Some n.
Proof.
  unfold parse_refresh_interval. destruct (py_int raw) as [v|]; [|discriminate].
  destruct (_ || _) eqn:E; [discriminate|]. intros [= <-].
  apply orb_false_iff in E as [E1 E2]. apply Z.ltb_ge in E1, E2. split; [lia | reflexivity].
Qed.

Lemma parse_max_items_str (n : Z) :
  (1 <= n <= 100)%Z -> parse_max_items (str_of_int n) = Ok n.
Proof.
  intros Hn. unfold parse_max_items. rewrite py_int_str_of_int by lia.
  assert (E : (n <? 1)%Z || (100 <? n)%Z = false).
  { apply orb_false_iff. split; apply Z.ltb_ge; lia. }
  now rewrite E.
Qed.

Lemma parse_refresh_interval_str (n : Z) :
  (0 <= n <= 1440)%Z -> parse_refresh_interval (str_of_int n) = Ok n.
Proof.
  intros Hn. unfold parse_refresh_interval. rewrite py_int_str_of_int by lia.
  assert (E : (n <? 0)%Z || (1440 <? n)%Z = false).
  { apply orb_false_iff. split; apply Z.ltb_ge; lia. }
  now rewrite E.
Qed.

(** X20.  The values [parse_max_items] returns are exactly the
    integers from 1 to 100, and the values [parse_refresh_interval] returns
    are exactly the integers from 0 to 1440: each returns nothing outside
    its range, and returns every integer of its range for some text. *)
Theorem number_fields_accept_exactly_their_ranges (n : Z) :
  ((exists raw, parse_max_items raw = Ok n) <-> (1 <= n <= 100)%Z)
  /\ ((exists raw, parse_refresh_interval raw = Ok n) <-> (0 <= n <= 1440)%Z).
Proof.
  split; split.
  - intros [raw H]. now apply parse_max_items_Ok in H.
  - intros H. exists (str_of_int n). now apply parse_max_items_str.
  - intros [raw H]. now apply parse_refresh_interval_Ok in H.
  - intros H. exists (str_of_int n). now apply parse_refresh_interval_str.
Qed.

Section RequestValuesTheory.

Context {urls : UrlLib}.

Lemma require_text_Ok (value label text : string) :
  require_text value label = Ok text -> text <> EmptyString /\ strip text = text.
Proof.
  unfold require_text. cbv zeta.
  destruct (truthy (strip value)) eqn:E; [|discriminate]. cbn [negb].
  intros [= <-]. split; [|apply strip_idempotent].
  intros H. rewrite H in E. discriminate.
Qed.

Lemma require_text_again (text label : string) :
  text <> EmptyString -> strip text = text -> require_text text label = Ok text.
Proof.
  intros Hne Hs. unfold require_text. cbv zeta. rewrite Hs.
  destruct text; [congruence | reflexivity].
Qed.

Lemma normalize_source_url_Ok (raw url : string) :
  normalize_source_url raw = Ok url ->
  is_http_scheme (url_scheme url) = true
  /\ url_netloc url <> EmptyString
  /\ strip url = url.
Proof.
  unfold normalize_source_url. cbv zeta.
  destruct (is_http_scheme (url_scheme (strip raw))) eqn:Hs; [|discriminate].
  destruct (truthy (url_netloc (strip raw))) eqn:Hn; [|discriminate].
  cbn [negb orb]. intros [= <-]. split; [exact Hs|]. split; [|apply strip_idempotent].
  intros H. rewrite H in Hn. discriminate.
Qed.

Lemma normalize_source_url_again (url : string) :
  is_http_scheme (url_scheme url) = true -> url_netloc url <> EmptyString ->
  strip url = url -> normalize_source_url url = Ok url.
Proof.
  intros Hs Hn Hstrip. unfold normalize_source_url. cbv zeta. rewrite Hstrip, Hs.
  destruct (url_netloc url); [congruence | reflexivity].
Qed.

Lemma normalize_filter_rules_idempotent (raw : string) :
  normalize_filter_rules (normalize_filter_rules raw) = normalize_filter_rules raw.
Proof.
  rewrite (normalize_filter_rules_lines (normalize_filter_rules raw)).
  rewrite normalize_filter_rules_lines at 1.
  rewrite parse_filter_rule_lines_join by apply parse_filter_rule_lines_clean.
  symmetry. apply normalize_filter_rules_lines.
Qed.

Lemma fetch_mode_choice (raw : string) :
  let fetch_mode := or_str (strip raw) "http" in
  String.eqb fetch_mode "http" || String.eqb fetch_mode "browser" = true ->
  fetch_mode = "http" \/ fetch_mode = "browser".
Proof.
  intros fetch_mode H. apply orb_true_iff in H as [H|H]; apply String.eqb_eq in H; auto.
Qed.

Lemma parse_request_values_validated (values : list (string * string))
    (config : FeedRequest) :
  parse_request_values values = Ok config -> validated config.
Proof.
  unfold parse_request_values.
  destruct (normalize_source_url _) as [url|e] eqn:Hurl; [|discriminate]. cbn [bind].
  destruct (String.eqb _ "http" || String.eqb _ "browser") eqn:Hmode; [|discriminate].
  cbn [negb].
  destruct (require_text _ "Feed title") as [t1|e] eqn:H1; [|discriminate]. cbn [bind].
  destruct (require_text _ "Item selector") as [t2|e] eqn:H2; [|discriminate]. cbn [bind].
  destruct (require_text _ "Title selector") as [t3|e] eqn:H3; [|discriminate]. cbn [bind].
  destruct (require_text _ "Link selector") as [t4|e] eqn:H4; [|discriminate]. cbn [bind].
  destruct (parse_max_items _) as [m|e] eqn:Hm; [|discriminate]. cbn [bind].
  destruct (parse_refresh_interval _) as [r|e] eqn:Hr; [|discriminate]. cbn [bind].
  intros [= <-]. unfold validated. cbn.
  split; [eapply normalize_source_url_Ok, Hurl|].
  split; [now apply fetch_mode_choice|].
  split; [repeat constructor; eapply require_text_Ok; eassumption|].
  split; [apply strip_idempotent|].
  split; [apply normalize_filter_rules_idempotent|].
  split; [apply normalize_filter_rules_idempotent|].
  split; [eapply parse_max_items_Ok, Hm | eapply parse_refresh_interval_Ok, Hr].
Qed.

Lemma validated_parses_again (config : FeedRequest) :
  validated config -> parse_request_values (values_of config) = Ok config.
Proof.
  intros ((Hs & Hn & Hu) & Hmode & Htexts & Hsum & Hinc & Hexc & Hmax & Hint).
  inversion Htexts as [|? ? [N1 S1] Ht2]; subst.
  inversion Ht2 as [|? ? [N2 S2] Ht3]; subst.
  inversion Ht3 as [|? ? [N3 S3] Ht4]; subst.
  inversion Ht4 as [|? ? [N4 S4] _]; subst.
  unfold parse_request_values, values_of, get. cbn [find fst snd String.eqb Ascii.eqb
    Bool.eqb andb].
  rewrite (normalize_source_url_again _ Hs Hn Hu). cbn [bind].
  assert (Hfm : or_str (strip (fetch_mode config)) "http" = fetch_mode config).
  { destruct Hmode as [-> | ->]; reflexivity. }
  rewrite Hfm.
  assert (Hok : String.eqb (fetch_mode config) "http"
                || String.eqb (fetch_mode config) "browser" = true).
  { destruct Hmode as [-> | ->]; reflexivity. }
  rewrite Hok. cbn [negb].
  rewrite (require_text_again _ _ N1 S1), (require_text_again _ _ N2 S2),
    (require_text_again _ _ N3 S3), (require_text_again _ _ N4 S4).
  cbn [bind]. rewrite (parse_max_items_str _ Hmax), (parse_refresh_interval_str _ Hint).
  cbn [bind]. rewrite Hsum, Hinc, Hexc. now destruct config.
Qed.

(** X21.  A request [parse_request_values] returns is validated: its
    source URL is stripped, has scheme http or https and a host; its fetch
    mode is http or browser; its feed title and its item, title and link
    selectors are stripped and not empty; its summary selector is stripped;
    its two rule texts are normalized; its [max_items] is between 1 and 100
    and its refresh interval between 0 and 1440. *)
Theorem parse_request_values_validates (values : list (string * string))
    (config : FeedRequest) :
  parse_request_values values = Ok config ->
  (is_http_scheme (url_scheme (source_url config)) = true
   /\ url_netloc (source_url config) <> EmptyString
   /\ strip (source_url config) = source_url config)
  /\ (fetch_mode config = "http" \/ fetch_mode config = "browser")
  /\ Forall (fun text => text <> EmptyString /\ strip text = text)
       [feed_title config; item_selector config; title_selector config;
        link_selector config]
  /\ strip (summary_selector config) = summary_selector config
  /\ normalize_filter_rules (filter_rules config) = filter_rules config
  /\ normalize_filter_rules (exclude_filter_rules config) = exclude_filter_rules config
  /\ (1 <= max_items config <= 100)%Z
  /\ (0 <= refresh_interval_minutes config <= 1440)%Z.
Proof. apply parse_request_values_validated. Qed.

(** X22.  A request [parse_request_values] returned, submitted again
    field by field (the two numbers as decimal text), parses to itself. *)
Theorem parsed_request_parses_to_itself (values : list (string * string))
    (config : FeedRequest) :
  parse_request_values values = Ok config ->
  parse_request_values (values_of config) = Ok config.
Proof.
  intros H. now apply validated_parses_again, (parse_request_values_validated values).
Qed.

End RequestValuesTheory.

(** X21, witness: a form with padded values and default interval and mode. *)
Lemma parse_request_values_validates_witness :
  exists config,
    @parse_request_values Reference.ref_urls Store.submitted = Ok config
    /\ (1 <= max_items config <= 100)%Z
    /\ (0 <= refresh_interval_minutes config <= 1440)%Z
    /\ (fetch_mode config = "http" \/ fetch_mode config = "browser").
Proof.
  eexists. split; [reflexivity|].
  destruct (@parse_request_values_validates Reference.ref_urls Store.submitted _ eq_refl)
    as (_ & Hmode & _ & _ & _ & _ & Hmax & Hint).
  repeat split; try apply Hmax; try apply Hint. exact Hmode.
Defined.

(** X22, witness: the same form. *)
Lemma parsed_request_parses_to_itself_witness :
  exists config,
    @parse_request_values Reference.ref_urls Store.submitted = Ok config
    /\ @parse_request_values Reference.ref_urls (values_of config) = Ok config.
Proof.
  eexists. split; [reflexivity|].
  exact (@parsed_request_parses_to_itself Reference.ref_urls Store.submitted _ eq_refl).
Defined.

(** ** Feed URLs *)

Lemma rstrip_where_ends (p : ascii -> bool) (s : string) (c : ascii) :
  last_char (rstrip_where p s) = Some c -> p c = false.
Proof.
  induction s as [|a s IH]; cbn [rstrip_where]; [discriminate|].
  destruct (rstrip_where p s) as [|b r] eqn:E; cbn [is_empty andb].
  - destruct (p a) eqn:Ha; [discriminate|]. now intros [= <-].
  - intros Hc. apply IH. exact Hc.
Qed.

Lemma rstrip_where_app (p : ascii -> bool) (s : string) (c : ascii) :
  p c = true -> rstrip_where p (s ++ String c EmptyString) = rstrip_where p s.
Proof.
  intros Hc. induction s as [|a s IH]; cbn [append rstrip_where].
  - now rewrite Hc.
  - now rewrite IH.
Qed.

(** X23.  [build_feed_url] returns a base that does not end in a
    slash, followed by [/feeds/], the token and [.xml].  When the public
    base URL is not blank the root URL plays no part; when it is blank, a
    further slash at the end of the root URL changes nothing. *)
Theorem build_feed_url_has_one_slash (root_url token public_base_url : string) :
  (exists base,
     build_feed_url root_url token public_base_url
     = base ++ "/feeds/" ++ token ++ ".xml"
     /\ endswith_char "/" base = false)
  /\ (strip public_base_url <> EmptyString ->
      forall other_root,
        build_feed_url other_root token public_base_url
        = build_feed_url root_url token public_base_url)
  /\ (strip public_base_url = EmptyString ->
      build_feed_url (root_url ++ "/") token public_base_url
      = build_feed_url root_url token public_base_url).
Proof.
  unfold build_feed_url. cbv zeta. split; [|split].
  - eexists. split; [now rewrite append_assoc|].
    unfold endswith_char.
    destruct (last_char (rstrip_where _ _)) as [c|] eqn:E; [|reflexivity].
    apply rstrip_where_ends in E. rewrite Ascii.eqb_sym. exact E.
  - intros Hne other_root. unfold or_str.
    destruct (strip public_base_url); [congruence | reflexivity].
  - intros ->. cbn [or_str truthy is_empty negb].
    now rewrite rstrip_where_app by reflexivity.
Qed.

(** ** The selected profile *)

(** X24.  [pick_selected_profile] returns nothing only for an empty
    list.  Otherwise it returns a profile of the list: one with the selected
    id when an id is given and some profile has it, and the first profile
    when no id is given or no profile has it. *)
Theorem pick_selected_profile_picks_a_listed_profile (profiles : list StoredProfile)
    (selected_profile_id : option Z) :
  match pick_selected_profile profiles selected_profile_id with
  | None => profiles = []
  | Some picked =>
      In picked profiles
      /\ match selected_profile_id with
         | Some selected =>
             Profile.id picked = selected
             \/ (picked = hd picked profiles
                 /\ forall profile, In profile profiles -> Profile.id profile <> selected)
         | None => picked = hd picked profiles
         end
  end.
Proof.
  unfold pick_selected_profile. destruct profiles as [|first rest]; [reflexivity|].
  destruct selected_profile_id as [selected|].
  - destruct (find _ (first :: rest)) as [profile|] eqn:Hfind.
    + apply find_some in Hfind as [Hin Hid]. apply Z.eqb_eq in Hid. auto.
    + split; [now left|]. right. split; [reflexivity|].
      intros profile Hin Hid.
      pose proof (find_none _ _ Hfind profile Hin) as H. cbn in H.
      apply Z.eqb_neq in H. contradiction.
  - split; [now left | reflexivity].
Qed.

(** ** Clone titles *)

Lemma casefold_app (a b : string) : casefold (a ++ b) = casefold a ++ casefold b.
Proof.
  unfold casefold. induction a as [|c a IH]; [reflexivity|]. cbn. now rewrite IH.
Qed.

Lemma append_cancel_l (a b c : string) : a ++ b = a ++ c -> b = c.
Proof.
  induction a as [|x a IH]; [auto|]. cbn. intros [= H]. now apply IH.
Qed.

Lemma casefold_digits (d : Decimal.uint) :
  casefold (NilEmpty.string_of_uint d) = NilEmpty.string_of_uint d.
Proof.
  unfold casefold. induction d; cbn [NilEmpty.string_of_uint map_chars];
    try rewrite IHd; reflexivity.
Qed.

Lemma casefold_string_of_uint (d : Decimal.uint) :
  casefold (NilZero.string_of_uint d) = NilZero.string_of_uint d.
Proof. destruct d; try reflexivity; apply casefold_digits. Qed.

Lemma casefold_str_of_int (n : Z) : casefold (str_of_int n) = str_of_int n.
Proof.
  unfold str_of_int, NilZero.string_of_int.
  destruct (Z.to_int n) as [d|d]; [apply casefold_string_of_uint|].
  change (casefold (String "-" (NilZero.string_of_uint d)))
    with (String "-" (casefold (NilZero.string_of_uint d))).
  now rewrite casefold_string_of_uint.
Qed.

Lemma str_of_int_inj (a b : Z) : str_of_int a = str_of_int b -> a = b.
Proof.
  unfold str_of_int. intros H. apply DecimalZ.to_int_inj.
  assert (Hnil : forall n, Z.to_int n <> Decimal.Pos Decimal.Nil
                           /\ Z.to_int n <> Decimal.Neg Decimal.Nil).
  { intros [|p|p]; cbn; split; try discriminate; intros [= E];
      now apply (DecimalPos.Unsigned.to_uint_nonnil p). }
  assert (Hs : forall n, NilZero.int_of_string (NilZero.string_of_int (Z.to_int n))
                         = Some (Z.to_int n)).
  { intros n. apply NilZero.isi; apply Hnil. }
  pose proof (Hs a) as Ha. rewrite H, Hs in Ha. congruence.
Qed.

Lemma candidate_key_inj (base_title : string) (a b : Z) :
  candidate_key base_title a = candidate_key base_title b -> a = b.
Proof.
  unfold candidate_key. rewrite !casefold_app, !casefold_str_of_int.
  intros H. apply append_cancel_l in H. apply append_cancel_l in H.
  now apply str_of_int_inj.
Qed.

Lemma existsb_eqb_In (x : string) (xs : list string) :
  existsb (String.eqb x) xs = true <-> In x xs.
Proof.
  rewrite existsb_exists. split.
  - intros (y & Hin & Heq). apply String.eqb_eq in Heq. now subst.
  - intros Hin. exists x. split; [exact Hin | apply String.eqb_refl].
Qed.

Lemma str_int_Ok (n : Z) (number : string) :
  str_int n = Ok number -> number = str_of_int n.
Proof. unfold str_int. destruct (_ <? _)%nat; [discriminate | now intros [= <-]]. Qed.

(** A title the loop returns is free and is the base title with a number. *)
Lemma clone_title_loop_Ok (fuel : nat) (existing_titles : list string)
    (base_title : string) (suffix : Z) (title' : string) :
  clone_title_loop fuel existing_titles base_title suffix = Ok title' ->
  ~ In (casefold title') existing_titles
  /\ exists n, (suffix <= n)%Z /\ title' = base_title ++ " " ++ str_of_int n.
Proof.
  revert suffix; induction fuel as [|fuel IH]; intros suffix; cbn [clone_title_loop].
  - discriminate.
  - destruct (str_int suffix) as [number|e] eqn:Hn; [|discriminate]. cbn [bind].
    apply str_int_Ok in Hn. subst number.
    destruct (existsb _ existing_titles) eqn:Hex; cbn [negb].
    + intros H. apply IH in H as (Hfree & n & Hn & ->).
      split; [exact Hfree|]. exists n. split; [lia | reflexivity].
    + intros [= <-]. split.
      * intros Hin. apply existsb_eqb_In in Hin. exact (eq_true_false_abs _ Hin Hex).
      * exists suffix. split; [lia | reflexivity].
Qed.

(** When the fuel runs out, every candidate tried was taken. *)
Lemma clone_title_loop_out_of_fuel (fuel : nat) (existing_titles : list string)
    (base_title : string) (suffix : Z) :
  clone_title_loop fuel existing_titles base_title suffix = Raise OutOfFuel ->
  forall k, k < fuel ->
    In (candidate_key base_title (suffix + Z.of_nat k)) existing_titles.
Proof.
  revert suffix; induction fuel as [|fuel IH]; intros suffix; cbn [clone_title_loop].
  - intros _ k Hk. lia.
  - destruct (str_int suffix) as [number|e] eqn:Hn; cbn [bind].
    + apply str_int_Ok in Hn. subst number.
      destruct (existsb _ existing_titles) eqn:Hex; cbn [negb]; [|intros [=]].
      intros H k Hk. destruct k as [|k].
      * rewrite Z.add_0_r. now apply existsb_eqb_In.
      * replace (suffix + Z.of_nat (S k))%Z with (suffix + 1 + Z.of_nat k)%Z by lia.
        apply (IH _ H). lia.
    + unfold str_int in Hn. destruct (_ <? _)%nat; [|discriminate Hn].
      injection Hn as <-. intros [=].
Qed.

(** Among more candidates than there are titles one is free. *)
Lemma clone_title_loop_fuel (existing_titles : list string) (base_title : string)
    (suffix : Z) :
  clone_title_loop (S (List.length existing_titles)) existing_titles base_title suffix
  <> Raise OutOfFuel.
Proof.
  intros H.
  pose proof (clone_title_loop_out_of_fuel _ _ _ _ H) as Hall.
  set (tried := map (fun k => candidate_key base_title (suffix + Z.of_nat k))
                  (seq 0 (S (List.length existing_titles)))).
  assert (Hnd : NoDup tried).
  { unfold tried. apply Finite.Injective_map_NoDup; [|apply seq_NoDup].
    intros a b Hab. apply candidate_key_inj in Hab. lia. }
  assert (Hincl : incl tried existing_titles).
  { intros x Hx. unfold tried in Hx. apply in_map_iff in Hx as (k & <- & Hk).
    apply in_seq in Hk. apply Hall. lia. }
  pose proof (NoDup_incl_length Hnd Hincl) as Hlen.
  unfold tried in Hlen. rewrite length_map, length_seq in Hlen. lia.
Qed.

Lemma clone_title_loop_failure (fuel : nat) (existing_titles : list string)
    (base_title : string) (suffix : Z) (e : exn) :
  clone_title_loop fuel existing_titles base_title suffix = Raise e ->
  e = OutOfFuel
  \/ exists msg, e = ValueError msg
                 /\ startswith "Exceeds the limit (4300 digits)" msg = true.
Proof.
  revert suffix; induction fuel as [|fuel IH]; intros suffix; cbn [clone_title_loop].
  - intros [= <-]. now left.
  - destruct (str_int suffix) as [number|e'] eqn:Hn; cbn [bind].
    + destruct (existsb _ existing_titles); cbn [negb]; [apply IH | intros [=]].
    + intros [= <-]. right. unfold str_int in Hn.
      destruct (_ <? _)%nat; [|discriminate]. injection Hn as <-.
      eexists. split; reflexivity.
Qed.

Lemma split_trailing_digits_only (text : string) :
  only_digits (snd (split_trailing_digits text)) = true.
Proof.
  induction text as [|c rest IH]; [reflexivity|]. cbn [split_trailing_digits].
  destruct (split_trailing_digits rest) as [front digits]. cbn [snd] in IH.
  destruct (is_empty front && isdigit c) eqn:E; cbn [snd]; [|exact IH].
  apply andb_true_iff in E as [_ E]. cbn [only_digits]. now rewrite E, IH.
Qed.

Lemma int_digits_only (value : Z) (digits : nat) (after_digit : bool) (s : string) :
  only_digits s = true -> (0 <= value)%Z ->
  s <> EmptyString \/ after_digit = true ->
  exists v count, int_digits value digits after_digit s = Some (v, count) /\ (0 <= v)%Z.
Proof.
  revert value digits after_digit; induction s as [|c r IH];
    intros value digits after_digit Hs Hv Hne; cbn [int_digits].
  - destruct Hne as [Hne | ->]; [congruence|]. eauto.
  - cbn [only_digits] in Hs. apply andb_true_iff in Hs as [Hc Hr]. rewrite Hc.
    apply IH; [exact Hr | lia | now right].
Qed.

Lemma int_of_digits_result (digits : string) :
  only_digits digits = true -> digits <> EmptyString ->
  match int_of_digits digits with
  | Ok value => (0 <= value)%Z
  | Raise e =>
      exists msg, e = ValueError msg
                  /\ startswith "Exceeds the limit (4300 digits)" msg = true
  end.
Proof.
  intros Hd Hne. unfold int_of_digits.
  destruct (int_digits_only 0 0 false digits Hd ltac:(lia) (or_introl Hne))
    as (v & count & -> & Hv).
  destruct (_ <? _)%nat; [|exact Hv]. eexists. split; reflexivity.
Qed.

Lemma current_suffix_digits (base_title text digits : string) :
  current_suffix base_title text = Some digits ->
  only_digits digits = true /\ digits <> EmptyString.
Proof.
  unfold current_suffix.
  pose proof (split_trailing_digits_only text) as Hd.
  destruct (split_trailing_digits text) as [front ds]. cbn [snd] in Hd.
  destruct (truthy ds && _) eqn:E; [|discriminate]. intros [= <-].
  apply andb_true_iff in E as [E _]. split; [exact Hd|].
  intros ->. discriminate.
Qed.

(** X25.  [build_clone_title] always ends.  The title it returns is the
    title of no stored profile, whatever the case of the letters, and is a
    stripped base name followed by [ copy], or by [ copy N] with N at
    least 1.  The one error it raises is the interpreter's [ValueError] for
    an integer of more than 4300 digits. *)
Theorem build_clone_title_is_free (db : Database) (original_title : string) :
  match build_clone_title db original_title with
  | Ok title' =>
      (forall row, In row (profiles db) ->
         casefold (Profile.feed_title row) <> casefold title')
      /\ exists base_name,
           strip base_name = base_name
           /\ (title' = base_name ++ " copy"
               \/ exists n, (1 <= n)%Z
                            /\ title' = base_name ++ " copy " ++ str_of_int n)
  | Raise e =>
      exists msg, e = ValueError msg
                  /\ startswith "Exceeds the limit (4300 digits)" msg = true
  end.
Proof.
  unfold build_clone_title.
  set (existing_titles := map (fun profile => casefold (Profile.feed_title profile))
                            (list_profiles db)).
  set (base_name := match copy_base (strip original_title) with
                    | Some base => strip base
                    | None => strip original_title
                    end).
  assert (Hbase : strip base_name = base_name).
  { unfold base_name. destruct (copy_base _); apply strip_idempotent. }
  assert (Hfree : forall title', ~ In (casefold title') existing_titles ->
            forall row, In row (profiles db) ->
              casefold (Profile.feed_title row) <> casefold title').
  { intros title' Hnin row Hrow Heq. apply Hnin. unfold existing_titles.
    apply in_map_iff. exists (profile_from_row db row). split; [exact Heq|].
    apply list_profiles_In. eauto. }
  cbv zeta.
  destruct (existsb _ existing_titles) eqn:Hex; cbn [negb].
  - assert (Hstart : match (match current_suffix (base_name ++ " copy")
                                    (strip original_title) with
                            | Some digits => value <- int_of_digits digits ;; Ok (value + 1)%Z
                            | None => Ok 1%Z
                            end) with
                     | Ok suffix => (1 <= suffix)%Z
                     | Raise e =>
                         exists msg, e = ValueError msg
                           /\ startswith "Exceeds the limit (4300 digits)" msg = true
                     end).
    { destruct (current_suffix _ _) as [digits|] eqn:Hcur; [|lia].
      apply current_suffix_digits in Hcur as [Hd Hne].
      pose proof (int_of_digits_result digits Hd Hne) as Hint.
      destruct (int_of_digits digits) as [value|e]; cbn [bind]; [lia | exact Hint]. }
    destruct (match current_suffix _ _ with Some _ => _ | None => _ end)
      as [suffix|e]; cbn [bind]; [|exact Hstart].
    destruct (clone_title_loop _ existing_titles (base_name ++ " copy") suffix)
      as [title'|e] eqn:Hloop.
    + apply clone_title_loop_Ok in Hloop as (Hnin & n & Hn & ->).
      split; [now apply Hfree|]. exists base_name. split; [exact Hbase|].
      right. exists n. split; [lia|]. now rewrite append_assoc.
    + pose proof (clone_title_loop_fuel existing_titles (base_name ++ " copy") suffix)
        as Hfuel.
      destruct (clone_title_loop_failure _ _ _ _ _ Hloop) as [-> | Hmsg];
        [contradiction | exact Hmsg].
  - split.
    + apply Hfree. intros Hin. apply existsb_eqb_In in Hin.
      exact (eq_true_false_abs _ Hin Hex).
    + exists base_name. split; [exact Hbase | now left].
Qed.

(** The repository's two tests of [build_clone_title], run on the model. *)
Example build_clone_title_tests :
  build_clone_title Store.one_copy "Forum Feed copy" = Ok "Forum Feed copy 1"
  /\ build_clone_title Store.two_copies "Forum Feed copy 1" = Ok "Forum Feed copy 2".
Proof. split; vm_compute; reflexivity. Qed.

(** ** What the link-expansion pass returns *)

Section LinkPassOrder.

Context {Node : Type} {dom : Dom Node} {urls : UrlLib} {world : World Node}.

Variables (config : FeedRequest) (now : Z).
Variables (parsed_filter_rules parsed_exclude_filter_rules : list Filter.tree).

Lemma link_nodes_loop_takes_first (total processed : nat) (pairs : list (Node * Node))
    (entries : list FeedEntry) (seen_links : list string) :
  Forall (fun pair => is_ok (link_candidate config now pair) = true) pairs ->
  (Z.of_nat (List.length entries) < max_items config)%Z ->
  outcome (link_nodes_loop config now parsed_filter_rules parsed_exclude_filter_rules
             total processed pairs entries seen_links)
  = Ok (firstn (Z.to_nat (max_items config))
          (entries ++ distinct_links seen_links
                        (accepted_link_candidates config now parsed_filter_rules
                           parsed_exclude_filter_rules pairs))).
Proof.
  intros Hok. revert processed entries seen_links.
  induction Hok as [|pair rest Hpair _ IH]; intros processed entries seen_links Hlen.
  - cbn. rewrite app_nil_r, firstn_all2; [reflexivity | lia].
  - rewrite link_nodes_loop_step. unfold accepted_link_candidates at 1. cbn [flat_map].
    fold (accepted_link_candidates config now parsed_filter_rules
            parsed_exclude_filter_rules rest).
    destruct (link_candidate config now pair) as [[entry|]|e]; [| |discriminate].
    + destruct (entry_passes_filters _ _ entry) eqn:Hp; cbn [app].
      * cbn [distinct_links]. destruct (seen seen_links entry); cbn [negb andb].
        -- now apply IH.
        -- change (entry :: distinct_links (link entry :: seen_links)
                     (accepted_link_candidates config now parsed_filter_rules
                        parsed_exclude_filter_rules rest))
             with ([entry] ++ distinct_links (link entry :: seen_links)
                     (accepted_link_candidates config now parsed_filter_rules
                        parsed_exclude_filter_rules rest))%list.
           rewrite app_assoc.
           destruct (reached_max (entries ++ [entry]) config) eqn:Hmax.
           ++ unfold reached_max in Hmax. apply Z.leb_le in Hmax.
              rewrite length_app in Hmax. cbn [List.length] in Hmax.
              rewrite firstn_exact; [reflexivity|]. rewrite length_app. cbn. lia.
           ++ apply IH. unfold reached_max in Hmax. now apply Z.leb_gt in Hmax.
      * rewrite andb_false_r. now apply IH.
    + now apply IH.
Qed.

(** X26.  With [max_items] of at least 1 and links none of whose
    candidates raises, the link-expansion pass returns the first
    [max_items] of the candidates that pass the rules, in the order of the
    links, where of the candidates with one link only the first counts. *)
Theorem link_pass_takes_the_first_accepted_distinct (nodes : list Node) :
  (1 <= max_items config)%Z ->
  Forall (fun pair => is_ok (link_candidate config now pair) = true)
    (link_pairs nodes config) ->
  outcome (extract_entries_from_link_collections nodes config now
             parsed_filter_rules parsed_exclude_filter_rules)
  = Ok (firstn (Z.to_nat (max_items config))
          (distinct_links []
             (accepted_link_candidates config now parsed_filter_rules
                parsed_exclude_filter_rules (link_pairs nodes config)))).
Proof.
  intros Hmax Hok. unfold extract_entries_from_link_collections.
  rewrite link_nodes_loop_takes_first; [reflexivity | exact Hok | cbn; lia].
Qed.

End LinkPassOrder.

(** X26, witness: four links, two of them to one topic, and a cap of two. *)
Lemma link_pass_takes_the_first_accepted_distinct_witness :
  outcome (@extract_entries_from_link_collections _ Reference.ref_dom Reference.ref_urls
             Pages.container_nodes (Reference.request ".banger-container" "a" "a" EmptyString 2)
             7001 [] [])
  = Ok [Pages.entry "Alpha Topic" "https://example.com/forums/topic/alpha" 7001;
        Pages.entry "Beta Topic" "https://example.com/forums/topic/beta" 7001].
Proof.
  refine (eq_trans
            (@link_pass_takes_the_first_accepted_distinct _ Reference.ref_dom
               Reference.ref_urls
               (Reference.request ".banger-container" "a" "a" EmptyString 2) 7001 [] []
               Pages.container_nodes _ _) eq_refl).
  - cbn. lia.
  - repeat constructor.
Defined.

(** ** A refresh that extracts the same entries again *)








Lemma rewritten_untouched (profile_id' : Z) (entries : list FeedEntry) (r : FeedItemRow) :
  (forall e, In e entries -> has_key profile_id' e r = false) ->
  rewritten profile_id' entries r = r.
Proof.
  unfold rewritten. revert r; induction entries as [|e es IH]; intros r H; [reflexivity|].
  cbn [fold_left].
  assert (Hrow : upsert_row profile_id' e r = r).
  { unfold upsert_row. fold (has_key profile_id' e r). now rewrite (H e (or_introl eq_refl)). }
  rewrite Hrow. apply IH. intros e' He'. apply H. now right.
Qed.







Section RefreshAgain.

Context {Node : Type} {dom : Dom Node} {urls : UrlLib} {world : World Node}.


End RefreshAgain.

